(** * go-occupy: a shallow embedding of the resource occupancy engine

    The development follows [pkg/occupy/occupy.go] (module [Occupy]) and the
    stand-alone monitor of the older single-file program (module [Legacy]).

    Conventions of the embedding.
    - [uint64] and [int] values are integers in [Z]; the wrap-around of
      [uint64] arithmetic is written out with [u64].
    - [float64] values are the type [F64]: a rational, an infinity or NaN.
      Sums, differences, products and quotients are the exact results
      rounded to the nearest binary64 value, ties to even ([round64]);
      comparisons are exact and false on NaN. Zero carries no sign: the
      program never divides by a value it computed.
    - A byte buffer ([[]byte]) is represented by its length: the program
      fills buffers with a fixed pattern and never reads them back.
    - Channels that are only ever closed ([stop], [cleanupDone]) are
      booleans: [true] once closed. Closing a closed channel panics.
    - Calls to the operating system and to libraries take their results
      from an explicit environment record (samples, clock, I/O failures).
    - A panic of the monitor goroutine is recorded in the state; nothing
      runs after it. *)

From Stdlib Require Import ZArith QArith Qround Qpower Lia Lqa String Ascii.
From Stdlib Require Import DecimalString DecimalZ DecimalPos.
From stdpp Require Import base list.

Local Open Scope Z_scope.

(** ** Machine numbers *)

Definition u64 (x : Z) : Z := x mod 2 ^ 64.

(** *** binary64 *)

Inductive F64 :=
| Finite (q : Q)
| PosInf
| NegInf
| NaN.

(** The integral part of the binary logarithm of a positive rational. *)
Definition ilog2 (q : Q) : Z :=
  let k := Z.log2 (Qnum q) - Z.log2 (Z.pos (Qden q)) in
  if Qle_bool (2 ^ k) q then k else k - 1.

(** The nearest integer, the even one of two that are equally near. *)
Definition rne (q : Q) : Z :=
  let f := Qfloor q in
  match (q - inject_Z f ?= 1 # 2)%Q with
  | Lt => f
  | Gt => f + 1
  | Eq => if Z.even f then f else f + 1
  end.

(** The exponent of the last place of the binary64 values around [q]: 53
    significant bits, and at least -1074 (the subnormal numbers). *)
Definition fexp (q : Q) : Z := Z.max (ilog2 q - 52) (-1074).

Definition roundVal (q : Q) : Q :=
  (inject_Z (rne (q * 2 ^ (- fexp q))) * 2 ^ fexp q)%Q.

(** Rounding a positive rational; from [2^1024] on the result is infinite. *)
Definition roundPos (q : Q) : F64 :=
  let v := roundVal q in
  if Qle_bool (2 ^ 1024) v then PosInf else Finite (Qred v).

Definition fneg (x : F64) : F64 :=
  match x with
  | Finite q => Finite (- q)
  | PosInf => NegInf
  | NegInf => PosInf
  | NaN => NaN
  end.

(** The binary64 value nearest to [q]. A decimal constant of the source
    such as [0.3] stands for [round64 (3 # 10)]. *)
Definition round64 (q : Q) : F64 :=
  match (q ?= 0)%Q with
  | Eq => Finite 0
  | Gt => roundPos q
  | Lt => fneg (roundPos (- q))
  end.

Definition qltb (x y : Q) : bool := Qnum x * QDen y <? Qnum y * QDen x.
Definition qleb (x y : Q) : bool := Qnum x * QDen y <=? Qnum y * QDen x.

(** [x < y] and [x <= y] on floats. *)
Definition fltb (x y : F64) : bool :=
  match x, y with
  | Finite a, Finite b => qltb a b
  | Finite _, PosInf | NegInf, Finite _ | NegInf, PosInf => true
  | _, _ => false
  end.

Definition fleb (x y : F64) : bool :=
  match x, y with
  | Finite a, Finite b => qleb a b
  | Finite _, PosInf | NegInf, Finite _ | NegInf, PosInf
  | PosInf, PosInf | NegInf, NegInf => true
  | _, _ => false
  end.

Definition fadd (x y : F64) : F64 :=
  match x, y with
  | Finite a, Finite b => round64 (a + b)
  | NaN, _ | _, NaN => NaN
  | PosInf, NegInf | NegInf, PosInf => NaN
  | PosInf, _ | _, PosInf => PosInf
  | NegInf, _ | _, NegInf => NegInf
  end.

Definition fsub (x y : F64) : F64 := fadd x (fneg y).

(** An infinity with the sign of [x] times the sign of [q]; NaN for zero. *)
Definition infinite (x : F64) (q : Q) : F64 :=
  match (q ?= 0)%Q with
  | Eq => NaN
  | Gt => x
  | Lt => fneg x
  end.

Definition fmul (x y : F64) : F64 :=
  match x, y with
  | Finite a, Finite b => round64 (a * b)
  | NaN, _ | _, NaN => NaN
  | Finite a, _ => infinite y a
  | _, Finite b => infinite x b
  | PosInf, PosInf | NegInf, NegInf => PosInf
  | PosInf, NegInf | NegInf, PosInf => NegInf
  end.

(** The program divides by the constant [100.0] only; a zero divisor is
    taken as positive. *)
Definition fdiv (x y : F64) : F64 :=
  match x, y with
  | Finite a, Finite b =>
      match (b ?= 0)%Q with
      | Eq => infinite PosInf a
      | _ => round64 (a / b)
      end
  | NaN, _ | _, NaN => NaN
  | Finite _, _ => Finite 0
  | _, Finite b => match (b ?= 0)%Q with Lt => fneg x | _ => x end
  | _, _ => NaN
  end.

Declare Scope float_scope.
Delimit Scope float_scope with F.
Bind Scope float_scope with F64.
Infix "+" := fadd : float_scope.
Infix "-" := fsub : float_scope.
Infix "*" := fmul : float_scope.
Infix "/" := fdiv : float_scope.
Infix "<?" := fltb : float_scope.
Infix "<=?" := fleb : float_scope.

(** The value is one of binary64: rounding leaves it as it is. *)
Definition isF64 (x : F64) : bool :=
  match x with
  | Finite q =>
      match round64 q with
      | Finite v => Qeq_bool v q
      | _ => false
      end
  | _ => true
  end.

(** Conversion of a float to an integer type truncates toward zero. *)
Definition trunc (q : Q) : Z := Z.quot (Qnum q) (Z.pos (Qden q)).

(** [int(f)]: the integral part of [f] when it fits 64 bits. Outside that
    range, and on NaN, Go leaves the result to the implementation; the
    definition gives what the amd64 compiler gives, [-2^63]. *)
Definition int_of_float (x : F64) : Z :=
  match x with
  | Finite q =>
      let t := trunc q in
      if (- 2 ^ 63 <=? t) && (t <? 2 ^ 63) then t else - 2 ^ 63
  | _ => - 2 ^ 63
  end.

(** [uint64(f)]: for [0 <= f < 2^64] the integral part of [f]. Outside that
    range, and on NaN, Go leaves the result to the implementation; the
    definition gives what the amd64 compiler gives: a negative integral
    part down to [-2^63] wraps around, everything else becomes [2^63]. *)
Definition uint64_of_float (x : F64) : Z :=
  match x with
  | Finite q =>
      let t := trunc q in
      if (0 <=? t) && (t <? 2 ^ 64) then t
      else if (- 2 ^ 63 <=? t) && (t <? 0) then t + 2 ^ 64
      else 2 ^ 63
  | _ => 2 ^ 63
  end.

(** [float64(n)] *)
Definition float64 (n : Z) : F64 := round64 (inject_Z n).

(** Results of fallible library calls. *)
Inductive result (A : Type) : Type :=
| Ok (a : A)
| Err.
Arguments Ok {A} a.
Arguments Err {A}.

(** [mem.VirtualMemoryStat] and [disk.UsageStat]: the fields the code reads. *)
Record VirtualMemoryStat := mkMemInfo { mem_Total : Z; mem_UsedPercent : F64 }.
Record UsageStat := mkDiskInfo { disk_Total : Z; disk_UsedPercent : F64 }.

(** The string [s] does not contain the character [c]. *)
Fixpoint lacks (c : ascii) (s : string) : bool :=
  match s with
  | EmptyString => true
  | String x s' => if Ascii.eqb c x then false else lacks c s'
  end.

(** ** The package [occupy] *)

Module Occupy.

Record ResourceConfig := mkConfig {
  MemoryPercent : F64;
  CPUPercent : F64;
  DiskPercent : F64;
  Interval : Z
}.

Record ResourceMonitor := mkMonitor {
  Config : ResourceConfig;
  stop : bool;
  cleanupDone : bool;
  ActiveCPULoad : bool;
  targetCPUWorkers : Z;
  currentCPUWorkers : Z;
  AllocatedMemory : list Z
}.

Definition NewResourceMonitor (config : ResourceConfig) : ResourceMonitor :=
  {| Config := config; stop := false; cleanupDone := false;
     ActiveCPULoad := false; targetCPUWorkers := 0; currentCPUWorkers := 0;
     AllocatedMemory := [] |}.

(** A file of the temporary directory: its name and its size in bytes. *)
Record File := mkFile { fname : string; fsize : Z }.

(** What [filepath.Glob] makes of a directory part that holds
    metacharacters: it matches it, as a pattern, against the directories
    that exist. Entries of other directories that the pattern matches are
    not part of the state. *)
Inductive GlobDir :=
| DirFound      (* the pattern matches the directory itself *)
| DirMissed     (* it matches no directory, or other directories only *)
| DirBadPattern (* it is malformed: [filepath.ErrBadPattern] *).

(** The temporary directory of the run, [os.TempDir()] or the value of
    [GO_OCCUPY_TEMP_DIR]: its path, and what [filepath.Glob] makes of that
    path when it holds metacharacters. *)
Record TempDir := mkTempDir { tempPath : string; globDir : GlobDir }.

(** Instrumentation: the calls the controller makes, in order. *)
Inductive Call :=
| CallAdjustDisk
| CallAdjustMemory
| CallAdjustCPU
| CallStopCPULoad
| CallCleanupMemory
| CallCleanupAllTempFiles
| CloseCleanupDone.

(** What the code acts on: the monitor, the temporary directory and its
    content, the call log, and whether the monitor goroutine has
    panicked. *)
Record World := mkWorld {
  rm : ResourceMonitor;
  tempDir : TempDir;
  files : list File;
  calls : list Call;
  panicked : bool
}.

Definition with_rm (f : ResourceMonitor -> ResourceMonitor) (w : World) : World :=
  {| rm := f (rm w); tempDir := tempDir w; files := files w; calls := calls w;
     panicked := panicked w |}.

Definition with_files (f : list File -> list File) (w : World) : World :=
  {| rm := rm w; tempDir := tempDir w; files := f (files w); calls := calls w;
     panicked := panicked w |}.

Definition record (c : Call) (w : World) : World :=
  {| rm := rm w; tempDir := tempDir w; files := files w; calls := calls w ++ [c];
     panicked := panicked w |}.

Definition panic (w : World) : World :=
  {| rm := rm w; tempDir := tempDir w; files := files w; calls := calls w;
     panicked := true |}.

Definition set_stop (b : bool) (m : ResourceMonitor) : ResourceMonitor :=
  {| Config := Config m; stop := b; cleanupDone := cleanupDone m;
     ActiveCPULoad := ActiveCPULoad m; targetCPUWorkers := targetCPUWorkers m;
     currentCPUWorkers := currentCPUWorkers m; AllocatedMemory := AllocatedMemory m |}.

Definition set_cleanupDone (b : bool) (m : ResourceMonitor) : ResourceMonitor :=
  {| Config := Config m; stop := stop m; cleanupDone := b;
     ActiveCPULoad := ActiveCPULoad m; targetCPUWorkers := targetCPUWorkers m;
     currentCPUWorkers := currentCPUWorkers m; AllocatedMemory := AllocatedMemory m |}.

Definition set_cpu (active : bool) (target current : Z) (m : ResourceMonitor)
  : ResourceMonitor :=
  {| Config := Config m; stop := stop m; cleanupDone := cleanupDone m;
     ActiveCPULoad := active; targetCPUWorkers := target;
     currentCPUWorkers := current; AllocatedMemory := AllocatedMemory m |}.

Definition set_AllocatedMemory (mem : list Z) (m : ResourceMonitor) : ResourceMonitor :=
  {| Config := Config m; stop := stop m; cleanupDone := cleanupDone m;
     ActiveCPULoad := ActiveCPULoad m; targetCPUWorkers := targetCPUWorkers m;
     currentCPUWorkers := currentCPUWorkers m; AllocatedMemory := mem |}.

(** *** Memory *)

(** [getTotalAllocatedMemory]: the running [uint64] sum of the chunk lengths. *)
Definition getTotalAllocatedMemory (mem : list Z) : Z :=
  fold_left (fun total memory => u64 (total + memory)) mem 0.

(** 100MB per chunk *)
Definition chunkSize : Z := 100 * 1024 * 1024.

(** The loop of [allocateMemory]; [fuel] bounds the number of iterations. *)
Fixpoint allocateLoop (fuel : nat) (remainingBytes : Z) (mem : list Z) : Z * list Z :=
  match fuel with
  | O => (remainingBytes, mem)
  | S fuel' =>
      if 0 <? remainingBytes then
        let currentChunk :=
          if remainingBytes <? chunkSize then remainingBytes else chunkSize in
        allocateLoop fuel' (u64 (remainingBytes - currentChunk)) (mem ++ [currentChunk])
      else (remainingBytes, mem)
  end.

(** One iteration consumes [chunkSize] bytes unless it is the last. *)
Definition allocateFuel (bytes : Z) : nat := S (Z.to_nat (bytes / chunkSize)).

Definition allocateMemory (bytes : Z) (m : ResourceMonitor) : ResourceMonitor :=
  set_AllocatedMemory
    (snd (allocateLoop (allocateFuel bytes) bytes (AllocatedMemory m))) m.

(** The loop of [releaseMemory], [for i := len-1; i >= 0 && released < target; i--]:
    [n] is [i + 1]. *)
Fixpoint releaseLoop (n : nat) (targetReleaseBytes releasedBytes : Z) (mem : list Z)
  : Z * list Z :=
  match n with
  | O => (releasedBytes, mem)
  | S i =>
      if releasedBytes <? targetReleaseBytes then
        match mem !! i with
        | Some chunk =>
            if u64 (releasedBytes + chunk) <=? targetReleaseBytes then
              releaseLoop i targetReleaseBytes (u64 (releasedBytes + chunk)) (take i mem)
            else
              let remainingBytes := u64 (targetReleaseBytes - releasedBytes) in
              releaseLoop i targetReleaseBytes (u64 (releasedBytes + remainingBytes))
                (<[i := remainingBytes]> mem)
        | None => (releasedBytes, mem) (* not reached: i < len *)
        end
      else (releasedBytes, mem)
  end.

(** The part of [releaseMemory] after [targetReleaseBytes] is computed: the
    clamp to the allocated total, then the loop. *)
Definition releaseBytes (targetReleaseBytes : Z) (mem : list Z) : Z * list Z :=
  let currentAllocated := getTotalAllocatedMemory mem in
  let targetReleaseBytes :=
    if currentAllocated <? targetReleaseBytes then currentAllocated
    else targetReleaseBytes in
  releaseLoop (length mem) targetReleaseBytes 0 mem.

Definition releaseMemory (currentPercent : F64) (memInfo : VirtualMemoryStat)
  (m : ResourceMonitor) : ResourceMonitor :=
  match AllocatedMemory m with
  | [] => m
  | _ =>
      let targetReleaseBytes :=
        uint64_of_float
          ((currentPercent - MemoryPercent (Config m)) / Finite 100
           * float64 (mem_Total memInfo))%F in
      set_AllocatedMemory (snd (releaseBytes targetReleaseBytes (AllocatedMemory m))) m
  end.

Definition adjustMemoryUsage (currentPercent : F64) (memInfo : VirtualMemoryStat)
  (w : World) : World :=
  let w := record CallAdjustMemory w in
  if (currentPercent <? MemoryPercent (Config (rm w)))%F then
    let targetBytes :=
      uint64_of_float
        ((MemoryPercent (Config (rm w)) - currentPercent) / Finite 100
         * float64 (mem_Total memInfo))%F in
    with_rm (allocateMemory targetBytes) w
  else if (MemoryPercent (Config (rm w)) + Finite 5 <? currentPercent)%F then
    with_rm (releaseMemory currentPercent memInfo) w
  else w.

Definition cleanupMemory (m : ResourceMonitor) : ResourceMonitor :=
  match AllocatedMemory m with
  | [] => m
  | _ => set_AllocatedMemory [] m
  end.

(** *** CPU *)

Definition startCPULoadInternal (m : ResourceMonitor) : ResourceMonitor :=
  if ActiveCPULoad m then m
  else set_cpu true (targetCPUWorkers m) (targetCPUWorkers m) m.

Definition stopCPULoadInternal (m : ResourceMonitor) : ResourceMonitor :=
  if ActiveCPULoad m then set_cpu false (targetCPUWorkers m) 0 m
  else m.

Definition stopCPULoad (m : ResourceMonitor) : ResourceMonitor :=
  if ActiveCPULoad m then stopCPULoadInternal m else m.

Definition adjustCPUWorkers (targetWorkers : Z) (m : ResourceMonitor) : ResourceMonitor :=
  if targetCPUWorkers m =? targetWorkers then m
  else
    let m := set_cpu (ActiveCPULoad m) targetWorkers (currentCPUWorkers m) m in
    if targetWorkers =? 0 then
      if ActiveCPULoad m then stopCPULoadInternal m else m
    else
      if negb (ActiveCPULoad m) then startCPULoadInternal m
      else if negb (currentCPUWorkers m =? targetWorkers) then
        startCPULoadInternal (stopCPULoadInternal m)
      else m.

(** The worker count chosen when the load has to grow; [NumCPU] is
    [runtime.NumCPU()], at least one. *)
Definition growWorkers (config : ResourceConfig) (NumCPU : positive) : Z :=
  let targetWorkers :=
    int_of_float (CPUPercent config / Finite 100 * float64 (Z.pos NumCPU))%F in
  let targetWorkers := if targetWorkers <? 1 then 1 else targetWorkers in
  if Z.pos NumCPU <? targetWorkers then Z.pos NumCPU else targetWorkers.

Definition tolerance : F64 := Finite 5.

Definition adjustCPUUsage (NumCPU : positive) (currentPercent : F64) (w : World) : World :=
  let w := record CallAdjustCPU w in
  if (currentPercent <? CPUPercent (Config (rm w)) - tolerance)%F then
    with_rm (adjustCPUWorkers (growWorkers (Config (rm w)) NumCPU)) w
  else if (CPUPercent (Config (rm w)) + tolerance <? currentPercent)%F then
    with_rm (adjustCPUWorkers 0) w
  else w.

(** *** Disk *)

(** What the operating system answers to the disk operations: whether
    [os.MkdirAll] fails, [time.Now().Unix()] at the creation of the file of
    each index, whether [os.Create] fails there, whether [file.Write] fails
    there (and after how many bytes), whether [os.Remove] fails on a name,
    and whether the temporary directory fails to be read when
    [filepath.Glob] lists it. *)
Record DiskEnv := mkDiskEnv {
  mkdirErr : bool;
  now : Z -> Z;
  createErr : Z -> bool;
  writeErr : Z -> option Z;
  removeErr : string -> bool;
  readDirErr : bool
}.

(** 5G per file *)
Definition fileSize : Z := 5 * 1024 * 1024 * 1024.

Definition decimal (n : Z) : string := NilZero.string_of_int (Z.to_int n).

(** [fmt.Sprintf("go_occupy_temp_%d_%d.dat", now, fileIndex)]; the files
    of the temporary directory go by their names in it. *)
Definition tempFileName (now fileIndex : Z) : string :=
  ("go_occupy_temp_" ++ decimal now ++ "_" ++ decimal fileIndex ++ ".dat")%string.

(** [os.Create]: a new empty file, or the existing one truncated. *)
Definition osCreate (name : string) (fs : list File) : list File :=
  if existsb (fun f => String.eqb (fname f) name) fs then
    map (fun f => if String.eqb (fname f) name then mkFile name 0 else f) fs
  else fs ++ [mkFile name 0].

(** The content of the open file grows to [n] bytes. *)
Definition osWrite (name : string) (n : Z) (fs : list File) : list File :=
  map (fun f => if String.eqb (fname f) name then mkFile name n else f) fs.

Definition osRemove (env : DiskEnv) (name : string) (fs : list File) : result (list File) :=
  if removeErr env name then Err
  else Ok (List.filter (fun f => negb (String.eqb (fname f) name)) fs).

(** The loop of [createTempFiles]; [fuel] bounds the number of iterations. *)
Fixpoint createLoop (env : DiskEnv) (fuel : nat) (remainingBytes fileIndex : Z)
  (fs : list File) : Z * list File :=
  match fuel with
  | O => (remainingBytes, fs)
  | S fuel' =>
      if 0 <? remainingBytes then
        let currentFileSize :=
          if remainingBytes <? fileSize then remainingBytes else fileSize in
        let fileName := tempFileName (now env fileIndex) fileIndex in
        if createErr env fileIndex then (remainingBytes, fs)
        else
          let fs := osCreate fileName fs in
          match writeErr env fileIndex with
          | Some written =>
              let fs := osWrite fileName written fs in
              match osRemove env fileName fs with
              | Ok fs' => (remainingBytes, fs')
              | Err => (remainingBytes, fs)
              end
          | None =>
              createLoop env fuel' (u64 (remainingBytes - currentFileSize))
                (fileIndex + 1) (osWrite fileName currentFileSize fs)
          end
      else (remainingBytes, fs)
  end.

Definition createFuel (targetBytes : Z) : nat := S (Z.to_nat (targetBytes / fileSize)).

Definition createTempFiles (env : DiskEnv) (targetBytes : Z) (fs : list File) : list File :=
  if mkdirErr env then fs
  else snd (createLoop env (createFuel targetBytes) targetBytes 0 fs).

Definition hasSuffix (suffix s : string) : bool :=
  (String.length suffix <=? String.length s)%nat
  && String.eqb
       (String.substring (String.length s - String.length suffix)
          (String.length suffix) s) suffix.

(** The names that [go_occupy_temp_*.dat] matches; names of directory
    entries contain no separator. *)
Definition globMatch (name : string) : bool :=
  String.prefix "go_occupy_temp_" name
  && hasSuffix ".dat" name
  && (19 <=? String.length name)%nat.

(** The metacharacters of [filepath.Glob] on systems other than Windows. *)
Definition hasMeta (path : string) : bool :=
  negb (lacks "*" path && lacks "?" path && lacks "[" path && lacks "\" path).

(** [filepath.Glob(filepath.Join(tempDir, "go_occupy_temp_*.dat"))]: when the
    path of the directory holds no metacharacter, the entries of the
    directory that the pattern matches; otherwise the path is itself taken
    as a pattern, and the entries are found only if it matches the
    directory. A malformed pattern is the one error [Glob] returns; an
    error in reading the directory is ignored and nothing is found. [Glob]
    sorts the matches; the cleanups remove every match, in any order. *)
Definition Glob (dir : TempDir) (env : DiskEnv) (fs : list File)
  : result (list string) :=
  let entries := map fname (List.filter (fun f => globMatch (fname f)) fs) in
  let found := if readDirErr env then [] else entries in
  if hasMeta (tempPath dir) then
    match globDir dir with
    | DirFound => Ok found
    | DirMissed => Ok []
    | DirBadPattern => Err
    end
  else Ok found.

(** The removal loop shared by [cleanupTempFiles] and [cleanupAllTempFiles]:
    the files left and the number deleted. *)
Definition removeAll (env : DiskEnv) (matches : list string) (fs : list File)
  : list File * Z :=
  fold_left
    (fun '(fs, deletedCount) file =>
       match osRemove env file fs with
       | Err => (fs, deletedCount)
       | Ok fs' => (fs', deletedCount + 1)
       end)
    matches (fs, 0).

Definition cleanupTempFiles (dir : TempDir) (env : DiskEnv) (fs : list File)
  : list File :=
  match Glob dir env fs with
  | Err => fs
  | Ok matches => fst (removeAll env matches fs)
  end.

Definition cleanupAllTempFiles (dir : TempDir) (env : DiskEnv) (fs : list File)
  : list File :=
  match Glob dir env fs with
  | Err => fs
  | Ok matches => fst (removeAll env matches fs)
  end.

Definition adjustDiskUsage (env : DiskEnv) (currentPercent : F64) (diskInfo : UsageStat)
  (w : World) : World :=
  let w := record CallAdjustDisk w in
  if (currentPercent <? DiskPercent (Config (rm w)))%F then
    let targetBytes :=
      uint64_of_float
        ((DiskPercent (Config (rm w)) - currentPercent) / Finite 100
         * float64 (disk_Total diskInfo))%F in
    with_files (createTempFiles env targetBytes) w
  else if (DiskPercent (Config (rm w)) + Finite 5 <? currentPercent)%F then
    with_files (cleanupTempFiles (tempDir w) env) w
  else w.

(** *** Cleanup *)

Definition cleanupAllResources (env : DiskEnv) (w : World) : World :=
  let w := with_rm stopCPULoad (record CallStopCPULoad w) in
  let w := with_rm cleanupMemory (record CallCleanupMemory w) in
  with_files (cleanupAllTempFiles (tempDir w) env) (record CallCleanupAllTempFiles w).

(** *** The monitor loop *)

(** What one tick meets: the answers of the sampling calls, the number of
    logical CPUs, the disk environment, and, when another goroutine closes
    [stop] during the tick, the index of the first of the tick's checks of
    [stop] that sees it closed. [cpu.Percent(0, false)] answers with a
    slice, which can be empty. *)
Record TickEnv := mkTickEnv {
  stopAt : option nat;
  VirtualMemory : result VirtualMemoryStat;
  Percent : result (list F64);
  Usage : result UsageStat;
  VirtualMemoryAfterDisk : result VirtualMemoryStat;
  NumCPU : positive;
  disk : DiskEnv
}.

Definition arrive (env : TickEnv) (k : nat) (w : World) : World :=
  match stopAt env with
  | Some j => if Nat.eqb j k then with_rm (set_stop true) w else w
  | None => w
  end.

(** [select { case <-rm.stop: return; default: }], the [k]-th of the tick. *)
Definition checkStop (env : TickEnv) (k : nat) (w : World) (continue : World -> World)
  : World :=
  let w := arrive env k w in
  if stop (rm w) then w else continue w.

Definition monitorAndAdjust (env : TickEnv) (w : World) : World :=
  checkStop env 0 w (fun w =>
  match VirtualMemory env with
  | Err => w
  | Ok memInfo =>
  checkStop env 1 w (fun w =>
  match Percent env with
  | Err => w
  | Ok cpuPercent =>
  checkStop env 2 w (fun w =>
  match Usage env with
  | Err => w
  | Ok diskInfo =>
  checkStop env 3 w (fun w =>
  match cpuPercent with
  | [] => panic w (* cpuPercent[0]: index out of range *)
  | currentCPUPercent :: _ =>
  let currentDiskPercent := disk_UsedPercent diskInfo in
  let w := adjustDiskUsage (disk env) currentDiskPercent diskInfo w in
  checkStop env 4 w (fun w =>
  (* time.Sleep(500 * time.Millisecond) *)
  checkStop env 5 w (fun w =>
  match VirtualMemoryAfterDisk env with
  | Err => w
  | Ok memInfoAfterDisk =>
  checkStop env 6 w (fun w =>
  let w := adjustMemoryUsage (mem_UsedPercent memInfoAfterDisk) memInfoAfterDisk w in
  checkStop env 7 w (fun w =>
  adjustCPUUsage (NumCPU env) currentCPUPercent w))
  end))
  end)
  end)
  end)
  end).

(** What the [select] of [Start] can take, one entry per iteration: the
    ticker case with the environment of that tick, or the [stop] case with
    the disk environment of the cleanup. [StopCalled] is a goroutine closing
    [stop] between two iterations. *)
Inductive Select :=
| TickerFires (env : TickEnv)
| StopCase (env : DiskEnv)
| StopCalled.

Inductive LoopStatus := Looping | Returned | Panicked.

(** The loop of [Start] over the schedule. A [stop] case on an open channel
    is not ready and the loop keeps waiting; a tick that panics ends the
    goroutine; [close(rm.cleanupDone)] panics on a closed channel. *)
Fixpoint startLoop (schedule : list Select) (w : World) : World * LoopStatus :=
  if panicked w then (w, Panicked)
  else
    match schedule with
    | [] => (w, Looping)
    | TickerFires env :: rest => startLoop rest (monitorAndAdjust env w)
    | StopCase env :: rest =>
        if stop (rm w) then
          let w := cleanupAllResources env w in
          if cleanupDone (rm w) then (panic w, Panicked)
          else (with_rm (set_cleanupDone true) (record CloseCleanupDone w), Returned)
        else startLoop rest w
    | StopCalled :: rest => startLoop rest (with_rm (set_stop true) w)
    end.

(** [Start]: [time.NewTicker] panics on an interval that is not positive;
    the function has no result but the state it leaves. *)
Definition Start (schedule : list Select) (w : World) : World * LoopStatus :=
  if Interval (Config (rm w)) <=? 0 then (panic w, Panicked)
  else startLoop schedule w.

(** *** Stop *)

(** The three steps of a call of [Stop]: the first [select], [close(rm.stop)],
    the second [select]. *)
Inductive StopPC := AtCheck | AtClose | AtWait | StopReturned | StopPanicked.

(** One step of a caller of [Stop]; [timedOut] tells whether the 60 seconds
    of the second [select] have passed. Closing a closed channel panics. *)
Definition StopStep (timedOut : bool) (pc : StopPC) (m : ResourceMonitor)
  : StopPC * ResourceMonitor :=
  match pc with
  | AtCheck => if stop m then (StopReturned, m) else (AtClose, m)
  | AtClose => if stop m then (StopPanicked, m) else (AtWait, set_stop true m)
  | AtWait => if cleanupDone m || timedOut then (StopReturned, m) else (AtWait, m)
  | StopReturned => (StopReturned, m)
  | StopPanicked => (StopPanicked, m)
  end.

(** Several goroutines in [Stop], stepped in the order of the schedule; an
    entry names the caller that moves and whether its timer has fired. *)
Fixpoint StopConcurrently (schedule : list (nat * bool)) (pcs : list StopPC)
  (m : ResourceMonitor) : list StopPC * ResourceMonitor :=
  match schedule with
  | [] => (pcs, m)
  | (caller, timedOut) :: rest =>
      match pcs !! caller with
      | Some pc =>
          let '(pc', m') := StopStep timedOut pc m in
          StopConcurrently rest (<[caller := pc']> pcs) m'
      | None => StopConcurrently rest pcs m
      end
  end.

(** A call of [Stop] that runs alone up to its second [select]. *)
Definition Stop (m : ResourceMonitor) : StopPC * ResourceMonitor :=
  let '(pc, m) := StopStep false AtCheck m in
  let '(pc, m) := StopStep false pc m in
  StopStep false pc m.

End Occupy.

(** ** The older single-file program *)

Module Legacy.

Record ResourceConfig := mkConfig {
  MemoryPercent : F64;
  CPUPercent : F64;
  DiskPercent : F64;
  Interval : Z
}.

Record ResourceMonitor := mkMonitor {
  config : ResourceConfig;
  stop : bool;
  activeCPULoad : bool;
  allocatedMemory : list Z
}.

Definition NewResourceMonitor (config : ResourceConfig) : ResourceMonitor :=
  {| config := config; stop := false; activeCPULoad := false; allocatedMemory := [] |}.

Definition set_allocatedMemory (mem : list Z) (m : ResourceMonitor) : ResourceMonitor :=
  {| config := config m; stop := stop m; activeCPULoad := activeCPULoad m;
     allocatedMemory := mem |}.

Definition getTotalAllocatedMemory (mem : list Z) : Z :=
  fold_left (fun total mem => u64 (total + mem)) mem 0.

(** One block of the requested size; nothing for a request of zero bytes. *)
Definition allocateMemory (bytes : Z) (m : ResourceMonitor) : ResourceMonitor :=
  if bytes =? 0 then m
  else set_allocatedMemory (allocatedMemory m ++ [bytes]) m.

(** The constants [0.3], [0.5] and [0.7] of the source. *)
Definition releaseRatio (excessPercent : F64) : F64 :=
  if (excessPercent <=? Finite 5)%F then round64 (3 # 10)
  else if (excessPercent <=? Finite 10)%F then round64 (5 # 10)
  else round64 (7 # 10).

Definition blocksToRelease (len : nat) (releaseRatio : F64) : Z :=
  let blocksToRelease := int_of_float (float64 (Z.of_nat len) * releaseRatio)%F in
  if blocksToRelease <? 1 then 1 else blocksToRelease.

(** [for i := 0; i < blocksToRelease && len(rm.allocatedMemory) > 0; i++]:
    [n] iterations are left. *)
Fixpoint releaseLoop (n : nat) (releasedBytes : Z) (mem : list Z) : Z * list Z :=
  match n with
  | O => (releasedBytes, mem)
  | S n' =>
      if (0 <? length mem)%nat then
        let lastIndex := (length mem - 1)%nat in
        match mem !! lastIndex with
        | Some block =>
            releaseLoop n' (u64 (releasedBytes + block)) (take lastIndex mem)
        | None => (releasedBytes, mem) (* not reached: lastIndex < len *)
        end
      else (releasedBytes, mem)
  end.

(** [releasedBytes], the first component of the loop's result, is only
    logged; [memInfo] is not read. *)
Definition releaseMemory (currentPercent : F64) (memInfo : VirtualMemoryStat)
  (m : ResourceMonitor) : ResourceMonitor :=
  match allocatedMemory m with
  | [] => m
  | _ =>
      let excessPercent := (currentPercent - MemoryPercent (config m))%F in
      let releaseRatio := releaseRatio excessPercent in
      let blocksToRelease := blocksToRelease (length (allocatedMemory m)) releaseRatio in
      set_allocatedMemory
        (snd (releaseLoop (Z.to_nat blocksToRelease) 0 (allocatedMemory m))) m
  end.

Definition adjustMemoryUsage (currentPercent : F64) (memInfo : VirtualMemoryStat)
  (m : ResourceMonitor) : ResourceMonitor :=
  if (currentPercent <? MemoryPercent (config m) - Finite 2)%F then
    let targetBytes :=
      uint64_of_float
        ((MemoryPercent (config m) - currentPercent) / Finite 100
         * float64 (mem_Total memInfo))%F in
    allocateMemory targetBytes m
  else if (MemoryPercent (config m) + Finite 2 <? currentPercent)%F then
    releaseMemory currentPercent memInfo m
  else m.

(** *** Disk *)

(** What the operating system answers to [createTempFiles]:
    [time.Now().Unix()] at the file of each index, whether [os.Create]
    fails there, whether [file.Write] fails there at a given offset,
    whether [os.Remove] fails on a name, and, when another goroutine closes
    [stop] meanwhile, how many checks of [stop] still find it open. *)
Record DiskEnv := mkDiskEnv {
  now : Z -> Z;
  createErr : Z -> bool;
  writeErr : Z -> Z -> bool;
  removeErr : string -> bool;
  stopAfter : option nat
}.

(** 5G *)
Definition fileSize : Z := 5 * 1024 * 1024 * 1024.

(** 10MB chunks *)
Definition chunkSize0 : Z := 10 * 1024 * 1024.

(** [fmt.Sprintf("/tmp/occupy_%d_%d.tmp", now, i)] *)
Definition tempFileName (now i : Z) : string :=
  ("/tmp/occupy_" ++ Occupy.decimal now ++ "_" ++ Occupy.decimal i ++ ".tmp")%string.

(** [select { case <-rm.stop: ...; default: }] after [count] earlier checks. *)
Definition stopSeen (env : DiskEnv) (m : ResourceMonitor) (count : nat) : bool :=
  stop m
  || match stopAfter env with
     | Some n => (n <=? count)%nat
     | None => false
     end.

(** [os.Remove], its error ignored. *)
Definition osRemove (env : DiskEnv) (name : string) (fs : list Occupy.File)
  : list Occupy.File :=
  if removeErr env name then fs
  else List.filter (fun f => negb (String.eqb (Occupy.fname f) name)) fs.

(** How a loop ends: [Returned] when the function returns from inside it,
    [LoopDone] when the loop is left; with the directory and the number of
    checks of [stop] made so far. *)
Inductive LoopEnd :=
| Returned (fs : list Occupy.File) (count : nat)
| LoopDone (fs : list Occupy.File) (count : nat).

(** [for written := uint64(0); written < fileSize; written += chunkSize]. *)
Fixpoint writeLoop (env : DiskEnv) (m : ResourceMonitor) (fuel : nat) (i : Z)
  (filename : string) (written chunkSize : Z) (count : nat) (fs : list Occupy.File)
  : LoopEnd :=
  match fuel with
  | O => LoopDone fs count
  | S fuel' =>
      if written <? fileSize then
        if stopSeen env m count then Returned (osRemove env filename fs) (S count)
        else
          let remaining := u64 (fileSize - written) in
          let chunkSize := if remaining <? chunkSize then remaining else chunkSize in
          if writeErr env i written then LoopDone fs (S count)
          else
            let fs := Occupy.osWrite filename (written + chunkSize) fs in
            if stopSeen env m (S count) then
              Returned (osRemove env filename fs) (S (S count))
            else
              writeLoop env m fuel' i filename (u64 (written + chunkSize)) chunkSize
                (S (S count)) fs
      else LoopDone fs count
  end.

Definition writeFuel : nat := S (Z.to_nat (fileSize / chunkSize0)).

(** [for i := 0; i < int(numFiles); i++]: [n] files are left to create. *)
Fixpoint fileLoop (env : DiskEnv) (m : ResourceMonitor) (n : nat) (i : Z) (count : nat)
  (fs : list Occupy.File) : list Occupy.File :=
  match n with
  | O => fs
  | S n' =>
      if stopSeen env m count then fs
      else
        let filename := tempFileName (now env i) i in
        if createErr env i then fileLoop env m n' (i + 1) (S count) fs
        else
          let fs := Occupy.osCreate filename fs in
          match writeLoop env m writeFuel i filename 0 chunkSize0 (S count) fs with
          | Returned fs count => fs
          | LoopDone fs count =>
              if stopSeen env m count then fs
              else fileLoop env m n' (i + 1) (S count) fs
          end
  end.

Definition createTempFiles (env : DiskEnv) (targetBytes : Z) (m : ResourceMonitor)
  (fs : list Occupy.File) : list Occupy.File :=
  let numFiles := u64 (targetBytes / fileSize + 1) in
  fileLoop env m (Z.to_nat numFiles) 0 0 fs.

(** *** The CPU load switch *)

(** The fields that control the CPU load, beside [activeCPULoad]: whether
    [cpuLoadMutex] is held, whether [cpuLoadStop] holds a channel
    ([NewResourceMonitor] leaves it nil), and the number of [cpuWorker]
    goroutines launched and not told to return. *)
Record CPUState := mkCPU {
  monitor : ResourceMonitor;
  cpuLoadMutex : bool;
  cpuLoadStop : bool;
  cpuWorkers : Z
}.

Definition NewCPUState (config : ResourceConfig) : CPUState :=
  {| monitor := NewResourceMonitor config; cpuLoadMutex := false; cpuLoadStop := false;
     cpuWorkers := 0 |}.

Definition set_activeCPULoad (b : bool) (m : ResourceMonitor) : ResourceMonitor :=
  {| config := config m; stop := stop m; activeCPULoad := b;
     allocatedMemory := allocatedMemory m |}.

(** A call returns, or blocks for ever. [cpuLoadMutex] is a [sync.Mutex],
    which is not reentrant, and only the monitor goroutine takes it: a
    [Lock] that finds it held waits for the caller itself. *)
Inductive Outcome :=
  | Returns (c : CPUState)
  | Blocks.

Definition Unlock (c : CPUState) : CPUState :=
  {| monitor := monitor c; cpuLoadMutex := false; cpuLoadStop := cpuLoadStop c;
     cpuWorkers := cpuWorkers c |}.

Definition stopCPULoad (c : CPUState) : Outcome :=
  if cpuLoadMutex c then Blocks
  else if activeCPULoad (monitor c) && cpuLoadStop c then
    (* close(rm.cpuLoadStop): the workers return; a new channel is made *)
    Returns {| monitor := set_activeCPULoad false (monitor c); cpuLoadMutex := false;
               cpuLoadStop := true; cpuWorkers := 0 |}
  else Returns c.

(** Called with the mutex held. *)
Definition startCPULoad (numCPU : Z) (c : CPUState) : CPUState :=
  if activeCPULoad (monitor c) then c
  else
    let targetCores :=
      int_of_float
        (float64 numCPU * CPUPercent (config (monitor c)) / Finite 100)%F in
    let targetCores := if targetCores <? 1 then 1 else targetCores in
    {| monitor := set_activeCPULoad true (monitor c); cpuLoadMutex := cpuLoadMutex c;
       cpuLoadStop := cpuLoadStop c; cpuWorkers := cpuWorkers c + targetCores |}.

Definition adjustCPUUsage (numCPU : Z) (currentPercent : F64) (c : CPUState)
  : Outcome :=
  if cpuLoadMutex c then Blocks
  else
    let c := {| monitor := monitor c; cpuLoadMutex := true; cpuLoadStop := cpuLoadStop c;
                cpuWorkers := cpuWorkers c |} in
    if (currentPercent <? CPUPercent (config (monitor c)) - Finite 5)%F then
      if negb (activeCPULoad (monitor c)) then Returns (Unlock (startCPULoad numCPU c))
      else Returns (Unlock c)
    else if (CPUPercent (config (monitor c)) + Finite 5 <? currentPercent)%F then
      if activeCPULoad (monitor c) then
        match stopCPULoad c with
        | Returns c => Returns (Unlock c)
        | Blocks => Blocks
        end
      else Returns (Unlock c)
    else Returns (Unlock c).

End Legacy.

(** * Vocabulary of the statements *)

Local Open Scope Z_scope.

(** Sum of lengths, without wrap-around. *)
Definition sumZ (l : list Z) : Z := foldr Z.add 0 l.

(** A request of [bytes] bytes cut into pieces of at most [size] bytes: full
    pieces, then the remainder if there is one. *)
Definition piecesOf (size bytes : Z) : list Z :=
  repeat size (Z.to_nat (bytes / size))
  ++ (if bytes mod size =? 0 then [] else [bytes mod size]).

(** The pool holds buffers that are not empty and whose lengths fit a
    [uint64] together: the buffers lie in one address space. *)
Definition poolOK (mem : list Z) : Prop :=
  Forall (fun c => 0 < c) mem /\ sumZ mem < 2 ^ 64.

(** The files the loop of [createTempFiles] writes for the given sizes,
    numbered from [fileIndex]. *)
Fixpoint planFrom (env : Occupy.DiskEnv) (fileIndex : Z) (sizes : list Z)
  : list Occupy.File :=
  match sizes with
  | [] => []
  | size :: rest =>
      Occupy.mkFile (Occupy.tempFileName (Occupy.now env fileIndex) fileIndex) size
      :: planFrom env (fileIndex + 1) rest
  end.

(** Creating and filling each file of a plan, in order. *)
Definition writeAll (plan : list Occupy.File) (fs : list Occupy.File) : list Occupy.File :=
  fold_left
    (fun fs f =>
       Occupy.osWrite (Occupy.fname f) (Occupy.fsize f) (Occupy.osCreate (Occupy.fname f) fs))
    plan fs.

(** No operation on a file fails. *)
Definition diskHealthy (env : Occupy.DiskEnv) : Prop :=
  Occupy.mkdirErr env = false
  /\ (forall i, Occupy.createErr env i = false)
  /\ (forall i, Occupy.writeErr env i = None)
  /\ (forall name, Occupy.removeErr env name = false).

(** The calls of the cleanup pass. *)
Definition isCleanup (c : Occupy.Call) : bool :=
  match c with
  | Occupy.CallStopCPULoad | Occupy.CallCleanupMemory
  | Occupy.CallCleanupAllTempFiles | Occupy.CloseCleanupDone => true
  | _ => false
  end.

(** Concrete inputs of the examples. *)
Definition config0 : Occupy.ResourceConfig :=
  Occupy.mkConfig (Finite 50) (Finite 30) (Finite 40) 5000000000.

(** A temporary directory with a plain path, and one whose name holds a
    metacharacter: as a pattern, [meta[1]] matches the name [meta1] and not
    the name of the directory. *)
Definition dir0 : Occupy.TempDir := Occupy.mkTempDir "/tmp" Occupy.DirFound.

Definition dirMeta : Occupy.TempDir :=
  Occupy.mkTempDir "/tmp/meta[1]" Occupy.DirMissed.

(** [filepath.Glob] finds the entries of the directory: it reads the
    directory, and the path has no metacharacter or matches the directory
    as a pattern. *)
Definition globFinds (dir : Occupy.TempDir) (env : Occupy.DiskEnv) : bool :=
  negb (Occupy.readDirErr env)
  && (negb (Occupy.hasMeta (Occupy.tempPath dir))
      || match Occupy.globDir dir with
         | Occupy.DirFound => true
         | _ => false
         end).

Definition disk0 : Occupy.DiskEnv :=
  Occupy.mkDiskEnv false (fun _ => 1700000000) (fun _ => false) (fun _ => None)
    (fun _ => false) false.

Definition world0 : Occupy.World :=
  Occupy.mkWorld (Occupy.NewResourceMonitor config0) dir0 [] [] false.

(** The same monitor with its files in the directory [meta[1]]. *)
Definition worldMeta : Occupy.World :=
  Occupy.mkWorld (Occupy.NewResourceMonitor config0) dirMeta [] [] false.

Definition GB : Z := 1024 * 1024 * 1024.

(** The monitor is as before, except that [stop] may have been closed. *)
Definition rmQuiet (m m' : Occupy.ResourceMonitor) : Prop :=
  m' = m \/ m' = Occupy.set_stop true m.

(** Nothing was adjusted between [w] and [w']. *)
Definition quiet (w w' : Occupy.World) : Prop :=
  Occupy.files w' = Occupy.files w
  /\ Occupy.calls w' = Occupy.calls w
  /\ rmQuiet (Occupy.rm w) (Occupy.rm w')
  /\ Occupy.tempDir w' = Occupy.tempDir w
  /\ Occupy.panicked w' = Occupy.panicked w.

(** At most the disk was adjusted between [w] and [w']. *)
Definition onlyDisk (w w' : Occupy.World) : Prop :=
  (Occupy.calls w' = Occupy.calls w
   \/ Occupy.calls w' = Occupy.calls w ++ [Occupy.CallAdjustDisk])
  /\ rmQuiet (Occupy.rm w) (Occupy.rm w').

(** The adjustment calls a tick can log. *)
Definition tickCalls (l : list Occupy.Call) : Prop :=
  l = []
  \/ l = [Occupy.CallAdjustDisk]
  \/ l = [Occupy.CallAdjustDisk; Occupy.CallAdjustMemory]
  \/ l = [Occupy.CallAdjustDisk; Occupy.CallAdjustMemory; Occupy.CallAdjustCPU].

Definition tickLog (w w' : Occupy.World) : Prop :=
  exists l, Occupy.calls w' = Occupy.calls w ++ l /\ tickCalls l.

(** The worker count of an idle spinner pool is zero. *)
Definition cpuOK (m : Occupy.ResourceMonitor) : Prop :=
  Occupy.ActiveCPULoad m = false -> Occupy.currentCPUWorkers m = 0.

(** The four steps of the cleanup pass, in the order of the code. *)
Definition cleanupPass : list Occupy.Call :=
  [Occupy.CallStopCPULoad; Occupy.CallCleanupMemory;
   Occupy.CallCleanupAllTempFiles; Occupy.CloseCleanupDone].

(** A tick in which every sample succeeds and nothing closes [stop]: memory
    at 20% of 1000 bytes, CPU at 10%, disk at 20% of 1000 bytes, 4 CPUs. *)
Definition tick0 : Occupy.TickEnv :=
  Occupy.mkTickEnv None (Ok (mkMemInfo 1000 (Finite 20))) (Ok [Finite 10])
    (Ok (mkDiskInfo 1000 (Finite 20))) (Ok (mkMemInfo 1000 (Finite 20))) 4 disk0.

(** A tick whose CPU sample fails. *)
Definition tickCPUErr : Occupy.TickEnv :=
  Occupy.mkTickEnv None (Ok (mkMemInfo 1000 (Finite 20))) Err
    (Ok (mkDiskInfo 1000 (Finite 20))) (Ok (mkMemInfo 1000 (Finite 20))) 4 disk0.

(** A tick whose CPU sample succeeds with an empty slice: [cpu.Percent]
    returns a slice and an error, and the code checks the error only. *)
Definition tickCPUEmpty : Occupy.TickEnv :=
  Occupy.mkTickEnv None (Ok (mkMemInfo 1000 (Finite 20))) (Ok [])
    (Ok (mkDiskInfo 1000 (Finite 20))) (Ok (mkMemInfo 1000 (Finite 20))) 4 disk0.

(** A run of [Start]: one full tick, then a call of [Stop] closes the
    channel, then the [select] takes the [stop] case. *)
Definition schedule0 : list Occupy.Select :=
  [Occupy.TickerFires tick0; Occupy.StopCalled; Occupy.StopCase disk0].

(** The spinner pool is consistent: an active pool counts the workers it
    was asked for, a number other than zero; an idle pool counts
    none. *)
Definition cpuConsistent (m : Occupy.ResourceMonitor) : Prop :=
  if Occupy.ActiveCPULoad m
  then Occupy.currentCPUWorkers m = Occupy.targetCPUWorkers m
       /\ Occupy.targetCPUWorkers m <> 0
  else Occupy.currentCPUWorkers m = 0.

(** The file is none of the padding files. *)
Definition unrelated (f : Occupy.File) : bool :=
  negb (Occupy.globMatch (Occupy.fname f)).

(** What a cleanup leaves of a directory: the unrelated files, and the
    padding files that [os.Remove] refuses to delete. *)
Definition survives (env : Occupy.DiskEnv) (f : Occupy.File) : bool :=
  unrelated f || Occupy.removeErr env (Occupy.fname f).

(** The places a caller of [Stop] can be in without having panicked and
    without being about to close the channel. *)
Definition stopSafe (pc : Occupy.StopPC) : Prop :=
  pc = Occupy.AtCheck \/ pc = Occupy.AtWait \/ pc = Occupy.StopReturned.

(** The world a tick leaves when [stop] is seen closed at its check [k],
    every sample having succeeded: nothing adjusted up to check 3, the disk
    adjusted up to check 6, disk and memory adjusted at check 7. *)
Definition interruptedAt (env : Occupy.TickEnv) (k : nat) (diskInfo : UsageStat)
  (memInfoAfterDisk : VirtualMemoryStat) (w : Occupy.World) : Occupy.World :=
  let afterDisk :=
    Occupy.adjustDiskUsage (Occupy.disk env) (disk_UsedPercent diskInfo) diskInfo w in
  let afterMemory :=
    Occupy.adjustMemoryUsage (mem_UsedPercent memInfoAfterDisk) memInfoAfterDisk
      afterDisk in
  Occupy.with_rm (Occupy.set_stop true)
    (if (k <=? 3)%nat then w else if (k <=? 6)%nat then afterDisk else afterMemory).

(** A disk on which the creation of the second file fails, and one on which
    the write of the second file fails after 10 bytes. *)
Definition diskCreateFails : Occupy.DiskEnv :=
  Occupy.mkDiskEnv false (fun _ => 1700000000) (fun i => i =? 1) (fun _ => None)
    (fun _ => false) false.

Definition diskWriteFails : Occupy.DiskEnv :=
  Occupy.mkDiskEnv false (fun _ => 1700000000) (fun _ => false)
    (fun i => if i =? 1 then Some 10 else None) (fun _ => false) false.

(** The files of full size the older [createTempFiles] writes, [n] of them,
    numbered from [i]. *)
Fixpoint legacyPlan (env : Legacy.DiskEnv) (n : nat) (i : Z) : list Occupy.File :=
  match n with
  | O => []
  | S n' =>
      Occupy.mkFile (Legacy.tempFileName (Legacy.now env i) i) Legacy.fileSize
      :: legacyPlan env n' (i + 1)
  end.

(** Nothing fails and nothing closes [stop]. *)
Definition legacyHealthy (env : Legacy.DiskEnv) (m : Legacy.ResourceMonitor) : Prop :=
  Legacy.stop m = false
  /\ Legacy.stopAfter env = None
  /\ (forall i, Legacy.createErr env i = false)
  /\ (forall i written, Legacy.writeErr env i written = false).

Definition legacyDisk0 : Legacy.DiskEnv :=
  Legacy.mkDiskEnv (fun _ => 1700000000) (fun _ => false) (fun _ _ => false)
    (fun _ => false) None.

Definition legacyMonitor0 : Legacy.ResourceMonitor :=
  Legacy.NewResourceMonitor
    (Legacy.mkConfig (Finite 50) (Finite 30) (Finite 40) 5000000000).

(** The calls that reach the CPU load switch of the older program:
    [adjustCPUUsage] from a tick, [stopCPULoad] from the clean-up. *)
Inductive CPUCall :=
  | CallAdjust (currentPercent : F64)
  | CallStop.

Definition cpuCall (numCPU : Z) (k : CPUCall) (c : Legacy.CPUState) : Legacy.Outcome :=
  match k with
  | CallAdjust currentPercent => Legacy.adjustCPUUsage numCPU currentPercent c
  | CallStop => Legacy.stopCPULoad c
  end.

Fixpoint runCPU (numCPU : Z) (ks : list CPUCall) (c : Legacy.CPUState) : Legacy.Outcome :=
  match ks with
  | [] => Legacy.Returns c
  | k :: ks' =>
      match cpuCall numCPU k c with
      | Legacy.Returns c' => runCPU numCPU ks' c'
      | Legacy.Blocks => Legacy.Blocks
      end
  end.

(** Between calls: the mutex is free and [cpuLoadStop] is still nil. *)
Definition cpuIdle (c : Legacy.CPUState) : Prop :=
  Legacy.cpuLoadMutex c = false /\ Legacy.cpuLoadStop c = false.

(** * Properties *)

(** ** Rounding to binary64 *)

Lemma pow2_pos (e : Z) : (0 < 2 ^ e)%Q.
Proof. apply Qpower_0_lt. reflexivity. Qed.

Lemma pow2_add (a b : Z) : (2 ^ (a + b) == 2 ^ a * 2 ^ b)%Q.
Proof. apply Qpower_plus. discriminate. Qed.

Lemma pow2_le (a b : Z) : a <= b -> (2 ^ a <= 2 ^ b)%Q.
Proof. intros H. apply Qpower_le_compat_l; [exact H|discriminate]. Qed.

Lemma pow2_lt (a b : Z) : a < b -> (2 ^ a < 2 ^ b)%Q.
Proof. intros H. apply Qpower_lt_compat_l; [exact H|reflexivity]. Qed.

Lemma pow2_Z (k : Z) : 0 <= k -> (2 ^ k == inject_Z (2 ^ k))%Q.
Proof. intros H. rewrite Zpower_Qpower by exact H. reflexivity. Qed.

Lemma pow2_frac (a b : Z) :
  0 <= a -> 0 <= b -> (2 ^ (a - b) == 2 ^ a # Z.to_pos (2 ^ b))%Q.
Proof.
  intros Ha Hb. rewrite Qpower_minus by discriminate.
  rewrite (pow2_Z a Ha), (pow2_Z b Hb), Qmake_Qdiv.
  rewrite Z2Pos.id by (apply Z.pow_pos_nonneg; lia). reflexivity.
Qed.

Lemma ilog2_spec (q : Q) :
  (0 < q)%Q -> (2 ^ ilog2 q <= q)%Q /\ (q < 2 ^ (ilog2 q + 1))%Q.
Proof.
  intros Hq. destruct q as [n d]. unfold ilog2. cbn [Qnum Qden].
  assert (Hn : 0 < n) by (unfold Qlt in Hq; simpl in Hq; lia).
  pose proof (Z.log2_spec n Hn) as Hln.
  pose proof (Z.log2_spec (Z.pos d) ltac:(lia)) as Hld.
  pose proof (Z.log2_nonneg n) as Hln0. pose proof (Z.log2_nonneg (Z.pos d)) as Hld0.
  set (ln := Z.log2 n) in *. set (ld := Z.log2 (Z.pos d)) in *.
  assert (Hpn : 0 < 2 ^ ln) by (apply Z.pow_pos_nonneg; lia).
  assert (Hpd : 0 < 2 ^ ld) by (apply Z.pow_pos_nonneg; lia).
  rewrite !Z.pow_succ_r in * by lia.
  assert (Hup : (n # d < 2 ^ (ln - ld + 1))%Q).
  { replace (ln - ld + 1) with ((ln + 1) - ld) by lia.
    rewrite pow2_frac by lia. unfold Qlt. cbn [Qnum Qden].
    rewrite Z2Pos.id by lia. rewrite Z.pow_add_r by lia. nia. }
  assert (Hlow : (2 ^ (ln - ld - 1) <= n # d)%Q).
  { replace (ln - ld - 1) with (ln - (ld + 1)) by lia.
    rewrite pow2_frac by lia. unfold Qle. cbn [Qnum Qden].
    rewrite Z2Pos.id by (apply Z.pow_pos_nonneg; lia). rewrite Z.pow_add_r by lia. nia. }
  destruct (Qle_bool (2 ^ (ln - ld)) (n # d)) eqn:E.
  - apply Qle_bool_iff in E. split; assumption.
  - assert (Hlt : (n # d < 2 ^ (ln - ld))%Q).
    { apply Qnot_le_lt. intros H. apply Qle_bool_iff in H. congruence. }
    split; [exact Hlow|]. replace (ln - ld - 1 + 1) with (ln - ld) by lia. exact Hlt.
Qed.

Lemma ilog2_unique (q : Q) (k : Z) :
  (2 ^ k <= q)%Q -> (q < 2 ^ (k + 1))%Q -> ilog2 q = k.
Proof.
  intros H1 H2.
  assert (Hq : (0 < q)%Q) by (eapply Qlt_le_trans; [apply (pow2_pos k)|exact H1]).
  destruct (ilog2_spec q Hq) as [H3 H4].
  destruct (Z.lt_trichotomy (ilog2 q) k) as [H|[H|H]]; [|exact H|].
  - exfalso. assert (Hle : (2 ^ (ilog2 q + 1) <= 2 ^ k)%Q) by (apply pow2_le; lia).
    apply (Qlt_irrefl q). eapply Qlt_le_trans; [exact H4|].
    eapply Qle_trans; [exact Hle|exact H1].
  - exfalso. assert (Hle : (2 ^ (k + 1) <= 2 ^ ilog2 q)%Q) by (apply pow2_le; lia).
    apply (Qlt_irrefl q). eapply Qlt_le_trans; [exact H2|].
    eapply Qle_trans; [exact Hle|exact H3].
Qed.

Lemma ilog2_mono (q1 q2 : Q) : (0 < q1)%Q -> (q1 <= q2)%Q -> ilog2 q1 <= ilog2 q2.
Proof.
  intros H1 H12.
  assert (H2 : (0 < q2)%Q) by (eapply Qlt_le_trans; eassumption).
  destruct (ilog2_spec q1 H1) as [Ha _]. destruct (ilog2_spec q2 H2) as [_ Hb].
  destruct (Z.le_gt_cases (ilog2 q1) (ilog2 q2)) as [H|H]; [exact H|exfalso].
  assert (Hle : (2 ^ (ilog2 q2 + 1) <= 2 ^ ilog2 q1)%Q) by (apply pow2_le; lia).
  apply (Qlt_irrefl q2). eapply Qlt_le_trans; [exact Hb|].
  eapply Qle_trans; [exact Hle|]. eapply Qle_trans; [exact Ha|exact H12].
Qed.

(** *** Rounding to the nearest integer *)

Lemma rne_cases (q : Q) : rne q = Qfloor q \/ rne q = Qfloor q + 1.
Proof.
  unfold rne. destruct (_ ?= _)%Q; [destruct (Z.even _)| |]; auto.
Qed.

Lemma rne_Z (z : Z) : rne (inject_Z z) = z.
Proof.
  unfold rne. rewrite Qfloor_Z.
  assert (H : (inject_Z z - inject_Z z ?= 1 # 2)%Q = Lt).
  { apply Qlt_alt. setoid_replace (inject_Z z - inject_Z z)%Q with 0%Q using relation Qeq by ring. reflexivity. }
  rewrite H. reflexivity.
Qed.

Ltac cmpQ :=
  repeat match goal with
         | H : (_ ?= _)%Q = Eq |- _ => apply Qeq_alt in H
         | H : (_ ?= _)%Q = Lt |- _ => apply Qlt_alt in H
         | H : (_ ?= _)%Q = Gt |- _ => apply Qgt_alt in H
         end.

Lemma rne_mono (q1 q2 : Q) : (q1 <= q2)%Q -> rne q1 <= rne q2.
Proof.
  intros H. pose proof (Qfloor_resp_le q1 q2 H) as Hf.
  destruct (Z.eq_dec (Qfloor q1) (Qfloor q2)) as [E|E].
  - unfold rne. rewrite <- E.
    destruct (q1 - inject_Z (Qfloor q1) ?= 1 # 2)%Q eqn:E1;
      destruct (q2 - inject_Z (Qfloor q1) ?= 1 # 2)%Q eqn:E2;
      try destruct (Z.even (Qfloor q1)); try lia; exfalso; cmpQ; lra.
  - destruct (rne_cases q1) as [-> | ->], (rne_cases q2) as [-> | ->]; lia.
Qed.

Lemma rne_bounds (q : Q) :
  (q - (1 # 2) <= inject_Z (rne q))%Q /\ (inject_Z (rne q) <= q + (1 # 2))%Q.
Proof.
  unfold rne. pose proof (Qfloor_le q) as Hf. pose proof (Qlt_floor q) as Hlt.
  rewrite inject_Z_plus in Hlt. change (inject_Z 1) with 1%Q in Hlt.
  destruct (q - inject_Z (Qfloor q) ?= 1 # 2)%Q eqn:E; cmpQ;
    try destruct (Z.even (Qfloor q)); rewrite ?inject_Z_plus;
    change (inject_Z 1) with 1%Q; split; lra.
Qed.

Lemma qltb_lt (x y : Q) : qltb x y = true <-> (x < y)%Q.
Proof. unfold qltb, Qlt. apply Z.ltb_lt. Qed.

Lemma qleb_le (x y : Q) : qleb x y = true <-> (x <= y)%Q.
Proof. unfold qleb, Qle. apply Z.leb_le. Qed.

Lemma qltb_ge (x y : Q) : qltb x y = false <-> (y <= x)%Q.
Proof. unfold qltb, Qle. apply Z.ltb_ge. Qed.

Lemma scaled_lt (q : Q) : (0 < q)%Q -> (q * 2 ^ (- fexp q) < 2 ^ 53)%Q.
Proof.
  intros Hq. destruct (ilog2_spec q Hq) as [_ H].
  assert (Hle : (2 ^ (ilog2 q + 1) <= 2 ^ (53 + fexp q))%Q)
    by (apply pow2_le; unfold fexp; lia).
  pose proof (pow2_pos (- fexp q)) as Hs.
  assert (E : (2 ^ 53 == 2 ^ (53 + fexp q) * 2 ^ (- fexp q))%Q).
  { rewrite <- pow2_add. replace (53 + fexp q + - fexp q) with 53 by lia. reflexivity. }
  rewrite E. apply Qmult_lt_compat_r; [exact Hs|].
  eapply Qlt_le_trans; eassumption.
Qed.

Lemma scaled_ge (q : Q) :
  (0 < q)%Q -> -1074 < fexp q -> (2 ^ 52 <= q * 2 ^ (- fexp q))%Q.
Proof.
  intros Hq He. destruct (ilog2_spec q Hq) as [H _].
  assert (Hfe : fexp q = ilog2 q - 52) by (unfold fexp in *; lia).
  pose proof (pow2_pos (- fexp q)) as Hs.
  assert (E : (2 ^ 52 == 2 ^ ilog2 q * 2 ^ (- fexp q))%Q).
  { rewrite <- pow2_add. replace (ilog2 q + - fexp q) with 52 by lia. reflexivity. }
  rewrite E. apply Qmult_le_compat_r; [exact H|apply Qlt_le_weak; exact Hs].
Qed.

Lemma inject_Z_le (a b : Z) : a <= b -> (inject_Z a <= inject_Z b)%Q.
Proof. intros H. rewrite <- Zle_Qle. exact H. Qed.

Lemma roundVal_mono (q1 q2 : Q) :
  (0 < q1)%Q -> (q1 <= q2)%Q -> (roundVal q1 <= roundVal q2)%Q.
Proof.
  intros H1 H12.
  assert (H2 : (0 < q2)%Q) by (eapply Qlt_le_trans; eassumption).
  pose proof (ilog2_mono q1 q2 H1 H12) as Hil.
  assert (He : fexp q1 <= fexp q2) by (unfold fexp; lia).
  unfold roundVal.
  destruct (Z.eq_dec (fexp q1) (fexp q2)) as [E|E].
  - rewrite E. apply Qmult_le_compat_r; [|apply Qlt_le_weak, pow2_pos].
    apply inject_Z_le, rne_mono.
    apply Qmult_le_compat_r; [exact H12|apply Qlt_le_weak, pow2_pos].
  - assert (Hm1 : rne (q1 * 2 ^ (- fexp q1)) <= 2 ^ 53).
    { rewrite <- (rne_Z (2 ^ 53)). apply rne_mono.
      rewrite <- (pow2_Z 53) by lia. apply Qlt_le_weak, scaled_lt. exact H1. }
    assert (Hm2 : 2 ^ 52 <= rne (q2 * 2 ^ (- fexp q2))).
    { rewrite <- (rne_Z (2 ^ 52)). apply rne_mono.
      rewrite <- (pow2_Z 52) by lia. apply scaled_ge; [exact H2|unfold fexp in *; lia]. }
    apply Qle_trans with (2 ^ (53 + fexp q1))%Q.
    + rewrite pow2_add. apply Qmult_le_compat_r; [|apply Qlt_le_weak, pow2_pos].
      rewrite (pow2_Z 53) by lia. apply inject_Z_le. exact Hm1.
    + apply Qle_trans with (2 ^ (52 + fexp q2))%Q; [apply pow2_le; lia|].
      rewrite pow2_add. apply Qmult_le_compat_r; [|apply Qlt_le_weak, pow2_pos].
      rewrite (pow2_Z 52) by lia. apply inject_Z_le. exact Hm2.
Qed.

Lemma roundVal_nonneg (q : Q) : (0 <= q)%Q -> (0 <= roundVal q)%Q.
Proof.
  intros H. unfold roundVal. apply Qmult_le_0_compat; [|apply Qlt_le_weak, pow2_pos].
  change 0%Q with (inject_Z 0). apply inject_Z_le.
  rewrite <- (rne_Z 0). apply rne_mono. change (inject_Z 0) with 0%Q.
  apply Qmult_le_0_compat; [exact H|apply Qlt_le_weak, pow2_pos].
Qed.

Lemma fleb_refl_finite (q : Q) : fleb (Finite q) (Finite q) = true.
Proof. apply qleb_le, Qle_refl. Qed.

Lemma fleb_trans (x y z : F64) : fleb x y = true -> fleb y z = true -> fleb x z = true.
Proof.
  destruct x, y, z; simpl; try discriminate; try reflexivity.
  rewrite !qleb_le. apply Qle_trans.
Qed.

Lemma fneg_antitone (x y : F64) : fleb x y = true -> fleb (fneg y) (fneg x) = true.
Proof.
  destruct x, y; simpl; try discriminate; try reflexivity.
  rewrite !qleb_le. apply Qopp_le_compat.
Qed.

(** A value below is never above. *)
Lemma fleb_fltb (a b h : F64) :
  fleb a b = true -> fltb b h = true -> fltb h a = false.
Proof.
  destruct a, b, h; simpl; try discriminate; try reflexivity.
  rewrite qleb_le, qltb_lt, qltb_ge. intros H1 H2.
  apply Qlt_le_weak. eapply Qle_lt_trans; eassumption.
Qed.

Lemma roundPos_mono (q1 q2 : Q) :
  (0 < q1)%Q -> (q1 <= q2)%Q -> fleb (roundPos q1) (roundPos q2) = true.
Proof.
  intros H1 H12. pose proof (roundVal_mono q1 q2 H1 H12) as Hv. unfold roundPos.
  destruct (Qle_bool (2 ^ 1024) (roundVal q1)) eqn:E1.
  - apply Qle_bool_iff in E1.
    assert (E2 : Qle_bool (2 ^ 1024) (roundVal q2) = true)
      by (apply Qle_bool_iff; eapply Qle_trans; eassumption).
    rewrite E2. reflexivity.
  - destruct (Qle_bool (2 ^ 1024) (roundVal q2)); [reflexivity|].
    cbn [fleb]. apply qleb_le.
    pose proof (Qred_correct (roundVal q1)). pose proof (Qred_correct (roundVal q2)). lra.
Qed.

Lemma roundPos_nonneg (q : Q) : (0 <= q)%Q -> fleb (Finite 0) (roundPos q) = true.
Proof.
  intros H. unfold roundPos. destruct (Qle_bool _ _); [reflexivity|].
  cbn [fleb]. apply qleb_le. pose proof (Qred_correct (roundVal q)).
  pose proof (roundVal_nonneg q H). lra.
Qed.

Lemma round64_mono (q1 q2 : Q) :
  (q1 <= q2)%Q -> fleb (round64 q1) (round64 q2) = true.
Proof.
  intros H. unfold round64.
  destruct (q1 ?= 0)%Q eqn:E1; destruct (q2 ?= 0)%Q eqn:E2; cmpQ.
  - reflexivity.
  - exfalso. lra.
  - apply roundPos_nonneg. lra.
  - apply (fneg_antitone (Finite 0)). apply roundPos_nonneg. lra.
  - apply fneg_antitone. apply roundPos_mono; lra.
  - apply fleb_trans with (Finite 0).
    + apply (fneg_antitone (Finite 0)). apply roundPos_nonneg. lra.
    + apply roundPos_nonneg. lra.
  - exfalso. lra.
  - exfalso. lra.
  - apply roundPos_mono; lra.
Qed.

Lemma rne_comp (q q' : Q) : q == q' -> rne q = rne q'.
Proof.
  intros E. unfold rne.
  assert (Hf : Qfloor q = Qfloor q') by (apply Qfloor_comp; exact E).
  assert (Hc : (q - inject_Z (Qfloor q) ?= 1 # 2)%Q
               = (q' - inject_Z (Qfloor q') ?= 1 # 2)%Q).
  { apply Qcompare_comp; [|reflexivity]. rewrite Hf, E. reflexivity. }
  rewrite Hc, Hf. reflexivity.
Qed.

Lemma pow2_cancel (e : Z) : (2 ^ (- e) * 2 ^ e == 1)%Q.
Proof. rewrite <- pow2_add. replace (- e + e) with 0 by lia. reflexivity. Qed.

Lemma ilog2_lt (q : Q) (k : Z) : (0 < q)%Q -> (q < 2 ^ k)%Q -> ilog2 q < k.
Proof.
  intros Hq H. destruct (ilog2_spec q Hq) as [Hl _].
  destruct (Z.lt_ge_cases (ilog2 q) k) as [Hk|Hk]; [exact Hk|exfalso].
  pose proof (pow2_le k (ilog2 q) Hk). lra.
Qed.

Lemma ilog2_ge (q : Q) (k : Z) : (2 ^ k <= q)%Q -> k <= ilog2 q.
Proof.
  intros H. pose proof (pow2_pos k) as Hp.
  assert (Hq : (0 < q)%Q) by lra.
  destruct (ilog2_spec q Hq) as [_ Hu].
  destruct (Z.le_gt_cases k (ilog2 q)) as [Hk|Hk]; [exact Hk|exfalso].
  pose proof (pow2_le (ilog2 q + 1) k ltac:(lia)). lra.
Qed.

(** Integers below 2^53 are floats. *)
Lemma round64_int (z : Z) :
  0 <= z < 2 ^ 53 ->
  exists v : Q, round64 (inject_Z z) = Finite v /\ v == inject_Z z.
Proof.
  intros Hz. destruct (Z.eq_dec z 0) as [->|Hne].
  - exists 0%Q. split; reflexivity.
  - assert (Hpos : (0 < inject_Z z)%Q).
    { change 0%Q with (inject_Z 0). rewrite <- Zlt_Qlt. lia. }
    unfold round64. assert (Hc : (inject_Z z ?= 0)%Q = Gt) by (apply Qgt_alt; exact Hpos).
    rewrite Hc. unfold roundPos.
    assert (Hu : ilog2 (inject_Z z) < 53).
    { apply ilog2_lt; [exact Hpos|]. rewrite (pow2_Z 53) by lia.
      rewrite <- Zlt_Qlt. lia. }
    assert (Hl : 0 <= ilog2 (inject_Z z)).
    { apply ilog2_ge. change (2 ^ 0)%Q with (inject_Z 1). rewrite <- Zle_Qle. lia. }
    assert (He : fexp (inject_Z z) = ilog2 (inject_Z z) - 52) by (unfold fexp; lia).
    set (k := 52 - ilog2 (inject_Z z)).
    assert (Hk : - fexp (inject_Z z) = k) by (unfold k; lia).
    assert (Hv : roundVal (inject_Z z) == inject_Z z).
    { unfold roundVal. rewrite Hk.
      rewrite (rne_comp _ (inject_Z (z * 2 ^ k))).
      2:{ rewrite inject_Z_mult, (pow2_Z k) by (unfold k; lia). reflexivity. }
      rewrite rne_Z, inject_Z_mult, <- (pow2_Z k) by (unfold k; lia).
      rewrite <- Qmult_assoc. replace (fexp (inject_Z z)) with (- - fexp (inject_Z z)) by lia.
      rewrite Hk. replace k with (- - k) at 1 by lia. rewrite pow2_cancel. ring. }
    assert (Hb : Qle_bool (2 ^ 1024) (roundVal (inject_Z z)) = false).
    { apply Bool.not_true_is_false. intros H. apply Qle_bool_iff in H.
      rewrite Hv in H. assert (Hlt : (inject_Z z < 2 ^ 53)%Q).
      { rewrite (pow2_Z 53) by lia. rewrite <- Zlt_Qlt. lia. }
      pose proof (pow2_le 53 1024 ltac:(lia)). lra. }
    rewrite Hb. eexists. split; [reflexivity|]. rewrite Qred_correct. exact Hv.
Qed.

(** Below 2^49 the floats are less than a tenth apart: rounding does not
    reach the next integer from nine tenths below it. *)
Lemma round64_below (q : Q) (K : Z) :
  0 <= K -> K + 1 <= 2 ^ 49 -> (0 <= q)%Q -> (q <= inject_Z K + (9 # 10))%Q ->
  exists v : Q, round64 q = Finite v /\ (0 <= v)%Q /\ (v < inject_Z (K + 1))%Q.
Proof.
  intros HK HK1 Hq0 Hq. rewrite inject_Z_plus. change (inject_Z 1) with 1%Q.
  assert (HKq : (0 <= inject_Z K)%Q) by (change 0%Q with (inject_Z 0); rewrite <- Zle_Qle; lia).
  unfold round64. destruct (q ?= 0)%Q eqn:Hc; cmpQ.
  - exists 0%Q. repeat split; [apply Qle_refl|lra].
  - exfalso. lra.
  - unfold roundPos.
    assert (Hlt49 : (q < 2 ^ 49)%Q).
    { rewrite (pow2_Z 49) by lia.
      assert (H : (inject_Z (K + 1) <= inject_Z (2 ^ 49))%Q) by (rewrite <- Zle_Qle; lia).
      rewrite inject_Z_plus in H. change (inject_Z 1) with 1%Q in H. lra. }
    pose proof (ilog2_lt q 49 Hc Hlt49) as Hil.
    assert (He : fexp q <= -4) by (unfold fexp; lia).
    pose proof (pow2_le 4 (- fexp q) ltac:(lia)) as Hs. change (2 ^ 4)%Q with 16%Q in Hs.
    pose proof (pow2_pos (fexp q)) as Hpe.
    destruct (rne_bounds (q * 2 ^ (- fexp q))) as [_ Hr].
    pose proof (roundVal_nonneg q Hq0) as Hv0.
    assert (Hvlt : (roundVal q < inject_Z K + 1)%Q).
    { unfold roundVal.
      assert (Hm : (inject_Z (rne (q * 2 ^ (- fexp q)))
                    < (inject_Z K + 1) * 2 ^ (- fexp q))%Q).
      { assert (Hy : (q * 2 ^ (- fexp q)
                      <= (inject_Z K + (9 # 10)) * 2 ^ (- fexp q))%Q)
          by (apply Qmult_le_compat_r; [exact Hq|lra]).
        set (s := (2 ^ (- fexp q))%Q) in *. set (Ks := (inject_Z K * s)%Q).
        assert (E1 : ((inject_Z K + (9 # 10)) * s == Ks + (9 # 10) * s)%Q)
          by (unfold Ks; ring).
        assert (E2 : ((inject_Z K + 1) * s == Ks + s)%Q) by (unfold Ks; ring).
        lra. }
      apply (Qmult_lt_compat_r _ _ (2 ^ fexp q)) in Hm; [|exact Hpe].
      rewrite <- Qmult_assoc, pow2_cancel, Qmult_1_r in Hm. exact Hm. }
    assert (Hb : Qle_bool (2 ^ 1024) (roundVal q) = false).
    { apply Bool.not_true_is_false. intros H. apply Qle_bool_iff in H.
      pose proof (pow2_le 49 1024 ltac:(lia)).
      assert (H49 : (inject_Z (K + 1) <= inject_Z (2 ^ 49))%Q) by (rewrite <- Zle_Qle; lia).
      rewrite inject_Z_plus, <- (pow2_Z 49) in H49 by lia.
      change (inject_Z 1) with 1%Q in H49. lra. }
    rewrite Hb. eexists. split; [reflexivity|].
    pose proof (Qred_correct (roundVal q)). split; lra.
Qed.

Lemma trunc_floor (q : Q) : (0 <= q)%Q -> trunc q = Qfloor q.
Proof.
  intros H. destruct q as [n d]. unfold trunc, Qfloor. cbn [Qnum Qden].
  apply Z.quot_div_nonneg; [|lia]. unfold Qle in H. simpl in H. lia.
Qed.

Lemma trunc_range (q : Q) (a b : Z) :
  0 <= a -> (inject_Z a <= q)%Q -> (q < inject_Z b)%Q -> a <= trunc q < b.
Proof.
  intros Ha H1 H2.
  assert (H0 : (0 <= q)%Q).
  { assert ((inject_Z 0 <= inject_Z a)%Q) by (rewrite <- Zle_Qle; lia).
    change (inject_Z 0) with 0%Q in *. lra. }
  rewrite trunc_floor by exact H0. split.
  - rewrite <- (Qfloor_Z a). apply Qfloor_resp_le. exact H1.
  - pose proof (Qfloor_le q). rewrite Zlt_Qlt. lra.
Qed.

(** ** Arithmetic of the embedding *)

Lemma u64_small (x : Z) : 0 <= x < 2 ^ 64 -> u64 x = x.
Proof. intros H. unfold u64. apply Z.mod_small. exact H. Qed.

Lemma u64_range (x : Z) : 0 <= u64 x < 2 ^ 64.
Proof. unfold u64. apply Z.mod_pos_bound. lia. Qed.

Lemma uint64_of_float_range (x : F64) : 0 <= uint64_of_float x < 2 ^ 64.
Proof.
  destruct x as [q| | |]; cbn [uint64_of_float]; try lia.
  destruct (Z.leb_spec 0 (trunc q)), (Z.ltb_spec (trunc q) (2 ^ 64));
    cbn [andb]; try lia;
    destruct (Z.leb_spec (- 2 ^ 63) (trunc q)), (Z.ltb_spec (trunc q) 0);
    cbn [andb]; lia.
Qed.

(** A float of at least one that fits a [uint64] converts to at least one. *)
Lemma uint64_of_float_pos (x : F64) :
  (Finite 1 <=? x)%F = true -> (x <? Finite (inject_Z (2 ^ 64)))%F = true ->
  1 <= uint64_of_float x.
Proof.
  destruct x as [q| | |]; cbn [fleb fltb]; try discriminate.
  intros H1 H2. apply qleb_le in H1. apply qltb_lt in H2.
  destruct (trunc_range q 1 (2 ^ 64) ltac:(lia) H1 H2) as [Ha Hb].
  cbn [uint64_of_float].
  destruct (Z.leb_spec 0 (trunc q)), (Z.ltb_spec (trunc q) (2 ^ 64));
    cbn [andb]; lia.
Qed.

(** The two sides of a band do not cross: a measure above [T + d] is not
    below [T - d]. *)
Lemma fltb_band (T h : F64) (d : Q) :
  (0 <= d)%Q -> (T + Finite d <? h)%F = true -> (h <? T - Finite d)%F = false.
Proof.
  intros Hd H. destruct T as [q| | |].
  - apply (fleb_fltb _ (Finite q + Finite d)%F); [|exact H].
    unfold fsub. cbn [fneg fadd]. apply round64_mono. lra.
  - destruct h; discriminate H.
  - destruct h; reflexivity.
  - destruct h; discriminate H.
Qed.

Lemma sumZ_cons (a : Z) (l : list Z) : sumZ (a :: l) = a + sumZ l.
Proof. reflexivity. Qed.

Lemma sumZ_app (l1 l2 : list Z) : sumZ (l1 ++ l2) = sumZ l1 + sumZ l2.
Proof.
  induction l1 as [|a l1 IH]; [reflexivity|].
  rewrite <- app_comm_cons, !sumZ_cons, IH. lia.
Qed.

Lemma sumZ_nonneg (l : list Z) : Forall (fun c => 0 < c) l -> 0 <= sumZ l.
Proof. induction 1 as [|a l Ha _ IH]; [reflexivity|]. rewrite sumZ_cons. lia. Qed.

Lemma sumZ_repeat (c : Z) (n : nat) : sumZ (repeat c n) = Z.of_nat n * c.
Proof.
  induction n as [|n IH]; [reflexivity|].
  change (repeat c (S n)) with (c :: repeat c n). rewrite sumZ_cons, IH. lia.
Qed.

Lemma fold_total_sum (l : list Z) (a : Z) :
  Forall (fun c => 0 < c) l -> 0 <= a -> a + sumZ l < 2 ^ 64 ->
  fold_left (fun total memory => u64 (total + memory)) l a = a + sumZ l.
Proof.
  revert a. induction l as [|c l IH]; intros a Hl Ha Hb.
  - change (sumZ []) with 0. simpl. lia.
  - inversion Hl as [|? ? Hc Hl']; subst.
    pose proof (sumZ_nonneg l Hl') as Hs. rewrite sumZ_cons in *.
    simpl. rewrite u64_small by lia. rewrite IH by (try assumption; lia). lia.
Qed.

Lemma getTotal_sum (l : list Z) :
  poolOK l -> Occupy.getTotalAllocatedMemory l = sumZ l.
Proof.
  intros [Hl Hb]. unfold Occupy.getTotalAllocatedMemory.
  rewrite fold_total_sum by (try assumption; lia). lia.
Qed.

(** ** Cutting a request into pieces *)

Section Pieces.

Variable size : Z.
Hypothesis size_pos : 0 < size.

Lemma piecesOf_zero : piecesOf size 0 = [].
Proof. unfold piecesOf. rewrite Z.div_0_l, Z.mod_0_l by lia. reflexivity. Qed.

Lemma piecesOf_small (r : Z) : 0 < r < size -> piecesOf size r = [r].
Proof.
  intros H. unfold piecesOf.
  rewrite Z.div_small by lia. rewrite Z.mod_small by lia.
  destruct (Z.eqb_spec r 0); [lia|]. reflexivity.
Qed.

Lemma piecesOf_step (r : Z) :
  size <= r -> piecesOf size r = size :: piecesOf size (r - size).
Proof.
  intros H. unfold piecesOf.
  replace (r - size) with (r + (-1) * size) by lia.
  rewrite Z.div_add by lia. rewrite Z.mod_add by lia.
  assert (1 <= r / size) by (apply Z.div_le_lower_bound; lia).
  replace (Z.to_nat (r / size)) with (S (Z.to_nat (r / size + -1))) by lia.
  reflexivity.
Qed.

Lemma div_step (r : Z) : size <= r -> (r - size) / size = r / size - 1.
Proof.
  intros H. replace (r - size) with (r + (-1) * size) by lia.
  rewrite Z.div_add by lia. lia.
Qed.

Lemma piecesOf_sum (bytes : Z) : 0 <= bytes -> sumZ (piecesOf size bytes) = bytes.
Proof.
  intros H. unfold piecesOf. rewrite sumZ_app, sumZ_repeat.
  pose proof (Z.div_mod bytes size ltac:(lia)) as Hdm.
  assert (0 <= bytes / size) by (apply Z.div_pos; lia).
  rewrite Z2Nat.id by lia.
  destruct (Z.eqb_spec (bytes mod size) 0) as [E|E].
  - change (sumZ []) with 0. lia.
  - rewrite sumZ_cons. change (sumZ []) with 0. lia.
Qed.

Lemma piecesOf_sizes (bytes : Z) :
  0 <= bytes -> Forall (fun c => 0 < c <= size) (piecesOf size bytes).
Proof.
  intros H. unfold piecesOf. apply Forall_app. split.
  - apply Forall_forall. intros x Hx. apply list_elem_of_In, repeat_spec in Hx. lia.
  - pose proof (Z.mod_pos_bound bytes size ltac:(lia)).
    destruct (Z.eqb_spec (bytes mod size) 0); [constructor|].
    repeat constructor; lia.
Qed.

Lemma piecesOf_shape (bytes : Z) :
  0 <= bytes ->
  exists (n : nat) (last : list Z),
    piecesOf size bytes = repeat size n ++ last
    /\ (last = [] \/ exists c, last = [c] /\ 0 < c < size).
Proof.
  intros H. exists (Z.to_nat (bytes / size)).
  exists (if bytes mod size =? 0 then [] else [bytes mod size]).
  split; [reflexivity|].
  pose proof (Z.mod_pos_bound bytes size ltac:(lia)).
  destruct (Z.eqb_spec (bytes mod size) 0); [left; reflexivity|].
  right. eexists. split; [reflexivity|lia].
Qed.

End Pieces.

(** ** Memory grow ([allocateMemory]) *)

Lemma chunkSize_pos : 0 < Occupy.chunkSize < 2 ^ 64.
Proof. unfold Occupy.chunkSize. lia. Qed.

Lemma allocateLoop_done (fuel : nat) (mem : list Z) :
  Occupy.allocateLoop fuel 0 mem = (0, mem).
Proof. destruct fuel; reflexivity. Qed.

Lemma allocateLoop_spec (fuel : nat) :
  forall (r : Z) (mem : list Z),
    0 <= r < 2 ^ 64 ->
    (Z.to_nat (r / Occupy.chunkSize) < fuel)%nat ->
    Occupy.allocateLoop fuel r mem = (0, mem ++ piecesOf Occupy.chunkSize r).
Proof.
  pose proof chunkSize_pos as Hc.
  induction fuel as [|fuel IH]; intros r mem Hr Hf; [lia|].
  simpl. destruct (Z.ltb_spec 0 r) as [Hpos|Hz].
  - destruct (Z.ltb_spec r Occupy.chunkSize) as [Hlt|Hge].
    + rewrite Z.sub_diag. change (u64 0) with 0.
      rewrite allocateLoop_done, piecesOf_small by lia. reflexivity.
    + rewrite u64_small by lia.
      assert (1 <= r / Occupy.chunkSize) by (apply Z.div_le_lower_bound; lia).
      rewrite IH.
      * rewrite (piecesOf_step Occupy.chunkSize ltac:(lia) r) by lia.
        rewrite <- app_assoc. reflexivity.
      * lia.
      * rewrite div_step by lia. lia.
  - assert (r = 0) by lia. subst r.
    rewrite piecesOf_zero by lia. rewrite app_nil_r. reflexivity.
Qed.

Lemma allocateMemory_zero (m : Occupy.ResourceMonitor) : Occupy.allocateMemory 0 m = m.
Proof. destruct m. reflexivity. Qed.

(** C8: for every requested byte count [bytes] (a [uint64]), the loop of
    [allocateMemory] runs to its end and appends chunks of exactly 100MB
    except that the last one may be smaller; the appended lengths sum to
    [bytes], so the allocated total grows by exactly [bytes]; a request of
    zero bytes changes nothing. *)
Theorem C8_allocateMemory_chunks (bytes : Z) (m : Occupy.ResourceMonitor) :
  0 <= bytes < 2 ^ 64 ->
  let mem := Occupy.AllocatedMemory m in
  let mem' := Occupy.AllocatedMemory (Occupy.allocateMemory bytes m) in
  fst (Occupy.allocateLoop (Occupy.allocateFuel bytes) bytes mem) = 0
  /\ (exists (n : nat) (last : list Z),
        mem' = mem ++ repeat Occupy.chunkSize n ++ last
        /\ (last = [] \/ exists c, last = [c] /\ 0 < c < Occupy.chunkSize)
        /\ sumZ (repeat Occupy.chunkSize n ++ last) = bytes)
  /\ (poolOK mem -> sumZ mem + bytes < 2 ^ 64 ->
      poolOK mem'
      /\ Occupy.getTotalAllocatedMemory mem'
         = Occupy.getTotalAllocatedMemory mem + bytes)
  /\ Occupy.allocateMemory 0 m = m.
Proof.
  intros Hb mem mem'. pose proof chunkSize_pos as Hc.
  assert (Hloop : Occupy.allocateLoop (Occupy.allocateFuel bytes) bytes mem
                  = (0, mem ++ piecesOf Occupy.chunkSize bytes)).
  { apply allocateLoop_spec; [exact Hb|]. unfold Occupy.allocateFuel. lia. }
  assert (Hmem' : mem' = mem ++ piecesOf Occupy.chunkSize bytes).
  { change mem' with (snd (Occupy.allocateLoop (Occupy.allocateFuel bytes) bytes mem)).
    rewrite Hloop. reflexivity. }
  split; [rewrite Hloop; reflexivity|].
  split.
  { destruct (piecesOf_shape Occupy.chunkSize ltac:(lia) bytes ltac:(lia))
      as (n & last & Hshape & Hlast).
    exists n, last. rewrite Hmem', Hshape. repeat split; try assumption.
    rewrite <- Hshape. apply piecesOf_sum; lia. }
  split; [|apply allocateMemory_zero].
  intros [Hpos Hlt] Hsum.
  assert (Hpos' : Forall (fun c => 0 < c) (mem ++ piecesOf Occupy.chunkSize bytes)).
  { apply Forall_app. split; [exact Hpos|].
    eapply Forall_impl; [apply piecesOf_sizes; lia|]. simpl. intros; lia. }
  pose proof (sumZ_nonneg _ Hpos) as Hn.
  assert (Hs' : sumZ (mem ++ piecesOf Occupy.chunkSize bytes) = sumZ mem + bytes).
  { rewrite sumZ_app, piecesOf_sum by lia. reflexivity. }
  assert (Hok' : poolOK (mem ++ piecesOf Occupy.chunkSize bytes))
    by (split; [assumption|lia]).
  rewrite Hmem'. split; [exact Hok'|].
  rewrite !getTotal_sum; [exact Hs'|split; assumption|exact Hok'].
Qed.

Lemma C8_allocateMemory_chunks_witness :
  0 <= 250 * 1024 * 1024 < 2 ^ 64
  /\ fst (Occupy.allocateLoop (Occupy.allocateFuel (250 * 1024 * 1024))
            (250 * 1024 * 1024)
            (Occupy.AllocatedMemory (Occupy.NewResourceMonitor config0))) = 0.
Proof.
  split; [lia|].
  apply (C8_allocateMemory_chunks (250 * 1024 * 1024) (Occupy.NewResourceMonitor config0)).
  lia.
Defined.

Example allocateMemory_250MB :
  Occupy.AllocatedMemory
    (Occupy.allocateMemory (250 * 1024 * 1024) (Occupy.NewResourceMonitor config0))
  = [104857600; 104857600; 52428800].
Proof. vm_compute. reflexivity. Qed.

(** ** Memory shrink ([releaseMemory]) *)

Lemma releaseLoop_exit (n : nat) (target : Z) (mem : list Z) :
  Occupy.releaseLoop n target target mem = (target, mem).
Proof. destruct n; simpl; [reflexivity|]. rewrite Z.ltb_irrefl. reflexivity. Qed.

(** One iteration on a pool whose last chunk is [c]. *)
Lemma releaseLoop_snoc (mem0 : list Z) (c target released : Z) :
  0 <= released -> 0 <= c -> released + c < 2 ^ 64 -> target < 2 ^ 64 ->
  Occupy.releaseLoop (length (mem0 ++ [c])) target released (mem0 ++ [c]) =
  if released <? target then
    if released + c <=? target then
      Occupy.releaseLoop (length mem0) target (released + c) mem0
    else (target, mem0 ++ [target - released])
  else (released, mem0 ++ [c]).
Proof.
  intros Hr Hc Hb Ht. rewrite last_length. simpl.
  destruct (Z.ltb_spec released target) as [Hlt|Hge]; [|reflexivity].
  rewrite list_lookup_middle by reflexivity.
  rewrite (u64_small (released + c)) by lia.
  destruct (Z.leb_spec (released + c) target) as [Hle|Hgt].
  - rewrite take_app_length. reflexivity.
  - rewrite (u64_small (target - released)) by lia.
    rewrite (u64_small (released + (target - released))) by lia.
    replace (released + (target - released)) with target by lia.
    rewrite releaseLoop_exit.
    rewrite insert_app_r_alt by lia. rewrite Nat.sub_diag. reflexivity.
Qed.

Lemma releaseLoop_spec (target : Z) (mem : list Z) :
  target < 2 ^ 64 ->
  forall released : Z,
    Forall (fun c => 0 < c) mem ->
    0 <= released <= target ->
    released + sumZ mem < 2 ^ 64 ->
    let res := Occupy.releaseLoop (length mem) target released mem in
    fst res = Z.min target (released + sumZ mem)
    /\ Forall (fun c => 0 < c) (snd res)
    /\ sumZ (snd res) <= sumZ mem
    /\ (released + sumZ mem <= target -> snd res = []).
Proof.
  intros Ht. induction mem as [|c mem0 IH] using rev_ind; intros released Hpos Hr Hb.
  - simpl. change (sumZ []) with 0. repeat split; try constructor; lia.
  - apply Forall_app in Hpos as [Hpos0 Hc]. inversion Hc as [|? ? Hc0 _]; subst.
    pose proof (sumZ_nonneg mem0 Hpos0) as Hs0.
    rewrite sumZ_app in *. rewrite sumZ_cons in *. change (sumZ []) with 0 in *.
    rewrite releaseLoop_snoc by lia.
    destruct (Z.ltb_spec released target) as [Hlt|Hge].
    + destruct (Z.leb_spec (released + c) target) as [Hle|Hgt].
      * specialize (IH (released + c) Hpos0 ltac:(lia) ltac:(lia)).
        destruct IH as (IH1 & IH2 & IH3 & IH4).
        repeat split; [rewrite IH1; lia|exact IH2|lia|intros; apply IH4; lia].
      * simpl. repeat split.
        -- lia.
        -- apply Forall_app. split; [exact Hpos0|]. repeat constructor. lia.
        -- rewrite sumZ_app, sumZ_cons. change (sumZ []) with 0. lia.
        -- intros. lia.
    + simpl. repeat split.
      * lia.
      * apply Forall_app. split; [exact Hpos0|]. repeat constructor. lia.
      * rewrite sumZ_app, sumZ_cons. change (sumZ []) with 0. lia.
      * intros. lia.
Qed.

Lemma releaseBytes_spec (requested : Z) (mem : list Z) :
  poolOK mem -> 0 <= requested ->
  let res := Occupy.releaseBytes requested mem in
  fst res = Z.min requested (Occupy.getTotalAllocatedMemory mem)
  /\ poolOK (snd res)
  /\ Occupy.getTotalAllocatedMemory (snd res) <= Occupy.getTotalAllocatedMemory mem
  /\ (Occupy.getTotalAllocatedMemory mem <= requested -> snd res = []).
Proof.
  intros Hok Hreq. pose proof Hok as [Hpos Hb].
  pose proof (sumZ_nonneg mem Hpos) as Hs.
  unfold Occupy.releaseBytes. rewrite (getTotal_sum mem Hok).
  set (target := if sumZ mem <? requested then sumZ mem else requested).
  assert (Ht : target = Z.min requested (sumZ mem)).
  { unfold target. destruct (Z.ltb_spec (sumZ mem) requested); lia. }
  destruct (releaseLoop_spec target mem ltac:(lia) 0 Hpos ltac:(lia) ltac:(lia))
    as (H1 & H2 & H3 & H4).
  cbv zeta. assert (Hok' : poolOK (snd (Occupy.releaseLoop (length mem) target 0 mem))).
  { split; [exact H2|lia]. }
  repeat split.
  - rewrite H1. lia.
  - exact H2.
  - lia.
  - rewrite (getTotal_sum _ Hok'). exact H3.
  - intros Hle. apply H4. lia.
Qed.

(** A request that ends inside the last chunk keeps the requested number of
    bytes of that chunk, and so releases the rest of it. *)
Lemma releaseBytes_straddle (mem0 : list Z) (c x : Z) :
  poolOK (mem0 ++ [c]) -> 0 < x < c ->
  Occupy.releaseBytes x (mem0 ++ [c]) = (x, mem0 ++ [x]).
Proof.
  intros Hok Hx. pose proof Hok as [Hpos Hb].
  apply Forall_app in Hpos as [Hpos0 _].
  pose proof (sumZ_nonneg mem0 Hpos0) as Hs0.
  rewrite sumZ_app, sumZ_cons in Hb. change (sumZ []) with 0 in Hb.
  unfold Occupy.releaseBytes. rewrite (getTotal_sum _ Hok).
  rewrite sumZ_app, sumZ_cons. change (sumZ []) with 0.
  destruct (Z.ltb_spec (sumZ mem0 + (c + 0)) x) as [Hlt|Hge]; [lia|].
  rewrite releaseLoop_snoc by lia.
  destruct (Z.ltb_spec 0 x); [|lia].
  destruct (Z.leb_spec (0 + c) x); [lia|].
  rewrite Z.sub_0_r. reflexivity.
Qed.

Lemma releaseMemory_empty (currentPercent : F64) (memInfo : VirtualMemoryStat)
  (m : Occupy.ResourceMonitor) :
  Occupy.AllocatedMemory m = [] -> Occupy.releaseMemory currentPercent memInfo m = m.
Proof. intros H. unfold Occupy.releaseMemory. rewrite H. reflexivity. Qed.

Lemma releaseMemory_mem (currentPercent : F64) (memInfo : VirtualMemoryStat)
  (m : Occupy.ResourceMonitor) :
  Occupy.AllocatedMemory (Occupy.releaseMemory currentPercent memInfo m) =
  snd (Occupy.releaseBytes
         (uint64_of_float
            ((currentPercent - Occupy.MemoryPercent (Occupy.Config m)) / Finite 100
             * float64 (mem_Total memInfo))%F)
         (Occupy.AllocatedMemory m)).
Proof.
  unfold Occupy.releaseMemory.
  destruct (Occupy.AllocatedMemory m) as [|c mem] eqn:E; [|reflexivity].
  rewrite E. reflexivity.
Qed.

(** C10: on every pool, whatever amount [releaseMemory] computes, the amount
    it sets out to release is that amount clamped to the allocated total;
    the allocated total does not grow and does not wrap around; when the
    computed amount reaches the total the chunk list ends empty; on an
    empty pool the call changes nothing. *)
Theorem C10_releaseMemory_clamped (currentPercent : F64) (memInfo : VirtualMemoryStat)
  (m : Occupy.ResourceMonitor) :
  poolOK (Occupy.AllocatedMemory m) ->
  let mem := Occupy.AllocatedMemory m in
  let requested :=
    uint64_of_float
      ((currentPercent - Occupy.MemoryPercent (Occupy.Config m)) / Finite 100
       * float64 (mem_Total memInfo))%F in
  let mem' := Occupy.AllocatedMemory (Occupy.releaseMemory currentPercent memInfo m) in
  fst (Occupy.releaseBytes requested mem)
    = Z.min requested (Occupy.getTotalAllocatedMemory mem)
  /\ poolOK mem'
  /\ 0 <= Occupy.getTotalAllocatedMemory mem' <= Occupy.getTotalAllocatedMemory mem
  /\ (Occupy.getTotalAllocatedMemory mem <= requested -> mem' = [])
  /\ (mem = [] -> Occupy.releaseMemory currentPercent memInfo m = m).
Proof.
  intros Hok mem requested mem'.
  assert (Hreq : 0 <= requested) by apply uint64_of_float_range.
  destruct (releaseBytes_spec requested mem Hok Hreq) as (H1 & H2 & H3 & H4).
  assert (Hmem' : mem' = snd (Occupy.releaseBytes requested mem))
    by apply releaseMemory_mem.
  rewrite Hmem'. repeat split; try assumption.
  - apply H2.
  - apply H2.
  - rewrite (getTotal_sum _ H2). apply sumZ_nonneg, H2.
  - apply releaseMemory_empty.
Qed.

Lemma C10_releaseMemory_clamped_witness :
  poolOK [100; 200]
  /\ Occupy.AllocatedMemory
       (Occupy.releaseMemory (Finite 90) (mkMemInfo 1000 (Finite 90))
          (Occupy.set_AllocatedMemory [100; 200] (Occupy.NewResourceMonitor config0)))
     = [].
Proof.
  assert (H : poolOK [100; 200]).
  { split; [repeat constructor; lia|vm_compute; reflexivity]. }
  split; [exact H|].
  pose proof (C10_releaseMemory_clamped (Finite 90) (mkMemInfo 1000 (Finite 90))
    (Occupy.set_AllocatedMemory [100; 200] (Occupy.NewResourceMonitor config0)) H)
    as (_ & _ & _ & Hempty & _).
  apply Hempty. vm_compute. discriminate.
Defined.

(** C4: a pool holding one chunk of 300 bytes, target 50%, measured 75% of
    400 bytes, so that 100 bytes are to be released: the chunk is cut down
    to the 100 bytes that were to be released, and the total drops to 100,
    not to 300 - 100. *)
Example C4_releaseMemory_straddling_chunk :
  let m := Occupy.set_AllocatedMemory [300] (Occupy.NewResourceMonitor config0) in
  let m' := Occupy.releaseMemory (Finite 75) (mkMemInfo 400 (Finite 75)) m in
  uint64_of_float
    ((Finite 75 - Occupy.MemoryPercent config0) / Finite 100 * float64 400)%F = 100
  /\ Occupy.getTotalAllocatedMemory (Occupy.AllocatedMemory m) = 300
  /\ Occupy.AllocatedMemory m' = [100]
  /\ Occupy.getTotalAllocatedMemory (Occupy.AllocatedMemory m') = 100
  /\ Occupy.getTotalAllocatedMemory (Occupy.AllocatedMemory m') <> 300 - 100.
Proof. vm_compute. repeat split; congruence. Qed.

(** Requests that end on a chunk boundary release exactly what they ask. *)
Example releaseMemory_on_boundary :
  Occupy.releaseBytes 300 [100; 100; 200] = (300, [100]).
Proof. vm_compute. reflexivity. Qed.

(** ** The percentage policy of the older program ([Legacy.releaseMemory]) *)

Lemma legacy_releaseLoop_take (n : nat) :
  forall (released : Z) (mem : list Z),
    snd (Legacy.releaseLoop n released mem) = take (length mem - n) mem.
Proof.
  induction n as [|n IH]; intros released mem.
  - simpl. rewrite Nat.sub_0_r, firstn_all. reflexivity.
  - simpl. destruct (Nat.ltb_spec 0 (length mem)) as [Hlen|Hlen].
    + destruct (lookup_lt_is_Some_2 mem (length mem - 1) ltac:(lia)) as [b Hb].
      rewrite Hb, IH, length_take, take_take. f_equal. lia.
    + destruct mem; [reflexivity|simpl in Hlen; lia].
Qed.

(** The constants [0.3], [0.5] and [0.7] as floats: the first and the last
    lie just below three and seven tenths. *)
Lemma legacy_ratio_values :
  round64 (3 # 10) = Finite (5404319552844595 # 18014398509481984)
  /\ round64 (5 # 10) = Finite (1 # 2)
  /\ round64 (7 # 10) = Finite (3152519739159347 # 4503599627370496).
Proof. vm_compute. repeat split; reflexivity. Qed.

Lemma trunc_nonneg_mono (p q : Q) : (0 <= p)%Q -> (p <= q)%Q -> trunc p <= trunc q.
Proof.
  intros Hp Hpq. rewrite !trunc_floor by lra. apply Qfloor_resp_le. exact Hpq.
Qed.

(** The block count for a ratio of at most seven tenths, on a pool of fewer
    than [2^49] blocks: the product is a float below the block count. *)
Lemma legacy_blocks_trunc (n : nat) (r : Q) :
  Z.of_nat n < 2 ^ 49 -> (0 <= r)%Q -> (r <= 7 # 10)%Q ->
  exists v p : Q,
    v == inject_Z (Z.of_nat n)
    /\ round64 (v * r) = Finite p
    /\ (0 <= p)%Q /\ (p < inject_Z (Z.of_nat n + 1))%Q
    /\ Legacy.blocksToRelease n (Finite r) = Z.max 1 (trunc p).
Proof.
  intros Hn Hr0 Hr.
  destruct (round64_int (Z.of_nat n) ltac:(lia)) as (v & Hv & Ev).
  assert (Hn0 : (0 <= inject_Z (Z.of_nat n))%Q).
  { change 0%Q with (inject_Z 0). rewrite <- Zle_Qle. lia. }
  assert (Hvr0 : (0 <= v * r)%Q) by (apply Qmult_le_0_compat; lra).
  assert (Hvr : (v * r <= inject_Z (Z.of_nat n) + (9 # 10))%Q).
  { assert (H : (v * r <= v * 1)%Q) by (apply Qmult_le_l_weak || (rewrite !(Qmult_comm v); apply Qmult_le_compat_r; lra)).
    lra. }
  destruct (round64_below (v * r) (Z.of_nat n) ltac:(lia) ltac:(lia) Hvr0 Hvr)
    as (p & Hp & Hp0 & Hp1).
  exists v, p. repeat split; try assumption.
  unfold Legacy.blocksToRelease, float64. rewrite Hv. cbn [fmul]. rewrite Hp.
  cbn [int_of_float].
  assert (Ht : 0 <= trunc p < Z.of_nat n + 1).
  { apply trunc_range; [lia|exact Hp0|exact Hp1]. }
  destruct (Z.leb_spec (- 2 ^ 63) (trunc p)), (Z.ltb_spec (trunc p) (2 ^ 63));
    cbn [andb]; try lia.
  destruct (Z.ltb_spec (trunc p) 1); lia.
Qed.

(** A larger ratio never releases fewer blocks. *)
Lemma legacy_blocks_mono (n : nat) (r1 r2 : Q) :
  Z.of_nat n < 2 ^ 49 -> (0 <= r1)%Q -> (r1 <= r2)%Q -> (r2 <= 7 # 10)%Q ->
  Legacy.blocksToRelease n (Finite r1) <= Legacy.blocksToRelease n (Finite r2).
Proof.
  intros Hn H0 H12 H2.
  destruct (legacy_blocks_trunc n r1 Hn H0 ltac:(lra)) as (v1 & p1 & Ev1 & Hp1 & Hp10 & _ & ->).
  destruct (legacy_blocks_trunc n r2 Hn ltac:(lra) H2) as (v2 & p2 & Ev2 & Hp2 & _ & _ & ->).
  assert (Hn0 : (0 <= inject_Z (Z.of_nat n))%Q).
  { change 0%Q with (inject_Z 0). rewrite <- Zle_Qle. lia. }
  assert (Hle : (v1 * r1 <= v2 * r2)%Q).
  { rewrite Ev1, Ev2. rewrite !(Qmult_comm (inject_Z (Z.of_nat n))).
    apply Qmult_le_compat_r; assumption. }
  pose proof (round64_mono _ _ Hle) as Hm. rewrite Hp1, Hp2 in Hm.
  cbn [fleb] in Hm. apply qleb_le in Hm.
  pose proof (trunc_nonneg_mono p1 p2 Hp10 Hm). lia.
Qed.

(** The block count for the three ratios of the source: the integral part
    of the tenths of the pool, or one less. *)
Lemma legacy_blocks_bounds (n : nat) (t : positive) :
  Z.of_nat n < 2 ^ 49 -> t = 3%positive \/ t = 5%positive \/ t = 7%positive ->
  Z.max 1 (Z.of_nat n * Z.pos t / 10 - 1)
  <= Legacy.blocksToRelease n (round64 (Z.pos t # 10))
  <= Z.max 1 (Z.of_nat n * Z.pos t / 10).
Proof.
  intros Hn Ht. destruct legacy_ratio_values as (E3 & E5 & E7).
  set (K := Z.of_nat n * Z.pos t / 10).
  pose proof (Z.div_mod (Z.of_nat n * Z.pos t) 10 ltac:(lia)) as Hdm.
  pose proof (Z.mod_pos_bound (Z.of_nat n * Z.pos t) 10 ltac:(lia)) as Hrem.
  fold K in Hdm.
  assert (HK0 : 0 <= K) by (apply Z.div_pos; lia).
  assert (HKn : K <= Z.of_nat n).
  { apply Z.div_le_upper_bound; [lia|]. destruct Ht as [->|[->| ->]]; lia. }
  assert (Hn0 : (0 <= inject_Z (Z.of_nat n))%Q).
  { change 0%Q with (inject_Z 0). rewrite <- Zle_Qle. lia. }
  assert (Hn49 : (inject_Z (Z.of_nat n) <= inject_Z (2 ^ 49))%Q)
    by (rewrite <- Zle_Qle; lia).
  change (inject_Z (2 ^ 49)) with 562949953421312%Q in Hn49.
  assert (Hlo : (inject_Z (10 * K) <= inject_Z (Z.of_nat n * Z.pos t))%Q)
    by (rewrite <- Zle_Qle; lia).
  assert (Hhi : (inject_Z (Z.of_nat n * Z.pos t) <= inject_Z (10 * K + 9))%Q)
    by (rewrite <- Zle_Qle; lia).
  rewrite inject_Z_plus, !inject_Z_mult in *.
  change (inject_Z 10) with 10%Q in *. change (inject_Z 9) with 9%Q in *.
  assert (Hmain : forall r : Q,
            round64 (Z.pos t # 10) = Finite r -> (0 <= r)%Q -> (r <= 7 # 10)%Q ->
            (10 * r <= inject_Z (Z.pos t))%Q ->
            (inject_Z (Z.pos t) - (1 # 562949953421312) <= 10 * r)%Q ->
            Z.max 1 (K - 1) <= Legacy.blocksToRelease n (round64 (Z.pos t # 10))
            <= Z.max 1 K).
  { intros r -> Hr0 Hr7 Hru Hrl.
    destruct (legacy_blocks_trunc n r Hn Hr0 Hr7) as (v & p & Ev & Hp & Hp0 & _ & ->).
    assert (Hnt : (0 <= inject_Z (Z.pos t))%Q).
    { change 0%Q with (inject_Z 0). rewrite <- Zle_Qle. lia. }
    assert (Hup : (10 * (v * r) <= inject_Z (Z.of_nat n) * inject_Z (Z.pos t))%Q).
    { rewrite Ev.
      setoid_replace (10 * (inject_Z (Z.of_nat n) * r))%Q
        with (inject_Z (Z.of_nat n) * (10 * r))%Q using relation Qeq by ring.
      rewrite !(Qmult_comm (inject_Z (Z.of_nat n))).
      apply Qmult_le_compat_r; assumption. }
    assert (Hdn : (inject_Z (Z.of_nat n) * inject_Z (Z.pos t) - 1 <= 10 * (v * r))%Q).
    { rewrite Ev.
      setoid_replace (10 * (inject_Z (Z.of_nat n) * r))%Q
        with (inject_Z (Z.of_nat n) * (10 * r))%Q using relation Qeq by ring.
      assert (H1 : (inject_Z (Z.of_nat n)
                    * (inject_Z (Z.pos t) - (1 # 562949953421312))
                    <= inject_Z (Z.of_nat n) * (10 * r))%Q).
      { rewrite !(Qmult_comm (inject_Z (Z.of_nat n))).
        apply Qmult_le_compat_r; assumption. }
      assert (H2 : (inject_Z (Z.of_nat n) * (1 # 562949953421312) <= 1)%Q).
      { pose proof (Qmult_le_compat_r _ _ (1 # 562949953421312) Hn49
                      ltac:(discriminate)) as H2.
        assert (E : (562949953421312 * (1 # 562949953421312) == 1)%Q) by reflexivity.
        lra. }
      assert (E : (inject_Z (Z.of_nat n) * (inject_Z (Z.pos t) - (1 # 562949953421312))
                   == inject_Z (Z.of_nat n) * inject_Z (Z.pos t)
                      - inject_Z (Z.of_nat n) * (1 # 562949953421312))%Q) by ring.
      lra. }
    assert (Hvr0 : (0 <= v * r)%Q) by (apply Qmult_le_0_compat; lra).
    assert (HKq : (0 <= inject_Z K)%Q).
    { change 0%Q with (inject_Z 0). rewrite <- Zle_Qle. lia. }
    destruct (round64_below (v * r) K HK0 ltac:(lia) Hvr0 ltac:(lra))
      as (p' & Hp' & _ & Hp1).
    rewrite Hp in Hp'. injection Hp' as <-.
    assert (Hu : trunc p < K + 1) by (apply (trunc_range p 0); [lia|exact Hp0|exact Hp1]).
    destruct (Z.le_gt_cases K 1) as [HK1|HK1]; [lia|].
    destruct (round64_int (K - 1) ltac:(lia)) as (k & Hk & Ek).
    assert (Hle : (inject_Z (K - 1) <= v * r)%Q).
    { unfold Zminus. rewrite inject_Z_plus, inject_Z_opp.
      change (inject_Z 1) with 1%Q. lra. }
    pose proof (round64_mono _ _ Hle) as Hm. rewrite Hk, Hp in Hm.
    cbn [fleb] in Hm. apply qleb_le in Hm.
    assert (Hl : K - 1 <= trunc p < K + 1).
    { apply trunc_range; [lia|lra|exact Hp1]. }
    lia. }
  destruct Ht as [->|[->| ->]].
  - apply (Hmain _ E3); vm_compute; discriminate.
  - apply (Hmain _ E5); vm_compute; discriminate.
  - apply (Hmain _ E7); vm_compute; discriminate.
Qed.

Lemma sumZ_take_mono (l : list Z) :
  Forall (fun c => 0 < c) l ->
  forall a b : nat, (a <= b)%nat -> sumZ (take a l) <= sumZ (take b l).
Proof.
  induction 1 as [|c l Hc Hl IH]; intros a b Hab.
  - rewrite !take_nil. lia.
  - destruct a as [|a].
    + rewrite take_0. change (sumZ []) with 0. apply sumZ_nonneg.
      apply Forall_take. constructor; assumption.
    + destruct b as [|b]; [lia|]. rewrite !firstn_cons, !sumZ_cons.
      specialize (IH a b ltac:(lia)). lia.
Qed.

(** The tenths of the block count that a given excess releases. *)
Lemma legacy_releaseRatio_cases (excess : F64) :
  Legacy.releaseRatio excess =
  round64
    (Z.pos (if (excess <=? Finite 5)%F then 3
            else if (excess <=? Finite 10)%F then 5 else 7) # 10).
Proof.
  unfold Legacy.releaseRatio.
  destruct (excess <=? Finite 5)%F; [reflexivity|].
  destruct (excess <=? Finite 10)%F; reflexivity.
Qed.

Lemma legacy_tenths_cases (excess : F64) :
  let t := (if (excess <=? Finite 5)%F then 3
            else if (excess <=? Finite 10)%F then 5 else 7)%positive in
  t = 3%positive \/ t = 5%positive \/ t = 7%positive.
Proof.
  cbv zeta. destruct (excess <=? Finite 5)%F; [auto|].
  destruct (excess <=? Finite 10)%F; auto.
Qed.

(** Rounding gives a number or an infinity. *)
Lemma round64_ordered (q : Q) :
  (round64 q <=? PosInf)%F = true /\ (NegInf <=? round64 q)%F = true.
Proof.
  unfold round64, roundPos.
  destruct (q ?= 0)%Q; [split; reflexivity| |].
  - destruct (Qle_bool _ _); split; reflexivity.
  - destruct (Qle_bool _ _); split; reflexivity.
Qed.

(** The excess over a target grows with the measure. *)
Lemma fsub_mono (T c h : F64) :
  (c <=? h)%F = true ->
  (c - T <=? h - T)%F = true
  \/ ((c - T <=? Finite 10)%F = false /\ (h - T <=? Finite 10)%F = false)
  \/ ((c - T <=? Finite 5)%F = true /\ (c - T <=? Finite 10)%F = true).
Proof.
  intros H. unfold fsub.
  destruct T as [t| | |], c as [a| | |], h as [b| | |];
    cbn [fneg fadd fleb] in *; try discriminate H; auto;
    try (left; apply round64_ordered).
  left. apply round64_mono. apply qleb_le in H. lra.
Qed.

Lemma legacy_tenths_mono (T c h : F64) :
  (c <=? h)%F = true ->
  ((if (c - T <=? Finite 5)%F then 3 else if (c - T <=? Finite 10)%F then 5 else 7)
   <= (if (h - T <=? Finite 5)%F then 3
       else if (h - T <=? Finite 10)%F then 5 else 7))%positive.
Proof.
  intros H. destruct (fsub_mono T c h H) as [Hm|[[H1 H2]|[H1 H2]]].
  - destruct (h - T <=? Finite 5)%F eqn:E5.
    + rewrite (fleb_trans _ _ _ Hm E5). lia.
    + destruct (h - T <=? Finite 10)%F eqn:E10.
      * destruct (c - T <=? Finite 5)%F; [lia|].
        rewrite (fleb_trans _ _ _ Hm E10). lia.
      * destruct (c - T <=? Finite 5)%F; [lia|].
        destruct (c - T <=? Finite 10)%F; lia.
  - rewrite H2.
    assert (E : (h - T <=? Finite 5)%F = false).
    { destruct (h - T <=? Finite 5)%F eqn:E5; [|reflexivity].
      assert (E : (Finite 5 <=? Finite 10)%F = true) by reflexivity.
      rewrite (fleb_trans _ _ _ E5 E) in H2. discriminate H2. }
    rewrite E. destruct (c - T <=? Finite 5)%F; [lia|].
    destruct (c - T <=? Finite 10)%F; lia.
  - rewrite H1. destruct (h - T <=? Finite 5)%F; [lia|].
    destruct (h - T <=? Finite 10)%F; lia.
Qed.

Lemma legacy_releaseMemory_mem (currentPercent : F64) (memInfo : VirtualMemoryStat)
  (m : Legacy.ResourceMonitor) :
  Legacy.allocatedMemory (Legacy.releaseMemory currentPercent memInfo m) =
  take
    (length (Legacy.allocatedMemory m)
     - Z.to_nat
         (Legacy.blocksToRelease (length (Legacy.allocatedMemory m))
            (Legacy.releaseRatio
               (currentPercent - Legacy.MemoryPercent (Legacy.config m))%F)))
    (Legacy.allocatedMemory m).
Proof.
  unfold Legacy.releaseMemory.
  destruct (Legacy.allocatedMemory m) as [|c mem] eqn:E.
  - rewrite E. reflexivity.
  - cbn [Legacy.allocatedMemory Legacy.set_allocatedMemory].
    rewrite legacy_releaseLoop_take. reflexivity.
Qed.

(** The three ratios are floats between zero and seven tenths, in the
    order of the tenths. *)
Lemma legacy_ratio_mono (t1 t2 : positive) :
  t1 = 3%positive \/ t1 = 5%positive \/ t1 = 7%positive ->
  t2 = 3%positive \/ t2 = 5%positive \/ t2 = 7%positive ->
  (t1 <= t2)%positive ->
  exists r1 r2 : Q,
    round64 (Z.pos t1 # 10) = Finite r1 /\ round64 (Z.pos t2 # 10) = Finite r2
    /\ (0 <= r1)%Q /\ (r1 <= r2)%Q /\ (r2 <= 7 # 10)%Q.
Proof.
  destruct legacy_ratio_values as (E3 & E5 & E7).
  intros [->|[->| ->]] [->|[->| ->]] H; try lia;
    do 2 eexists;
    (split; [first [exact E3|exact E5|exact E7]|]);
    (split; [first [exact E3|exact E5|exact E7]|]);
    vm_compute; repeat split; discriminate.
Qed.

(** C5 (amended): on a pool of [n] blocks, fewer than [2^49],
    [Legacy.releaseMemory] drops the last [max 1 (int (float64 n * r))]
    blocks, where [r] is the float [0.3] when the excess over the target
    is at most 5 points, [0.5] when it is at most 10 points, and [0.7]
    otherwise, the excess and the comparisons being those of float64; that
    count is the integral part of [n * t / 10], [t] being 3, 5 or 7, or one
    less, and at least one; and a larger measure never leaves more blocks
    or more bytes in the pool. *)
Theorem C5_releaseMemory_block_ratio (currentPercent : F64) (memInfo : VirtualMemoryStat)
  (m : Legacy.ResourceMonitor) :
  Legacy.allocatedMemory m <> [] ->
  Z.of_nat (length (Legacy.allocatedMemory m)) < 2 ^ 49 ->
  let mem := Legacy.allocatedMemory m in
  let after c := Legacy.allocatedMemory (Legacy.releaseMemory c memInfo m) in
  let excess c := (c - Legacy.MemoryPercent (Legacy.config m))%F in
  let tenths c :=
    Z.pos (if (excess c <=? Finite 5)%F then 3
           else if (excess c <=? Finite 10)%F then 5 else 7) in
  let blocks c := Legacy.blocksToRelease (length mem) (round64 (tenths c # 10)) in
  Legacy.releaseRatio (excess currentPercent) = round64 (tenths currentPercent # 10)
  /\ after currentPercent = take (length mem - Z.to_nat (blocks currentPercent)) mem
  /\ Z.max 1 (Z.of_nat (length mem) * tenths currentPercent / 10 - 1)
     <= blocks currentPercent
     <= Z.max 1 (Z.of_nat (length mem) * tenths currentPercent / 10)
  /\ (length (after currentPercent) < length mem)%nat
  /\ (forall higher : F64,
        (currentPercent <=? higher)%F = true ->
        blocks currentPercent <= blocks higher
        /\ (length (after higher) <= length (after currentPercent))%nat
        /\ (Forall (fun c => 0 < c) mem ->
            sumZ (after higher) <= sumZ (after currentPercent))).
Proof.
  intros Hne Hn mem after excess tenths blocks.
  assert (Hafter : forall c, after c = take (length mem - Z.to_nat (blocks c)) mem).
  { intros c. unfold after. rewrite legacy_releaseMemory_mem.
    fold mem. rewrite legacy_releaseRatio_cases. reflexivity. }
  assert (Hlen : (0 < length mem)%nat).
  { destruct mem eqn:E; [contradiction|simpl; lia]. }
  assert (Hbounds : forall c,
            Z.max 1 (Z.of_nat (length mem) * tenths c / 10 - 1) <= blocks c
            <= Z.max 1 (Z.of_nat (length mem) * tenths c / 10)).
  { intros c. apply legacy_blocks_bounds; [exact Hn|]. apply legacy_tenths_cases. }
  split; [apply legacy_releaseRatio_cases|].
  split; [apply Hafter|].
  split; [apply Hbounds|].
  assert (Hone : forall c, 1 <= blocks c) by (intros c; specialize (Hbounds c); lia).
  split; [rewrite Hafter, length_take; specialize (Hone currentPercent); lia|].
  intros higher Hle.
  assert (Hmono : blocks currentPercent <= blocks higher).
  { destruct (legacy_ratio_mono _ _ (legacy_tenths_cases (excess currentPercent))
                (legacy_tenths_cases (excess higher))
                (legacy_tenths_mono _ _ _ Hle))
      as (r1 & r2 & E1 & E2 & H0 & H12 & H7).
    unfold blocks, tenths. rewrite E1, E2.
    apply legacy_blocks_mono; assumption. }
  split; [exact Hmono|].
  split.
  - rewrite !Hafter, !length_take. lia.
  - intros Hpos. rewrite !Hafter. apply sumZ_take_mono; [exact Hpos|lia].
Qed.

Lemma C5_releaseMemory_block_ratio_witness :
  repeat 100 90 <> []
  /\ Z.of_nat (length (repeat 100 90)) < 2 ^ 49
  /\ Legacy.allocatedMemory
       (Legacy.releaseMemory (Finite 90) (mkMemInfo 1000 (Finite 90))
          (Legacy.set_allocatedMemory (repeat 100 90)
             (Legacy.NewResourceMonitor
                (Legacy.mkConfig (Finite 50) (Finite 30) (Finite 40) 5000000000))))
     = repeat 100 28.
Proof.
  split; [discriminate|]. split; [vm_compute; reflexivity|].
  pose proof (C5_releaseMemory_block_ratio (Finite 90) (mkMemInfo 1000 (Finite 90))
    (Legacy.set_allocatedMemory (repeat 100 90)
       (Legacy.NewResourceMonitor
          (Legacy.mkConfig (Finite 50) (Finite 30) (Finite 40) 5000000000)))
    ltac:(discriminate) ltac:(vm_compute; reflexivity)) as (_ & H & _).
  rewrite H. vm_compute. reflexivity.
Defined.

(** C5 as stated fails. Four blocks of 700, 100, 100 and 100 bytes, target
    50%, measured 53% (an excess of 3 points): one block of 100 bytes is
    released, a tenth of the 1000 bytes held and not 30% of them. And 90
    blocks of 100 bytes each, measured 90% (an excess of 40 points): 62
    blocks are released, 6200 of the 9000 bytes held and not 70% of them,
    because [0.7] as a float lies below seven tenths. *)
Lemma C5_counterexample_fraction_of_bytes :
  let config := Legacy.mkConfig (Finite 50) (Finite 30) (Finite 40) 5000000000 in
  let held m := Legacy.getTotalAllocatedMemory (Legacy.allocatedMemory m) in
  let m := Legacy.set_allocatedMemory [700; 100; 100; 100]
             (Legacy.NewResourceMonitor config) in
  let m' := Legacy.releaseMemory (Finite 53) (mkMemInfo 1000 (Finite 53)) m in
  let n := Legacy.set_allocatedMemory (repeat 100 90) (Legacy.NewResourceMonitor config) in
  let n' := Legacy.releaseMemory (Finite 90) (mkMemInfo 1000 (Finite 90)) n in
  ((Finite 53 - Legacy.MemoryPercent config <=? Finite 5)%F = true
   /\ held m = 1000
   /\ held m - held m' = 100
   /\ 10 * (held m - held m') <> 3 * held m)
  /\ ((Finite 90 - Legacy.MemoryPercent config <=? Finite 10)%F = false
      /\ held n = 9000
      /\ held n - held n' = 6200
      /\ 10 * (held n - held n') <> 7 * held n).
Proof. vm_compute. repeat split; discriminate. Qed.

(** ** The adjustment decisions *)

Lemma growWorkers_clamp (config : Occupy.ResourceConfig) (NumCPU : positive) :
  Occupy.growWorkers config NumCPU =
  Z.min (Z.pos NumCPU)
    (Z.max 1
       (int_of_float
          (Occupy.CPUPercent config / Finite 100 * float64 (Z.pos NumCPU))%F)).
Proof.
  unfold Occupy.growWorkers.
  set (t := int_of_float
              (Occupy.CPUPercent config / Finite 100 * float64 (Z.pos NumCPU))%F).
  destruct (Z.ltb_spec t 1);
    match goal with |- context [?a <? ?b] => destruct (Z.ltb_spec a b) end; lia.
Qed.

Lemma growWorkers_range (config : Occupy.ResourceConfig) (NumCPU : positive) :
  1 <= Occupy.growWorkers config NumCPU <= Z.pos NumCPU.
Proof. rewrite growWorkers_clamp. lia. Qed.

(** A measure above [T + d] is not below [T], for a target that is a float. *)
Lemma fltb_above (T h : F64) (d : Q) :
  isF64 T = true -> (0 <= d)%Q -> (T + Finite d <? h)%F = true -> (h <? T)%F = false.
Proof.
  intros HT Hd H. destruct T as [q| | |].
  - apply (fleb_fltb _ (Finite q + Finite d)%F); [|exact H].
    cbn [isF64] in HT. cbn [fadd].
    pose proof (round64_mono q (q + d) ltac:(lra)) as Hm.
    destruct (round64 q) as [v| | |]; try discriminate HT.
    apply Qeq_bool_iff in HT.
    apply (fleb_trans _ (Finite v)); [|exact Hm].
    cbn [fleb]. apply qleb_le. lra.
  - destruct h; discriminate H.
  - destruct h; reflexivity.
  - destruct h; discriminate H.
Qed.

Lemma createTempFiles_zero (env : Occupy.DiskEnv) (fs : list Occupy.File) :
  Occupy.createTempFiles env 0 fs = fs.
Proof. unfold Occupy.createTempFiles. destruct (Occupy.mkdirErr env); reflexivity. Qed.

(** C2 (amended): the comparisons and the sums are those of float64. The
    CPU adjustment has a band of 5 points on both sides: below it the
    worker target is set to the integral part of target / 100 * cores,
    brought into the range from 1 to the number of CPUs; above it the
    worker target is set to 0; otherwise nothing is done. Memory and disk
    grow as soon as the measure is below the target, by the integral part
    of the float (target - current) / 100 * total bytes, which is at least
    one as soon as that float is at least one and below 2^64; they shrink
    above target + 5; otherwise they do nothing. *)
Theorem C2_adjustment_decisions (w : Occupy.World) (NumCPU : positive)
  (env : Occupy.DiskEnv) (current : F64) (memInfo : VirtualMemoryStat)
  (diskInfo : UsageStat) :
  let config := Occupy.Config (Occupy.rm w) in
  let memBytes :=
    ((Occupy.MemoryPercent config - current) / Finite 100
     * float64 (mem_Total memInfo))%F in
  let diskBytes :=
    ((Occupy.DiskPercent config - current) / Finite 100
     * float64 (disk_Total diskInfo))%F in
  let cores :=
    int_of_float (Occupy.CPUPercent config / Finite 100 * float64 (Z.pos NumCPU))%F in
  ((current <? Occupy.CPUPercent config - Finite 5)%F = true ->
     Occupy.adjustCPUUsage NumCPU current w =
       Occupy.with_rm (Occupy.adjustCPUWorkers (Occupy.growWorkers config NumCPU))
         (Occupy.record Occupy.CallAdjustCPU w)
     /\ Occupy.growWorkers config NumCPU = Z.min (Z.pos NumCPU) (Z.max 1 cores)
     /\ 1 <= Occupy.growWorkers config NumCPU <= Z.pos NumCPU)
  /\ ((Occupy.CPUPercent config + Finite 5 <? current)%F = true ->
      Occupy.adjustCPUUsage NumCPU current w =
        Occupy.with_rm (Occupy.adjustCPUWorkers 0) (Occupy.record Occupy.CallAdjustCPU w))
  /\ ((current <? Occupy.CPUPercent config - Finite 5)%F = false ->
      (Occupy.CPUPercent config + Finite 5 <? current)%F = false ->
      Occupy.adjustCPUUsage NumCPU current w = Occupy.record Occupy.CallAdjustCPU w)
  /\ ((current <? Occupy.MemoryPercent config)%F = true ->
      Occupy.adjustMemoryUsage current memInfo w =
        Occupy.with_rm (Occupy.allocateMemory (uint64_of_float memBytes))
          (Occupy.record Occupy.CallAdjustMemory w)
      /\ ((Finite 1 <=? memBytes)%F = true ->
          (memBytes <? Finite (inject_Z (2 ^ 64)))%F = true ->
          1 <= uint64_of_float memBytes))
  /\ (isF64 (Occupy.MemoryPercent config) = true ->
      (Occupy.MemoryPercent config + Finite 5 <? current)%F = true ->
      Occupy.adjustMemoryUsage current memInfo w =
        Occupy.with_rm (Occupy.releaseMemory current memInfo)
          (Occupy.record Occupy.CallAdjustMemory w))
  /\ ((current <? Occupy.MemoryPercent config)%F = false ->
      (Occupy.MemoryPercent config + Finite 5 <? current)%F = false ->
      Occupy.adjustMemoryUsage current memInfo w = Occupy.record Occupy.CallAdjustMemory w)
  /\ ((current <? Occupy.DiskPercent config)%F = true ->
      Occupy.adjustDiskUsage env current diskInfo w =
        Occupy.with_files (Occupy.createTempFiles env (uint64_of_float diskBytes))
          (Occupy.record Occupy.CallAdjustDisk w)
      /\ ((Finite 1 <=? diskBytes)%F = true ->
          (diskBytes <? Finite (inject_Z (2 ^ 64)))%F = true ->
          1 <= uint64_of_float diskBytes))
  /\ (isF64 (Occupy.DiskPercent config) = true ->
      (Occupy.DiskPercent config + Finite 5 <? current)%F = true ->
      Occupy.adjustDiskUsage env current diskInfo w =
        Occupy.with_files (Occupy.cleanupTempFiles (Occupy.tempDir w) env)
          (Occupy.record Occupy.CallAdjustDisk w))
  /\ ((current <? Occupy.DiskPercent config)%F = false ->
      (Occupy.DiskPercent config + Finite 5 <? current)%F = false ->
      Occupy.adjustDiskUsage env current diskInfo w = Occupy.record Occupy.CallAdjustDisk w).
Proof.
  intros config memBytes diskBytes cores.
  unfold Occupy.adjustCPUUsage, Occupy.adjustMemoryUsage, Occupy.adjustDiskUsage,
    Occupy.tolerance.
  cbn [Occupy.rm Occupy.record Occupy.tempDir]. fold config.
  repeat split.
  - rewrite H. reflexivity.
  - apply growWorkers_clamp.
  - apply growWorkers_range.
  - apply growWorkers_range.
  - intros H. rewrite (fltb_band _ _ 5 ltac:(discriminate) H), H. reflexivity.
  - intros H1 H2. rewrite H1, H2. reflexivity.
  - rewrite H. reflexivity.
  - apply uint64_of_float_pos; assumption.
  - intros HT H. rewrite (fltb_above _ _ 5 HT ltac:(discriminate) H), H. reflexivity.
  - intros H1 H2. rewrite H1, H2. reflexivity.
  - rewrite H. reflexivity.
  - apply uint64_of_float_pos; assumption.
  - intros HT H. rewrite (fltb_above _ _ 5 HT ltac:(discriminate) H), H. reflexivity.
  - intros H1 H2. rewrite H1, H2. reflexivity.
Qed.

Lemma C2_adjustment_decisions_witness :
  (Finite 10 <? Occupy.CPUPercent config0 - Finite 5)%F = true
  /\ Occupy.adjustCPUUsage 4 (Finite 10) world0 =
       Occupy.with_rm (Occupy.adjustCPUWorkers (Occupy.growWorkers config0 4))
         (Occupy.record Occupy.CallAdjustCPU world0).
Proof.
  assert (H : (Finite 10 <? Occupy.CPUPercent config0 - Finite 5)%F = true)
    by (vm_compute; reflexivity).
  split; [exact H|].
  apply (C2_adjustment_decisions world0 4 disk0 (Finite 10)
           (mkMemInfo 1000 (Finite 10)) (mkDiskInfo 1000 (Finite 10))).
  exact H.
Defined.

(** C2 as stated fails twice on the disk, with a target of 40% and the 5
    points of the shrink side as band. A measure of 38% lies inside the
    band, yet the adjustment grows: it writes a padding file of 2% of the
    1000 bytes of the disk. A measure of 20% lies below the band, yet on a
    disk whose total is reported as 0 the amount to grow by is 0 and no
    file is written. *)
Lemma C2_counterexample_disk_decisions :
  let inside :=
    Occupy.adjustDiskUsage disk0 (Finite 38) (mkDiskInfo 1000 (Finite 38)) world0 in
  let below :=
    Occupy.adjustDiskUsage disk0 (Finite 20) (mkDiskInfo 0 (Finite 20)) world0 in
  ((Occupy.DiskPercent config0 - Finite 5 <=? Finite 38)%F = true
   /\ (Finite 38 <=? Occupy.DiskPercent config0 + Finite 5)%F = true
   /\ Occupy.files world0 = []
   /\ Occupy.files inside = [Occupy.mkFile "go_occupy_temp_1700000000_0.dat" 20])
  /\ ((Finite 20 <? Occupy.DiskPercent config0 - Finite 5)%F = true
      /\ uint64_of_float
           ((Occupy.DiskPercent config0 - Finite 20) / Finite 100 * float64 0)%F = 0
      /\ Occupy.files below = Occupy.files world0).
Proof. vm_compute. repeat split; discriminate. Qed.

(** The decisions are taken in float64. With a memory target of 59.9% and
    a measure of 64.9%, the measure as a number exceeds the target by more
    than 5, but the float sum of the target and 5 is the measure, and
    nothing is released. With a target of 50% and a measure of 21% of 100
    bytes, the amount to grow by, 29% of 100 bytes, comes out as 28
    bytes. *)
Example decisions_are_taken_in_float64 :
  let pool w :=
    Occupy.with_rm (Occupy.set_AllocatedMemory [100]) w in
  let w :=
    Occupy.mkWorld
      (Occupy.NewResourceMonitor
         (Occupy.mkConfig (round64 (599 # 10)) (Finite 30) (Finite 40) 5000000000))
      dir0 [] [] false in
  let current := round64 (649 # 10) in
  (exists target measure : Q,
      round64 (599 # 10) = Finite target /\ current = Finite measure
      /\ (target + 5 < measure)%Q)
  /\ (round64 (599 # 10) + Finite 5)%F = current
  /\ Occupy.adjustMemoryUsage current (mkMemInfo 1000 current) (pool w)
     = Occupy.record Occupy.CallAdjustMemory (pool w)
  /\ uint64_of_float
       ((Finite 50 - Finite 21) / Finite 100 * float64 100)%F = 28
  /\ Occupy.AllocatedMemory
       (Occupy.rm
          (Occupy.adjustMemoryUsage (Finite 21) (mkMemInfo 100 (Finite 21)) world0))
     = [28].
Proof.
  cbv zeta. split.
  - do 2 eexists. split; [vm_compute; reflexivity|].
    split; [vm_compute; reflexivity|]. vm_compute. reflexivity.
  - vm_compute. repeat split; reflexivity.
Qed.

(** ** Names of the padding files *)

Lemma string_length_append (a b : string) :
  String.length (a ++ b) = (String.length a + String.length b)%nat.
Proof. induction a as [|c a IH]; simpl; [reflexivity|]. rewrite IH. reflexivity. Qed.

Lemma substring_append_skip (a b : string) (n : nat) :
  String.substring (String.length a) n (a ++ b) = String.substring 0 n b.
Proof. induction a as [|c a IH]; simpl; [reflexivity|exact IH]. Qed.

Lemma hasSuffix_append (suffix a : string) :
  String.substring 0 (String.length suffix) suffix = suffix ->
  Occupy.hasSuffix suffix (a ++ suffix) = true.
Proof.
  intros Hs. unfold Occupy.hasSuffix. rewrite string_length_append.
  replace (String.length a + String.length suffix - String.length suffix)%nat
    with (String.length a) by lia.
  rewrite substring_append_skip, Hs, String.eqb_refl.
  destruct (Nat.leb_spec (String.length suffix) (String.length a + String.length suffix));
    [reflexivity|lia].
Qed.

Lemma string_append_assoc (a b c : string) : ((a ++ b) ++ c = a ++ (b ++ c))%string.
Proof. induction a as [|x a IH]; simpl; [reflexivity|]. rewrite IH. reflexivity. Qed.

(** Every name [createTempFiles] gives a file is found by the pattern of the
    cleanup. *)
Lemma tempFileName_globMatch (now fileIndex : Z) :
  Occupy.globMatch (Occupy.tempFileName now fileIndex) = true.
Proof.
  unfold Occupy.globMatch, Occupy.tempFileName.
  set (middle := (Occupy.decimal now ++ "_" ++ Occupy.decimal fileIndex)%string).
  replace ("go_occupy_temp_" ++ Occupy.decimal now ++ "_" ++ Occupy.decimal fileIndex ++ ".dat")%string
    with (("go_occupy_temp_" ++ middle) ++ ".dat")%string.
  2:{ unfold middle. rewrite !string_append_assoc. reflexivity. }
  rewrite hasSuffix_append by reflexivity.
  rewrite string_length_append, string_length_append.
  change (String.length "go_occupy_temp_") with 15%nat.
  change (String.length ".dat") with 4%nat.
  destruct (Nat.leb_spec 19 (15 + String.length middle + 4)); [|lia].
  rewrite string_append_assoc. simpl.
  destruct (middle ++ ".dat")%string; reflexivity.
Qed.

(** Splitting at the first occurrence of a character. *)
Lemma split_at_char (c : ascii) (a : string) :
  forall (a' r r' : string),
    lacks c a = true -> lacks c a' = true ->
    (a ++ String c r = a' ++ String c r')%string ->
    a = a' /\ r = r'.
Proof.
  induction a as [|x a IH]; intros a' r r' Ha Ha' H.
  - destruct a' as [|x' a']; simpl in *.
    + injection H as ->. split; reflexivity.
    + injection H as Hc _. subst x'. rewrite Ascii.eqb_refl in Ha'. discriminate Ha'.
  - destruct a' as [|x' a']; simpl in *.
    + injection H as Hc _. subst x. rewrite Ascii.eqb_refl in Ha. discriminate Ha.
    + injection H as -> H.
      destruct (Ascii.eqb c x'); [discriminate Ha|].
      destruct (IH a' r r' Ha Ha' H) as [-> ->]. split; reflexivity.
Qed.

Lemma lacks_digits (c : ascii) (d : Decimal.uint) :
  lacks c "0123456789" = true -> lacks c (NilEmpty.string_of_uint d) = true.
Proof.
  intros H. cbn [lacks] in H.
  repeat match type of H with
         | (if Ascii.eqb ?x ?y then _ else _) = true =>
             destruct (Ascii.eqb x y) eqn:?; [discriminate H|]
         end.
  induction d; cbn [NilEmpty.string_of_uint lacks]; try reflexivity;
    match goal with
    | E : Ascii.eqb _ ?y = false |- context [Ascii.eqb _ ?y] => rewrite E
    end; assumption.
Qed.

Lemma lacks_decimal (c : ascii) (n : Z) :
  lacks c "-0123456789" = true -> lacks c (Occupy.decimal n) = true.
Proof.
  intros H. cbn [lacks] in H. destruct (Ascii.eqb c "-") eqn:Hm; [discriminate H|].
  assert (Hu : forall d, lacks c (NilZero.string_of_uint d) = true).
  { intros d. destruct d; try (apply (lacks_digits c); exact H).
    cbn [NilZero.string_of_uint lacks].
    destruct (Ascii.eqb c "0") eqn:E; [discriminate H|reflexivity]. }
  unfold Occupy.decimal.
  destruct (Z.to_int n) as [d|d]; cbn [NilZero.string_of_int lacks]; [apply Hu|].
  rewrite Hm. apply Hu.
Qed.

Lemma decimal_inj (n n' : Z) : Occupy.decimal n = Occupy.decimal n' -> n = n'.
Proof.
  unfold Occupy.decimal. intros H. apply DecimalZ.to_int_inj.
  assert (Hisi : forall z, NilZero.int_of_string (NilZero.string_of_int (Z.to_int z))
                           = Some (Z.to_int z)).
  { intros z. apply NilZero.isi; destruct z; simpl; try discriminate;
      intros E; injection E as E; exact (Unsigned.to_uint_nonnil _ E). }
  pose proof (Hisi n) as H1. rewrite H, Hisi in H1. injection H1 as H1. symmetry. exact H1.
Qed.

(** The name of a padding file tells its index. *)
Lemma tempFileName_inj (now now' fileIndex fileIndex' : Z) :
  Occupy.tempFileName now fileIndex = Occupy.tempFileName now' fileIndex' ->
  fileIndex = fileIndex'.
Proof.
  unfold Occupy.tempFileName. intros H.
  apply (f_equal (fun s => String.substring 15 (String.length s - 15) s)) in H.
  assert (Hsub : forall s : string,
             String.substring 15
               (String.length ("go_occupy_temp_" ++ s) - 15) ("go_occupy_temp_" ++ s) = s).
  { intros s. rewrite string_length_append.
    change (String.length "go_occupy_temp_") with 15%nat.
    replace (15 + String.length s - 15)%nat with (String.length s) by lia.
    rewrite (substring_append_skip "go_occupy_temp_" s).
    clear. induction s as [|c s IH]; simpl; [reflexivity|]. rewrite IH. reflexivity. }
  rewrite !Hsub in H.
  apply (split_at_char "_") in H as [_ H];
    [|apply lacks_decimal; reflexivity|apply lacks_decimal; reflexivity].
  apply (split_at_char ".") in H as [H _];
    [|apply lacks_decimal; reflexivity|apply lacks_decimal; reflexivity].
  apply decimal_inj. exact H.
Qed.

Lemma planFrom_names (env : Occupy.DiskEnv) (sizes : list Z) :
  forall (fileIndex : Z) (f : Occupy.File),
    In f (planFrom env fileIndex sizes) ->
    exists j : Z,
      fileIndex <= j /\ Occupy.fname f = Occupy.tempFileName (Occupy.now env j) j.
Proof.
  induction sizes as [|s sizes IH]; intros fileIndex f Hin; [destruct Hin|].
  destruct Hin as [<-|Hin].
  - exists fileIndex. split; [lia|reflexivity].
  - apply IH in Hin as (j & Hj & Hn). exists j. split; [lia|exact Hn].
Qed.

Lemma planFrom_NoDup (env : Occupy.DiskEnv) (sizes : list Z) :
  forall fileIndex : Z, NoDup (map Occupy.fname (planFrom env fileIndex sizes)).
Proof.
  induction sizes as [|s sizes IH]; intros fileIndex; [constructor|].
  simpl. apply NoDup_cons_2; [|apply IH].
  rewrite list_elem_of_In. intros Hin. apply in_map_iff in Hin as (f & Hf & Hin).
  apply planFrom_names in Hin as (j & Hj & Hn). rewrite Hn in Hf.
  apply tempFileName_inj in Hf. lia.
Qed.

Lemma osCreate_fresh (name : string) (fs : list Occupy.File) :
  ~ In name (map Occupy.fname fs) ->
  forall n : Z,
    Occupy.osWrite name n (Occupy.osCreate name fs) = fs ++ [Occupy.mkFile name n].
Proof.
  intros Hfresh n. unfold Occupy.osCreate.
  assert (Hmap : map (fun f => if String.eqb (Occupy.fname f) name
                               then Occupy.mkFile name n else f) fs = fs).
  { induction fs as [|f fs IH]; [reflexivity|]. simpl in *.
    destruct (String.eqb_spec (Occupy.fname f) name) as [E|E]; [tauto|].
    rewrite IH by tauto. reflexivity. }
  assert (Hex : existsb (fun f => String.eqb (Occupy.fname f) name) fs = false).
  { apply Bool.not_true_is_false. intros Hex. apply existsb_exists in Hex as (f & Hf & E).
    apply String.eqb_eq in E. apply Hfresh. rewrite <- E. apply in_map. exact Hf. }
  rewrite Hex. unfold Occupy.osWrite. rewrite map_app, Hmap. simpl.
  rewrite String.eqb_refl. reflexivity.
Qed.

(** In a directory that holds none of the names, the plan is appended. *)
Lemma writeAll_fresh (plan : list Occupy.File) :
  forall fs : list Occupy.File,
    NoDup (map Occupy.fname plan) ->
    (forall f, In f plan -> ~ In (Occupy.fname f) (map Occupy.fname fs)) ->
    writeAll plan fs = fs ++ plan.
Proof.
  induction plan as [|f plan IH]; intros fs Hnd Hfresh.
  - simpl. rewrite app_nil_r. reflexivity.
  - simpl in Hnd. apply NoDup_cons in Hnd as [Hf Hnd].
    unfold writeAll. simpl. fold (writeAll plan).
    rewrite osCreate_fresh by (apply Hfresh; left; reflexivity).
    rewrite IH.
    + rewrite <- app_assoc. destruct f. reflexivity.
    + exact Hnd.
    + intros g Hg Hin. rewrite map_app in Hin. apply in_app_or in Hin as [Hin|Hin].
      * exact (Hfresh g (or_intror Hg) Hin).
      * simpl in Hin. destruct Hin as [E|[]]. apply Hf. rewrite E.
        apply list_elem_of_In, in_map. exact Hg.
Qed.

(** ** Disk grow ([createTempFiles]) *)

Lemma fileSize_pos : 0 < Occupy.fileSize < 2 ^ 64.
Proof. unfold Occupy.fileSize. lia. Qed.

Lemma createLoop_done (env : Occupy.DiskEnv) (fuel : nat) (fileIndex : Z)
  (fs : list Occupy.File) :
  Occupy.createLoop env fuel 0 fileIndex fs = (0, fs).
Proof. destruct fuel; reflexivity. Qed.

Lemma createLoop_spec (env : Occupy.DiskEnv) (fuel : nat) :
  diskHealthy env ->
  forall (r fileIndex : Z) (fs : list Occupy.File),
    0 <= r < 2 ^ 64 ->
    (Z.to_nat (r / Occupy.fileSize) < fuel)%nat ->
    Occupy.createLoop env fuel r fileIndex fs =
    (0, writeAll (planFrom env fileIndex (piecesOf Occupy.fileSize r)) fs).
Proof.
  intros (_ & Hcreate & Hwrite & _). pose proof fileSize_pos as Hc.
  induction fuel as [|fuel IH]; intros r fileIndex fs Hr Hf; [lia|].
  simpl. rewrite Hcreate, Hwrite.
  destruct (Z.ltb_spec 0 r) as [Hpos|Hz].
  - destruct (Z.ltb_spec r Occupy.fileSize) as [Hlt|Hge].
    + rewrite Z.sub_diag. change (u64 0) with 0.
      rewrite createLoop_done, piecesOf_small by lia. reflexivity.
    + rewrite u64_small by lia.
      assert (1 <= r / Occupy.fileSize) by (apply Z.div_le_lower_bound; lia).
      rewrite IH.
      * rewrite (piecesOf_step Occupy.fileSize ltac:(lia) r) by lia. reflexivity.
      * lia.
      * rewrite div_step by lia. lia.
  - assert (r = 0) by lia. subst r. rewrite piecesOf_zero by lia. reflexivity.
Qed.

Lemma planFrom_sizes (env : Occupy.DiskEnv) (sizes : list Z) :
  forall fileIndex : Z, map Occupy.fsize (planFrom env fileIndex sizes) = sizes.
Proof.
  induction sizes as [|s sizes IH]; intros fileIndex; [reflexivity|].
  simpl. rewrite IH. reflexivity.
Qed.

(** C6: when no disk operation fails, [createTempFiles] runs its loop to the
    end and writes one file per piece of the request: files of exactly 5GB,
    then one file with the remainder if there is one, their sizes summing
    to the request and their names all different; a directory without
    padding files holds exactly these files more afterwards; for 12GB they
    are three files of 5GB, 5GB and 2GB. *)
Theorem C6_createTempFiles_split (env : Occupy.DiskEnv) (targetBytes : Z)
  (fs : list Occupy.File) :
  diskHealthy env ->
  0 <= targetBytes < 2 ^ 64 ->
  let written := planFrom env 0 (piecesOf Occupy.fileSize targetBytes) in
  fst (Occupy.createLoop env (Occupy.createFuel targetBytes) targetBytes 0 fs) = 0
  /\ Occupy.createTempFiles env targetBytes fs = writeAll written fs
  /\ (exists (n : nat) (last : list Z),
        map Occupy.fsize written = repeat Occupy.fileSize n ++ last
        /\ (last = [] \/ exists c, last = [c] /\ 0 < c < Occupy.fileSize))
  /\ sumZ (map Occupy.fsize written) = targetBytes
  /\ NoDup (map Occupy.fname written)
  /\ ((forall f, In f fs -> Occupy.globMatch (Occupy.fname f) = false) ->
      Occupy.createTempFiles env targetBytes fs = fs ++ written)
  /\ (targetBytes = 12 * GB ->
      Occupy.fileSize = 5 * GB
      /\ map Occupy.fsize written = [5 * GB; 5 * GB; 2 * GB]).
Proof.
  intros Hh Hb written. pose proof fileSize_pos as Hc.
  assert (Hloop : Occupy.createLoop env (Occupy.createFuel targetBytes) targetBytes 0 fs
                  = (0, writeAll written fs)).
  { apply createLoop_spec; [exact Hh|exact Hb|]. unfold Occupy.createFuel. lia. }
  assert (Hcreate : Occupy.createTempFiles env targetBytes fs = writeAll written fs).
  { unfold Occupy.createTempFiles. destruct Hh as (-> & _). rewrite Hloop. reflexivity. }
  unfold written at 2 3 5. rewrite planFrom_sizes.
  split; [rewrite Hloop; reflexivity|].
  split; [exact Hcreate|].
  split; [apply piecesOf_shape; lia|].
  split; [apply piecesOf_sum; lia|].
  split; [apply planFrom_NoDup|].
  split.
  - intros Hnone. rewrite Hcreate. apply writeAll_fresh; [apply planFrom_NoDup|].
    intros f Hf Hin. apply in_map_iff in Hin as (g & Hg & Hin).
    apply planFrom_names in Hf as (j & _ & Hn).
    apply Hnone in Hin. rewrite Hg, Hn, tempFileName_globMatch in Hin. discriminate Hin.
  - intros ->. split; vm_compute; reflexivity.
Qed.

Lemma disk0_healthy : diskHealthy disk0.
Proof. repeat split. Qed.

Lemma C6_createTempFiles_split_witness :
  diskHealthy disk0
  /\ 0 <= 12 * GB < 2 ^ 64
  /\ Occupy.createTempFiles disk0 (12 * GB) []
     = [Occupy.mkFile "go_occupy_temp_1700000000_0.dat" (5 * GB);
        Occupy.mkFile "go_occupy_temp_1700000000_1.dat" (5 * GB);
        Occupy.mkFile "go_occupy_temp_1700000000_2.dat" (2 * GB)].
Proof.
  assert (Hb : 0 <= 12 * GB < 2 ^ 64) by (unfold GB; lia).
  split; [exact disk0_healthy|]. split; [exact Hb|].
  pose proof (C6_createTempFiles_split disk0 (12 * GB) [] disk0_healthy Hb)
    as (_ & H & _).
  rewrite H. vm_compute. reflexivity.
Defined.

(** ** Cleanup of the padding files *)

Lemma removeAll_In (env : Occupy.DiskEnv) (matches : list string) :
  forall (fs : list Occupy.File) (f : Occupy.File),
    In f (fst (Occupy.removeAll env matches fs)) ->
    In f fs
    /\ (In (Occupy.fname f) matches -> Occupy.removeErr env (Occupy.fname f) = true).
Proof.
  unfold Occupy.removeAll. generalize 0.
  induction matches as [|a matches IH]; intros count fs f Hin.
  - simpl in Hin. split; [exact Hin|intros []].
  - simpl in Hin. unfold Occupy.osRemove in Hin at 2.
    destruct (Occupy.removeErr env a) eqn:Ea.
    + apply IH in Hin as [Hfs Hm]. split; [exact Hfs|].
      intros [<-|Hrest]; [exact Ea|exact (Hm Hrest)].
    + apply IH in Hin as [Hfs Hm].
      apply filter_In in Hfs as [Hfs Hneq]. split; [exact Hfs|].
      intros [Heq|Hrest]; [|exact (Hm Hrest)].
      rewrite <- Heq, String.eqb_refl in Hneq. discriminate Hneq.
Qed.

(** What [filepath.Glob] returns: the padding files of the directory when
    it finds the directory, and nothing or an error when it does not. *)
Lemma Glob_found (dir : Occupy.TempDir) (env : Occupy.DiskEnv) (fs : list Occupy.File) :
  globFinds dir env = true ->
  Occupy.Glob dir env fs
  = Ok (map Occupy.fname (List.filter (fun f => Occupy.globMatch (Occupy.fname f)) fs)).
Proof.
  unfold globFinds, Occupy.Glob.
  destruct (Occupy.readDirErr env); [discriminate|]. cbn [negb andb].
  destruct (Occupy.hasMeta (Occupy.tempPath dir)); [|reflexivity].
  destruct (Occupy.globDir dir); [reflexivity|discriminate|discriminate].
Qed.

Lemma Glob_missed (dir : Occupy.TempDir) (env : Occupy.DiskEnv) (fs : list Occupy.File) :
  globFinds dir env = false ->
  Occupy.Glob dir env fs = Ok [] \/ Occupy.Glob dir env fs = Err.
Proof.
  unfold globFinds, Occupy.Glob.
  destruct (Occupy.readDirErr env); cbn [negb andb].
  - intros _. destruct (Occupy.hasMeta (Occupy.tempPath dir)); [|auto].
    destruct (Occupy.globDir dir); auto.
  - destruct (Occupy.hasMeta (Occupy.tempPath dir)); [|discriminate].
    destruct (Occupy.globDir dir); [discriminate|auto|auto].
Qed.

(** The two cleanups of the source are the same function. *)
Lemma cleanupTempFiles_all (dir : Occupy.TempDir) (env : Occupy.DiskEnv)
  (fs : list Occupy.File) :
  Occupy.cleanupTempFiles dir env fs = Occupy.cleanupAllTempFiles dir env fs.
Proof. reflexivity. Qed.

(** Where the pattern does not find the directory, the cleanup deletes
    nothing. *)
Lemma cleanupAllTempFiles_missed (dir : Occupy.TempDir) (env : Occupy.DiskEnv)
  (fs : list Occupy.File) :
  globFinds dir env = false -> Occupy.cleanupAllTempFiles dir env fs = fs.
Proof.
  intros H. unfold Occupy.cleanupAllTempFiles.
  destruct (Glob_missed dir env fs H) as [-> | ->]; reflexivity.
Qed.

(** After the cleanup, a file that the pattern finds is one that [os.Remove]
    refused to delete. *)
Lemma cleanupAllTempFiles_spec (dir : Occupy.TempDir) (env : Occupy.DiskEnv)
  (fs : list Occupy.File) (f : Occupy.File) :
  globFinds dir env = true ->
  In f (Occupy.cleanupAllTempFiles dir env fs) ->
  Occupy.globMatch (Occupy.fname f) = true ->
  Occupy.removeErr env (Occupy.fname f) = true.
Proof.
  intros Hdir Hin Hmatch. unfold Occupy.cleanupAllTempFiles in Hin.
  rewrite (Glob_found dir env fs Hdir) in Hin.
  apply removeAll_In in Hin as [Hfs Hm]. apply Hm.
  apply in_map, filter_In. split; assumption.
Qed.

(** ** One tick of the monitor *)

Ltac case_ifs :=
  repeat match goal with
         | |- context [if ?b then _ else _] => destruct b eqn:?
         | |- context [match ?l with [] => _ | _ :: _ => _ end] => destruct l eqn:?
         end.

Lemma adjustDiskUsage_rm (env : Occupy.DiskEnv) (current : F64) (diskInfo : UsageStat)
  (w : Occupy.World) :
  Occupy.rm (Occupy.adjustDiskUsage env current diskInfo w) = Occupy.rm w.
Proof. unfold Occupy.adjustDiskUsage. case_ifs; reflexivity. Qed.

Lemma adjustDiskUsage_calls (env : Occupy.DiskEnv) (current : F64) (diskInfo : UsageStat)
  (w : Occupy.World) :
  Occupy.calls (Occupy.adjustDiskUsage env current diskInfo w)
  = Occupy.calls w ++ [Occupy.CallAdjustDisk].
Proof. unfold Occupy.adjustDiskUsage. case_ifs; reflexivity. Qed.

Lemma releaseMemory_stop (current : F64) (memInfo : VirtualMemoryStat)
  (m : Occupy.ResourceMonitor) :
  Occupy.stop (Occupy.releaseMemory current memInfo m) = Occupy.stop m.
Proof. unfold Occupy.releaseMemory. destruct (Occupy.AllocatedMemory m); reflexivity. Qed.

Lemma adjustMemoryUsage_stop (current : F64) (memInfo : VirtualMemoryStat) (w : Occupy.World) :
  Occupy.stop (Occupy.rm (Occupy.adjustMemoryUsage current memInfo w))
  = Occupy.stop (Occupy.rm w).
Proof.
  unfold Occupy.adjustMemoryUsage. case_ifs; try reflexivity.
  apply releaseMemory_stop.
Qed.

Lemma adjustMemoryUsage_calls (current : F64) (memInfo : VirtualMemoryStat) (w : Occupy.World) :
  Occupy.calls (Occupy.adjustMemoryUsage current memInfo w)
  = Occupy.calls w ++ [Occupy.CallAdjustMemory].
Proof. unfold Occupy.adjustMemoryUsage. case_ifs; reflexivity. Qed.

Lemma adjustMemoryUsage_files (current : F64) (memInfo : VirtualMemoryStat) (w : Occupy.World) :
  Occupy.files (Occupy.adjustMemoryUsage current memInfo w) = Occupy.files w.
Proof. unfold Occupy.adjustMemoryUsage. case_ifs; reflexivity. Qed.

Lemma adjustCPUUsage_calls (NumCPU : positive) (current : F64) (w : Occupy.World) :
  Occupy.calls (Occupy.adjustCPUUsage NumCPU current w)
  = Occupy.calls w ++ [Occupy.CallAdjustCPU].
Proof. unfold Occupy.adjustCPUUsage. case_ifs; reflexivity. Qed.

Lemma adjustCPUUsage_files (NumCPU : positive) (current : F64) (w : Occupy.World) :
  Occupy.files (Occupy.adjustCPUUsage NumCPU current w) = Occupy.files w.
Proof. unfold Occupy.adjustCPUUsage. case_ifs; reflexivity. Qed.

Lemma arrive_calls (env : Occupy.TickEnv) (k : nat) (w : Occupy.World) :
  Occupy.calls (Occupy.arrive env k w) = Occupy.calls w.
Proof. unfold Occupy.arrive. destruct (Occupy.stopAt env); case_ifs; reflexivity. Qed.

Lemma arrive_files (env : Occupy.TickEnv) (k : nat) (w : Occupy.World) :
  Occupy.files (Occupy.arrive env k w) = Occupy.files w.
Proof. unfold Occupy.arrive. destruct (Occupy.stopAt env); case_ifs; reflexivity. Qed.

Lemma panic_calls (w : Occupy.World) : Occupy.calls (Occupy.panic w) = Occupy.calls w.
Proof. reflexivity. Qed.

Lemma panic_files (w : Occupy.World) : Occupy.files (Occupy.panic w) = Occupy.files w.
Proof. reflexivity. Qed.

Lemma panic_rm (w : Occupy.World) : Occupy.rm (Occupy.panic w) = Occupy.rm w.
Proof. reflexivity. Qed.

Lemma panic_tempDir (w : Occupy.World) :
  Occupy.tempDir (Occupy.panic w) = Occupy.tempDir w.
Proof. reflexivity. Qed.

Lemma arrive_tempDir (env : Occupy.TickEnv) (k : nat) (w : Occupy.World) :
  Occupy.tempDir (Occupy.arrive env k w) = Occupy.tempDir w.
Proof. unfold Occupy.arrive. destruct (Occupy.stopAt env); case_ifs; reflexivity. Qed.

Lemma arrive_panicked (env : Occupy.TickEnv) (k : nat) (w : Occupy.World) :
  Occupy.panicked (Occupy.arrive env k w) = Occupy.panicked w.
Proof. unfold Occupy.arrive. destruct (Occupy.stopAt env); case_ifs; reflexivity. Qed.

Lemma adjustDiskUsage_tempDir (env : Occupy.DiskEnv) (current : F64)
  (diskInfo : UsageStat) (w : Occupy.World) :
  Occupy.tempDir (Occupy.adjustDiskUsage env current diskInfo w) = Occupy.tempDir w.
Proof. unfold Occupy.adjustDiskUsage. case_ifs; reflexivity. Qed.

Lemma adjustDiskUsage_panicked (env : Occupy.DiskEnv) (current : F64)
  (diskInfo : UsageStat) (w : Occupy.World) :
  Occupy.panicked (Occupy.adjustDiskUsage env current diskInfo w) = Occupy.panicked w.
Proof. unfold Occupy.adjustDiskUsage. case_ifs; reflexivity. Qed.

Lemma adjustMemoryUsage_tempDir (current : F64) (memInfo : VirtualMemoryStat)
  (w : Occupy.World) :
  Occupy.tempDir (Occupy.adjustMemoryUsage current memInfo w) = Occupy.tempDir w.
Proof. unfold Occupy.adjustMemoryUsage. case_ifs; reflexivity. Qed.

Lemma adjustMemoryUsage_panicked (current : F64) (memInfo : VirtualMemoryStat)
  (w : Occupy.World) :
  Occupy.panicked (Occupy.adjustMemoryUsage current memInfo w) = Occupy.panicked w.
Proof. unfold Occupy.adjustMemoryUsage. case_ifs; reflexivity. Qed.

Lemma adjustCPUUsage_tempDir (NumCPU : positive) (current : F64) (w : Occupy.World) :
  Occupy.tempDir (Occupy.adjustCPUUsage NumCPU current w) = Occupy.tempDir w.
Proof. unfold Occupy.adjustCPUUsage. case_ifs; reflexivity. Qed.

Lemma adjustCPUUsage_panicked (NumCPU : positive) (current : F64) (w : Occupy.World) :
  Occupy.panicked (Occupy.adjustCPUUsage NumCPU current w) = Occupy.panicked w.
Proof. unfold Occupy.adjustCPUUsage. case_ifs; reflexivity. Qed.

Lemma arrive_rm (env : Occupy.TickEnv) (k : nat) (w : Occupy.World) :
  Occupy.rm (Occupy.arrive env k w) = Occupy.rm w
  \/ Occupy.rm (Occupy.arrive env k w) = Occupy.set_stop true (Occupy.rm w).
Proof.
  unfold Occupy.arrive. destruct (Occupy.stopAt env); case_ifs; auto.
Qed.

Lemma arrive_none (env : Occupy.TickEnv) (k : nat) (w : Occupy.World) :
  Occupy.stopAt env = None -> Occupy.arrive env k w = w.
Proof. intros H. unfold Occupy.arrive. rewrite H. reflexivity. Qed.

Lemma checkStop_open (env : Occupy.TickEnv) (k : nat) (w : Occupy.World)
  (continue : Occupy.World -> Occupy.World) :
  Occupy.stopAt env = None -> Occupy.stop (Occupy.rm w) = false ->
  Occupy.checkStop env k w continue = continue w.
Proof.
  intros Hn Hs. unfold Occupy.checkStop. rewrite arrive_none by exact Hn.
  rewrite Hs. reflexivity.
Qed.

(** Proving a property of a tick check by check. *)
Lemma checkStop_ind (P : Occupy.World -> Prop) (env : Occupy.TickEnv) (k : nat)
  (w : Occupy.World) (continue : Occupy.World -> Occupy.World) :
  P (Occupy.arrive env k w) ->
  (Occupy.stop (Occupy.rm (Occupy.arrive env k w)) = false ->
   P (continue (Occupy.arrive env k w))) ->
  P (Occupy.checkStop env k w continue).
Proof.
  intros Hstop Hgo. unfold Occupy.checkStop.
  destruct (Occupy.stop (Occupy.rm (Occupy.arrive env k w))); auto.
Qed.

(** A tick on a closed [stop] channel does nothing. *)
Lemma monitorAndAdjust_stopped (env : Occupy.TickEnv) (w : Occupy.World) :
  Occupy.stop (Occupy.rm w) = true -> Occupy.monitorAndAdjust env w = w.
Proof.
  intros Hs. unfold Occupy.monitorAndAdjust, Occupy.checkStop.
  assert (Ha : Occupy.arrive env 0 w = w).
  { unfold Occupy.arrive. destruct (Occupy.stopAt env); [|reflexivity].
    case_ifs; [|reflexivity]. destruct w as [m d fs cs p]. destruct m. simpl in *.
    subst. reflexivity. }
  rewrite Ha, Hs. reflexivity.
Qed.

(** What a tick without interruption and without sampling error does. *)
Lemma monitorAndAdjust_full (env : Occupy.TickEnv) (w : Occupy.World)
  (memInfo memInfoAfterDisk : VirtualMemoryStat) (currentCPUPercent : F64)
  (others : list F64) (diskInfo : UsageStat) :
  Occupy.stopAt env = None -> Occupy.stop (Occupy.rm w) = false ->
  Occupy.VirtualMemory env = Ok memInfo ->
  Occupy.Percent env = Ok (currentCPUPercent :: others) ->
  Occupy.Usage env = Ok diskInfo ->
  Occupy.VirtualMemoryAfterDisk env = Ok memInfoAfterDisk ->
  Occupy.monitorAndAdjust env w =
  Occupy.adjustCPUUsage (Occupy.NumCPU env) currentCPUPercent
    (Occupy.adjustMemoryUsage (mem_UsedPercent memInfoAfterDisk) memInfoAfterDisk
       (Occupy.adjustDiskUsage (Occupy.disk env) (disk_UsedPercent diskInfo) diskInfo w)).
Proof.
  intros Hn Hs Hm Hc Hd Hm2. unfold Occupy.monitorAndAdjust.
  rewrite Hm, Hc, Hd, Hm2.
  rewrite !checkStop_open; try assumption; try reflexivity.
  - rewrite adjustMemoryUsage_stop, adjustDiskUsage_rm. exact Hs.
  - rewrite adjustDiskUsage_rm. exact Hs.
  - rewrite adjustDiskUsage_rm. exact Hs.
  - rewrite adjustDiskUsage_rm. exact Hs.
Qed.

Create Rewrite HintDb tick.

#[local] Hint Rewrite panic_calls panic_files panic_tempDir
  arrive_calls arrive_files arrive_tempDir arrive_panicked
  adjustDiskUsage_calls adjustDiskUsage_tempDir adjustDiskUsage_panicked
  adjustMemoryUsage_calls adjustMemoryUsage_files adjustMemoryUsage_tempDir
  adjustMemoryUsage_panicked adjustCPUUsage_calls adjustCPUUsage_files
  adjustCPUUsage_tempDir adjustCPUUsage_panicked : tick.

Lemma rmQuiet_refl (m : Occupy.ResourceMonitor) : rmQuiet m m.
Proof. left. reflexivity. Qed.

Lemma rmQuiet_arrive (env : Occupy.TickEnv) (k : nat) (m : Occupy.ResourceMonitor)
  (w : Occupy.World) :
  rmQuiet m (Occupy.rm w) -> rmQuiet m (Occupy.rm (Occupy.arrive env k w)).
Proof.
  intros [H|H]; destruct (arrive_rm env k w) as [Ha|Ha]; rewrite Ha, H.
  - left. reflexivity.
  - right. reflexivity.
  - right. reflexivity.
  - right. destruct m. reflexivity.
Qed.

Ltac rm_quiet :=
  repeat first [apply rmQuiet_arrive | rewrite adjustDiskUsage_rm | rewrite panic_rm];
  apply rmQuiet_refl.

Ltac tick_log l :=
  exists l; split;
  [autorewrite with tick; rewrite <- ?app_assoc, ?app_nil_r; reflexivity
  |unfold tickCalls; auto].

(** Every tick logs its adjustments in one order: disk, memory, CPU. *)
Lemma monitorAndAdjust_calls (env : Occupy.TickEnv) (w : Occupy.World) :
  tickLog w (Occupy.monitorAndAdjust env w).
Proof.
  unfold Occupy.monitorAndAdjust.
  apply (checkStop_ind (tickLog w)); [tick_log (@nil Occupy.Call)|intros _].
  destruct (Occupy.VirtualMemory env); [|tick_log (@nil Occupy.Call)].
  apply (checkStop_ind (tickLog w)); [tick_log (@nil Occupy.Call)|intros _].
  destruct (Occupy.Percent env); [|tick_log (@nil Occupy.Call)].
  apply (checkStop_ind (tickLog w)); [tick_log (@nil Occupy.Call)|intros _].
  destruct (Occupy.Usage env); [|tick_log (@nil Occupy.Call)].
  apply (checkStop_ind (tickLog w)); [tick_log (@nil Occupy.Call)|intros _].
  destruct a0 as [|currentCPUPercent others]; [tick_log (@nil Occupy.Call)|].
  apply (checkStop_ind (tickLog w)); [tick_log [Occupy.CallAdjustDisk]|intros _].
  apply (checkStop_ind (tickLog w)); [tick_log [Occupy.CallAdjustDisk]|intros _].
  destruct (Occupy.VirtualMemoryAfterDisk env); [|tick_log [Occupy.CallAdjustDisk]].
  apply (checkStop_ind (tickLog w)); [tick_log [Occupy.CallAdjustDisk]|intros _].
  apply (checkStop_ind (tickLog w));
    [tick_log [Occupy.CallAdjustDisk; Occupy.CallAdjustMemory]|intros _].
  tick_log [Occupy.CallAdjustDisk; Occupy.CallAdjustMemory; Occupy.CallAdjustCPU].
Qed.

Ltac be_quiet :=
  split; [autorewrite with tick; reflexivity|];
  split; [autorewrite with tick; reflexivity|];
  split; [rm_quiet|];
  split; autorewrite with tick; reflexivity.

(** A tick in which one of the three samples fails adjusts nothing. *)
Lemma monitorAndAdjust_sampling_error (env : Occupy.TickEnv) (w : Occupy.World) :
  Occupy.VirtualMemory env = Err \/ Occupy.Percent env = Err \/ Occupy.Usage env = Err ->
  quiet w (Occupy.monitorAndAdjust env w).
Proof.
  intros Herr. unfold Occupy.monitorAndAdjust.
  apply (checkStop_ind (quiet w)); [be_quiet|intros _].
  destruct (Occupy.VirtualMemory env); [|be_quiet].
  apply (checkStop_ind (quiet w)); [be_quiet|intros _].
  destruct (Occupy.Percent env); [|be_quiet].
  apply (checkStop_ind (quiet w)); [be_quiet|intros _].
  destruct (Occupy.Usage env); [|be_quiet].
  destruct Herr as [H|[H|H]]; discriminate H.
Qed.

Ltac only_disk :=
  split; [first [left; autorewrite with tick; reflexivity
                |right; autorewrite with tick; reflexivity]
         |rm_quiet].

(** A tick whose second memory sample fails adjusts neither memory nor CPU. *)
Lemma monitorAndAdjust_resample_error (env : Occupy.TickEnv) (w : Occupy.World) :
  Occupy.VirtualMemoryAfterDisk env = Err ->
  onlyDisk w (Occupy.monitorAndAdjust env w).
Proof.
  intros Herr. unfold Occupy.monitorAndAdjust.
  apply (checkStop_ind (onlyDisk w)); [only_disk|intros _].
  destruct (Occupy.VirtualMemory env); [|only_disk].
  apply (checkStop_ind (onlyDisk w)); [only_disk|intros _].
  destruct (Occupy.Percent env); [|only_disk].
  apply (checkStop_ind (onlyDisk w)); [only_disk|intros _].
  destruct (Occupy.Usage env); [|only_disk].
  apply (checkStop_ind (onlyDisk w)); [only_disk|intros _].
  destruct a0 as [|currentCPUPercent others]; [only_disk|].
  apply (checkStop_ind (onlyDisk w)); [only_disk|intros _].
  apply (checkStop_ind (onlyDisk w)); [only_disk|intros _].
  rewrite Herr. only_disk.
Qed.

Lemma quiet_cases (w w' : Occupy.World) :
  quiet w w' -> w' = w \/ w' = Occupy.with_rm (Occupy.set_stop true) w.
Proof.
  intros (Hf & Hc & [Hr|Hr] & Hd & Hp);
    destruct w as [m d fs cs p], w' as [m' d' fs' cs' p'];
    simpl in *; subst; [left|right]; reflexivity.
Qed.

Lemma monitorAndAdjust_full_calls (env : Occupy.TickEnv) (w : Occupy.World)
  (memInfo memInfoAfterDisk : VirtualMemoryStat) (currentCPUPercent : F64)
  (others : list F64) (diskInfo : UsageStat) :
  Occupy.stopAt env = None -> Occupy.stop (Occupy.rm w) = false ->
  Occupy.VirtualMemory env = Ok memInfo ->
  Occupy.Percent env = Ok (currentCPUPercent :: others) ->
  Occupy.Usage env = Ok diskInfo ->
  Occupy.VirtualMemoryAfterDisk env = Ok memInfoAfterDisk ->
  Occupy.calls (Occupy.monitorAndAdjust env w) =
  Occupy.calls w
  ++ [Occupy.CallAdjustDisk; Occupy.CallAdjustMemory; Occupy.CallAdjustCPU].
Proof.
  intros Hn Hs Hm Hc Hd Hm2.
  rewrite (monitorAndAdjust_full env w memInfo memInfoAfterDisk currentCPUPercent
             others diskInfo) by assumption.
  autorewrite with tick. rewrite <- !app_assoc. reflexivity.
Qed.

(** C7: a tick of the package in which every sample succeeds and nothing
    closes [stop] (memory, CPU and disk all below their targets) calls the
    disk adjustment, then the memory adjustment, then the CPU adjustment:
    memory is adjusted before CPU. *)
Example C7_tick_adjusts_memory_before_cpu :
  Occupy.calls world0 = []
  /\ Occupy.calls (Occupy.monitorAndAdjust tick0 world0) =
     [Occupy.CallAdjustDisk; Occupy.CallAdjustMemory; Occupy.CallAdjustCPU].
Proof. vm_compute. split; reflexivity. Qed.

Lemma monitorAndAdjust_error_noop (env : Occupy.TickEnv) (w : Occupy.World) :
  Occupy.VirtualMemory env = Err \/ Occupy.Percent env = Err \/ Occupy.Usage env = Err ->
  Occupy.stopAt env = None ->
  Occupy.monitorAndAdjust env w = w.
Proof.
  intros Herr Hn.
  destruct (Occupy.stop (Occupy.rm w)) eqn:Hs;
    [apply monitorAndAdjust_stopped; exact Hs|].
  unfold Occupy.monitorAndAdjust.
  rewrite checkStop_open by assumption.
  destruct (Occupy.VirtualMemory env); [|reflexivity].
  rewrite checkStop_open by assumption.
  destruct (Occupy.Percent env); [|reflexivity].
  rewrite checkStop_open by assumption.
  destruct (Occupy.Usage env); [|reflexivity].
  destruct Herr as [H|[H|H]]; discriminate H.
Qed.

(** What a failed sample does to a tick and to the loop: when one of the
    three samples of a tick fails, the tick adjusts nothing (the files, the
    call log and the monitor are as before, except that [stop] may have
    been closed meanwhile); when the second memory sample fails, neither
    memory nor CPU is adjusted; in both cases the loop goes on with the
    rest of its schedule. *)
Lemma sampling_error_skips_tick (env : Occupy.TickEnv) (w : Occupy.World)
  (rest : list Occupy.Select) :
  let w' := Occupy.monitorAndAdjust env w in
  (Occupy.VirtualMemory env = Err \/ Occupy.Percent env = Err \/ Occupy.Usage env = Err ->
   Occupy.files w' = Occupy.files w
   /\ Occupy.calls w' = Occupy.calls w
   /\ (w' = w \/ w' = Occupy.with_rm (Occupy.set_stop true) w)
   /\ (Occupy.stopAt env = None -> Occupy.panicked w = false ->
       Occupy.startLoop (Occupy.TickerFires env :: rest) w = Occupy.startLoop rest w))
  /\ (Occupy.VirtualMemoryAfterDisk env = Err ->
      (Occupy.calls w' = Occupy.calls w
       \/ Occupy.calls w' = Occupy.calls w ++ [Occupy.CallAdjustDisk])
      /\ (Occupy.rm w' = Occupy.rm w
          \/ Occupy.rm w' = Occupy.set_stop true (Occupy.rm w)))
  /\ (Occupy.panicked w = false ->
      Occupy.startLoop (Occupy.TickerFires env :: rest) w = Occupy.startLoop rest w').
Proof.
  intros w'. split; [|split].
  - intros Herr.
    pose proof (monitorAndAdjust_sampling_error env w Herr) as Hq.
    pose proof Hq as (Hf & Hc & _).
    repeat split; [exact Hf|exact Hc|apply quiet_cases; exact Hq|].
    intros Hn Hp. simpl. rewrite Hp.
    rewrite monitorAndAdjust_error_noop by assumption. reflexivity.
  - intros Herr. exact (monitorAndAdjust_resample_error env w Herr).
  - intros Hp. simpl. rewrite Hp. reflexivity.
Qed.

(** A tick panics on one input only: a CPU sample that succeeds with an
    empty slice. *)
Lemma monitorAndAdjust_panicked (env : Occupy.TickEnv) (w : Occupy.World) :
  Occupy.panicked (Occupy.monitorAndAdjust env w) = true ->
  Occupy.panicked w = true \/ Occupy.Percent env = Ok [].
Proof.
  unfold Occupy.monitorAndAdjust.
  set (P := fun w' : Occupy.World =>
              Occupy.panicked w' = true ->
              Occupy.panicked w = true \/ Occupy.Percent env = Ok []).
  assert (Hst : forall w', Occupy.panicked w' = Occupy.panicked w -> P w').
  { intros w' E H. left. rewrite <- E. exact H. }
  apply (checkStop_ind P); [apply Hst; autorewrite with tick; reflexivity|intros _].
  destruct (Occupy.VirtualMemory env); [|apply Hst; autorewrite with tick; reflexivity].
  apply (checkStop_ind P); [apply Hst; autorewrite with tick; reflexivity|intros _].
  destruct (Occupy.Percent env) as [cpuPercent|];
    [|apply Hst; autorewrite with tick; reflexivity].
  apply (checkStop_ind P); [apply Hst; autorewrite with tick; reflexivity|intros _].
  destruct (Occupy.Usage env); [|apply Hst; autorewrite with tick; reflexivity].
  apply (checkStop_ind P); [apply Hst; autorewrite with tick; reflexivity|intros _].
  destruct cpuPercent as [|currentCPUPercent others]; [intros _; right; reflexivity|].
  apply (checkStop_ind P); [apply Hst; autorewrite with tick; reflexivity|intros _].
  apply (checkStop_ind P); [apply Hst; autorewrite with tick; reflexivity|intros _].
  destruct (Occupy.VirtualMemoryAfterDisk env);
    [|apply Hst; autorewrite with tick; reflexivity].
  apply (checkStop_ind P); [apply Hst; autorewrite with tick; reflexivity|intros _].
  apply (checkStop_ind P); [apply Hst; autorewrite with tick; reflexivity|intros _].
  apply Hst; autorewrite with tick; reflexivity.
Qed.

(** C9: a tick whose CPU sample succeeds with an empty slice, every other
    sample succeeding too: the tick panics at [cpuPercent[0]], and the
    panic ends [Start]: the later ticks do not run, the later close of
    [stop] is not served, the cleanup does not run and [cleanupDone] stays
    open. A CPU sample that fails is skipped, and the same run ends with
    the cleanup. *)
Example C9_empty_cpu_sample_panics :
  let later := [Occupy.TickerFires tick0; Occupy.StopCalled; Occupy.StopCase disk0] in
  let run := Occupy.Start (Occupy.TickerFires tickCPUEmpty :: later) world0 in
  let skipped := Occupy.Start (Occupy.TickerFires tickCPUErr :: later) world0 in
  Occupy.Percent tickCPUEmpty = Ok []
  /\ Occupy.monitorAndAdjust tickCPUEmpty world0 = Occupy.panic world0
  /\ run = (Occupy.panic world0, Occupy.Panicked)
  /\ Occupy.calls (fst run) = []
  /\ Occupy.cleanupDone (Occupy.rm (fst run)) = false
  /\ Occupy.Percent tickCPUErr = Err
  /\ snd skipped = Occupy.Returned
  /\ Occupy.calls (fst skipped)
     = [Occupy.CallAdjustDisk; Occupy.CallAdjustMemory; Occupy.CallAdjustCPU]
       ++ cleanupPass.
Proof. vm_compute. repeat split; reflexivity. Qed.

(** ** The spinner pool *)

Lemma adjustCPUWorkers_cpuOK (targetWorkers : Z) (m : Occupy.ResourceMonitor) :
  cpuOK m -> cpuOK (Occupy.adjustCPUWorkers targetWorkers m).
Proof.
  destruct m as [c s d a t cur mem]. unfold cpuOK. simpl. intros H.
  unfold Occupy.adjustCPUWorkers, Occupy.startCPULoadInternal,
    Occupy.stopCPULoadInternal, Occupy.set_cpu. simpl.
  destruct (t =? targetWorkers); [exact H|].
  destruct (targetWorkers =? 0), a; simpl; try (intros; reflexivity); try exact H;
    try discriminate.
  destruct (cur =? targetWorkers); simpl; discriminate.
Qed.

Lemma releaseMemory_cpu (current : F64) (memInfo : VirtualMemoryStat)
  (m : Occupy.ResourceMonitor) :
  Occupy.ActiveCPULoad (Occupy.releaseMemory current memInfo m) = Occupy.ActiveCPULoad m
  /\ Occupy.currentCPUWorkers (Occupy.releaseMemory current memInfo m)
     = Occupy.currentCPUWorkers m.
Proof.
  unfold Occupy.releaseMemory. destruct (Occupy.AllocatedMemory m); split; reflexivity.
Qed.

Lemma adjustMemoryUsage_cpuOK (current : F64) (memInfo : VirtualMemoryStat)
  (w : Occupy.World) :
  cpuOK (Occupy.rm w) -> cpuOK (Occupy.rm (Occupy.adjustMemoryUsage current memInfo w)).
Proof.
  unfold Occupy.adjustMemoryUsage, cpuOK. case_ifs; try (intros H; exact H).
  cbn [Occupy.rm Occupy.with_rm Occupy.record].
  destruct (releaseMemory_cpu current memInfo (Occupy.rm w)) as [-> ->]. intros H; exact H.
Qed.

Lemma adjustCPUUsage_cpuOK (NumCPU : positive) (current : F64) (w : Occupy.World) :
  cpuOK (Occupy.rm w) -> cpuOK (Occupy.rm (Occupy.adjustCPUUsage NumCPU current w)).
Proof.
  unfold Occupy.adjustCPUUsage. case_ifs; intros H; try exact H;
    apply adjustCPUWorkers_cpuOK; exact H.
Qed.

Lemma arrive_cpuOK (env : Occupy.TickEnv) (k : nat) (w : Occupy.World) :
  cpuOK (Occupy.rm w) -> cpuOK (Occupy.rm (Occupy.arrive env k w)).
Proof. destruct (arrive_rm env k w) as [->| ->]; intros H; exact H. Qed.

Lemma monitorAndAdjust_cpuOK (env : Occupy.TickEnv) (w : Occupy.World) :
  cpuOK (Occupy.rm w) -> cpuOK (Occupy.rm (Occupy.monitorAndAdjust env w)).
Proof.
  intros H. unfold Occupy.monitorAndAdjust.
  assert (Hd : forall e c d w1, cpuOK (Occupy.rm w1) ->
                 cpuOK (Occupy.rm (Occupy.adjustDiskUsage e c d w1)))
    by (intros; rewrite adjustDiskUsage_rm; assumption).
  assert (Hp : forall w1, cpuOK (Occupy.rm w1) -> cpuOK (Occupy.rm (Occupy.panic w1)))
    by (intros w1 H1; exact H1).
  pose proof arrive_cpuOK as Ha. pose proof adjustMemoryUsage_cpuOK as Hm.
  pose proof adjustCPUUsage_cpuOK as Hc.
  repeat first
    [ apply (checkStop_ind (fun w' => cpuOK (Occupy.rm w'))); [auto 12|intros _]
    | match goal with |- context [match ?r with Ok _ => _ | Err => _ end] => destruct r end
    | match goal with
      | |- context [match ?l with [] => _ | _ :: _ => _ end] => destruct l
      end ];
    auto 12.
Qed.

(** ** Stopping *)

Lemma cleanupAllResources_rm (env : Occupy.DiskEnv) (w : Occupy.World) :
  Occupy.rm (Occupy.cleanupAllResources env w)
  = Occupy.cleanupMemory (Occupy.stopCPULoad (Occupy.rm w)).
Proof. reflexivity. Qed.

Lemma cleanupAllResources_files (env : Occupy.DiskEnv) (w : Occupy.World) :
  Occupy.files (Occupy.cleanupAllResources env w)
  = Occupy.cleanupAllTempFiles (Occupy.tempDir w) env (Occupy.files w).
Proof. reflexivity. Qed.

Lemma cleanupAllResources_calls (env : Occupy.DiskEnv) (w : Occupy.World) :
  Occupy.calls (Occupy.cleanupAllResources env w)
  = Occupy.calls w
    ++ [Occupy.CallStopCPULoad; Occupy.CallCleanupMemory; Occupy.CallCleanupAllTempFiles].
Proof. unfold Occupy.cleanupAllResources. simpl. rewrite <- !app_assoc. reflexivity. Qed.

Lemma cleanupAllResources_tempDir (env : Occupy.DiskEnv) (w : Occupy.World) :
  Occupy.tempDir (Occupy.cleanupAllResources env w) = Occupy.tempDir w.
Proof. reflexivity. Qed.

Lemma cleanupAllResources_panicked (env : Occupy.DiskEnv) (w : Occupy.World) :
  Occupy.panicked (Occupy.cleanupAllResources env w) = Occupy.panicked w.
Proof. reflexivity. Qed.

Lemma cleanup_monitor (m : Occupy.ResourceMonitor) :
  let m' := Occupy.cleanupMemory (Occupy.stopCPULoad m) in
  Occupy.ActiveCPULoad m' = false
  /\ Occupy.AllocatedMemory m' = []
  /\ Occupy.stop m' = Occupy.stop m
  /\ (cpuOK m -> Occupy.currentCPUWorkers m' = 0).
Proof.
  destruct m as [c s d a t cur mem].
  unfold Occupy.cleanupMemory, Occupy.stopCPULoad, Occupy.stopCPULoadInternal, cpuOK.
  destruct a, mem; simpl; repeat split; try reflexivity; intros H; apply H; reflexivity.
Qed.

Lemma cleanup_monitor_cleanupDone (m : Occupy.ResourceMonitor) :
  Occupy.cleanupDone (Occupy.cleanupMemory (Occupy.stopCPULoad m))
  = Occupy.cleanupDone m.
Proof.
  destruct m as [c s d a t cur mem].
  unfold Occupy.cleanupMemory, Occupy.stopCPULoad, Occupy.stopCPULoadInternal.
  destruct a, mem; reflexivity.
Qed.

Lemma tickCalls_no_cleanup (l : list Occupy.Call) :
  tickCalls l -> List.filter isCleanup l = [].
Proof. intros [->|[->|[->| ->]]]; reflexivity. Qed.

(** A tick leaves the temporary directory where it is. *)
Lemma monitorAndAdjust_tempDir (env : Occupy.TickEnv) (w : Occupy.World) :
  Occupy.tempDir (Occupy.monitorAndAdjust env w) = Occupy.tempDir w.
Proof.
  unfold Occupy.monitorAndAdjust.
  repeat first
    [ apply (checkStop_ind (fun w' => Occupy.tempDir w' = Occupy.tempDir w));
      [autorewrite with tick; reflexivity|intros _]
    | match goal with |- context [match ?r with Ok _ => _ | Err => _ end] => destruct r end
    | match goal with
      | |- context [match ?l with [] => _ | _ :: _ => _ end] => destruct l
      end ];
    autorewrite with tick; reflexivity.
Qed.

(** [Start] runs its loop when the interval is positive; otherwise
    [time.NewTicker] panics. *)
Lemma Start_startLoop (schedule : list Occupy.Select) (w : Occupy.World) :
  0 < Occupy.Interval (Occupy.Config (Occupy.rm w)) ->
  Occupy.Start schedule w = Occupy.startLoop schedule w.
Proof.
  intros H. unfold Occupy.Start.
  destruct (Z.leb_spec (Occupy.Interval (Occupy.Config (Occupy.rm w))) 0); [lia|].
  reflexivity.
Qed.

Lemma Start_interval (schedule : list Occupy.Select) (w w' : Occupy.World)
  (status : Occupy.LoopStatus) :
  Occupy.Start schedule w = (w', status) -> status <> Occupy.Panicked ->
  Occupy.Start schedule w = Occupy.startLoop schedule w.
Proof.
  unfold Occupy.Start.
  destruct (Occupy.Interval (Occupy.Config (Occupy.rm w)) <=? 0); [|reflexivity].
  intros H Hs. injection H as _ <-. contradiction.
Qed.

(** The loop returns only through its [stop] case. *)
Lemma startLoop_returned (schedule : list Occupy.Select) :
  forall w w' : Occupy.World,
    Occupy.startLoop schedule w = (w', Occupy.Returned) ->
    exists (env : Occupy.DiskEnv) (w1 : Occupy.World),
      In (Occupy.StopCase env) schedule
      /\ Occupy.stop (Occupy.rm w1) = true
      /\ Occupy.cleanupDone (Occupy.rm w1) = false
      /\ Occupy.tempDir w1 = Occupy.tempDir w
      /\ List.filter isCleanup (Occupy.calls w1) = List.filter isCleanup (Occupy.calls w)
      /\ (cpuOK (Occupy.rm w) -> cpuOK (Occupy.rm w1))
      /\ w' = Occupy.with_rm (Occupy.set_cleanupDone true)
                (Occupy.record Occupy.CloseCleanupDone (Occupy.cleanupAllResources env w1)).
Proof.
  induction schedule as [|[env|env|] rest IH]; intros w w' H;
    cbn [Occupy.startLoop] in H;
    destruct (Occupy.panicked w) eqn:Hp; try discriminate H.
  - apply IH in H as (env' & w1 & Hin & Hs & Hd & Ht & Hc & Hcpu & Hw).
    exists env', w1.
    repeat split; [right; exact Hin|exact Hs|exact Hd| | | |exact Hw].
    + rewrite Ht. apply monitorAndAdjust_tempDir.
    + rewrite Hc. destruct (monitorAndAdjust_calls env w) as (l & -> & Hl).
      rewrite List.filter_app, (tickCalls_no_cleanup l Hl), app_nil_r. reflexivity.
    + intros Hok. apply Hcpu, monitorAndAdjust_cpuOK, Hok.
  - destruct (Occupy.stop (Occupy.rm w)) eqn:Hs.
    + rewrite cleanupAllResources_rm, cleanup_monitor_cleanupDone in H.
      destruct (Occupy.cleanupDone (Occupy.rm w)) eqn:Hd; [discriminate H|].
      injection H as <-.
      exists env, w. repeat split; [left; reflexivity|exact Hs|exact Hd|tauto].
    + apply IH in H as (env' & w1 & Hin & Hs1 & Hd & Ht & Hc & Hcpu & Hw).
      exists env', w1.
      repeat split; [right; exact Hin|exact Hs1|exact Hd|exact Ht|exact Hc|exact Hcpu
                    |exact Hw].
  - apply IH in H as (env' & w1 & Hin & Hs1 & Hd & Ht & Hc & Hcpu & Hw).
    exists env', w1.
    repeat split; [right; exact Hin|exact Hs1|exact Hd|exact Ht|exact Hc|exact Hcpu
                  |exact Hw].
Qed.

(** What the code does on the stop signal. Once [stop] is closed the
    [stop] case of the loop is ready; taking it makes [Start] return,
    provided the ticker could be made and [cleanupDone] is still open; a
    tick taken instead changes nothing. Whenever [Start] has returned, the
    CPU load is stopped (no worker is counted), the chunk list is empty,
    [cleanupDone] is closed, and the call log ends with the cleanup pass:
    CPU, memory, files, then the close of [cleanupDone], each exactly once
    more than before [Start]. Every file the cleanup pattern matches is
    then one that [filepath.Glob] did not find or whose removal the
    operating system refused, and none is left when [filepath.Glob] finds
    the temporary directory and no removal fails. *)
Lemma stop_runs_cleanup_pass (w : Occupy.World) :
  (forall (env : Occupy.DiskEnv) (rest : list Occupy.Select),
      Occupy.stop (Occupy.rm w) = true ->
      0 < Occupy.Interval (Occupy.Config (Occupy.rm w)) ->
      Occupy.cleanupDone (Occupy.rm w) = false ->
      Occupy.panicked w = false ->
      snd (Occupy.Start (Occupy.StopCase env :: rest) w) = Occupy.Returned)
  /\ (forall env : Occupy.TickEnv,
        Occupy.stop (Occupy.rm w) = true -> Occupy.monitorAndAdjust env w = w)
  /\ (forall (schedule : list Occupy.Select) (w' : Occupy.World),
        Occupy.Start schedule w = (w', Occupy.Returned) ->
        Occupy.ActiveCPULoad (Occupy.rm w') = false
        /\ (cpuOK (Occupy.rm w) -> Occupy.currentCPUWorkers (Occupy.rm w') = 0)
        /\ Occupy.AllocatedMemory (Occupy.rm w') = []
        /\ (forall f : Occupy.File,
              In f (Occupy.files w') ->
              Occupy.globMatch (Occupy.fname f) = true ->
              exists env : Occupy.DiskEnv,
                In (Occupy.StopCase env) schedule
                /\ (globFinds (Occupy.tempDir w) env = false
                    \/ Occupy.removeErr env (Occupy.fname f) = true))
        /\ ((forall env : Occupy.DiskEnv,
                In (Occupy.StopCase env) schedule ->
                globFinds (Occupy.tempDir w) env = true
                /\ forall name : string, Occupy.removeErr env name = false) ->
            forall f : Occupy.File,
              In f (Occupy.files w') -> Occupy.globMatch (Occupy.fname f) = false)
        /\ Occupy.stop (Occupy.rm w') = true
        /\ Occupy.cleanupDone (Occupy.rm w') = true
        /\ (exists before : list Occupy.Call, Occupy.calls w' = before ++ cleanupPass)
        /\ List.filter isCleanup (Occupy.calls w')
           = List.filter isCleanup (Occupy.calls w) ++ cleanupPass).
Proof.
  split; [|split].
  - intros env rest Hs Hi Hd Hp. rewrite Start_startLoop by exact Hi.
    cbn [Occupy.startLoop].
    rewrite Hp, Hs, cleanupAllResources_rm, cleanup_monitor_cleanupDone, Hd.
    reflexivity.
  - intros env Hs. apply monitorAndAdjust_stopped. exact Hs.
  - intros schedule w' H.
    rewrite (Start_interval _ _ _ _ H) in H by discriminate.
    apply startLoop_returned in H as (env & w1 & Hin & Hs & _ & Ht & Hc & Hok1 & ->).
    destruct (cleanup_monitor (Occupy.rm w1)) as (Hcpu & Hmem & Hstop & Hzero).
    assert (Hfiles : globFinds (Occupy.tempDir w) env = true ->
               forall f : Occupy.File,
               In f (Occupy.cleanupAllTempFiles (Occupy.tempDir w1) env (Occupy.files w1)) ->
               Occupy.globMatch (Occupy.fname f) = true ->
               Occupy.removeErr env (Occupy.fname f) = true).
    { intros Hg f. apply cleanupAllTempFiles_spec. rewrite Ht. exact Hg. }
    cbn [Occupy.rm Occupy.files Occupy.calls Occupy.with_rm Occupy.record
         Occupy.set_cleanupDone Occupy.ActiveCPULoad Occupy.AllocatedMemory
         Occupy.stop Occupy.cleanupDone Occupy.currentCPUWorkers].
    rewrite cleanupAllResources_rm, cleanupAllResources_files, cleanupAllResources_calls.
    repeat split.
    + exact Hcpu.
    + intros Hok. apply Hzero, Hok1, Hok.
    + exact Hmem.
    + intros f Hf Hm. exists env. split; [exact Hin|].
      destruct (globFinds (Occupy.tempDir w) env) eqn:Hg; [right|left; reflexivity].
      exact (Hfiles eq_refl f Hf Hm).
    + intros Hok f Hf. destruct (Hok env Hin) as [Hg Hrm].
      destruct (Occupy.globMatch (Occupy.fname f)) eqn:Hm; [|reflexivity].
      pose proof (Hfiles Hg f Hf Hm) as Hr. rewrite Hrm in Hr. discriminate Hr.
    + rewrite Hstop. exact Hs.
    + exists (Occupy.calls w1). rewrite <- app_assoc. reflexivity.
    + rewrite <- app_assoc, List.filter_app, Hc. reflexivity.
Qed.

(** C1: the temporary directory is [/tmp/meta[1]], set through
    [GO_OCCUPY_TEMP_DIR]. A tick writes a padding file there; [stop] is
    closed and the loop takes its [stop] case. [Start] returns, the cleanup
    pass has run on CPU, memory and files, [cleanupDone] is closed and no
    removal has failed, yet the padding file is still there: the pattern of
    the cleanup takes [[1]] of the path as a character class and finds
    nothing. In [/tmp] the same run leaves no file. *)
Example C1_cleanup_misses_padding_files :
  let run := Occupy.Start schedule0 worldMeta in
  let padding := Occupy.mkFile "go_occupy_temp_1700000000_0.dat" 200 in
  Occupy.tempPath (Occupy.tempDir worldMeta) = "/tmp/meta[1]"%string
  /\ Occupy.files (Occupy.monitorAndAdjust tick0 worldMeta) = [padding]
  /\ Occupy.globMatch (Occupy.fname padding) = true
  /\ snd run = Occupy.Returned
  /\ Occupy.calls (fst run)
     = [Occupy.CallAdjustDisk; Occupy.CallAdjustMemory; Occupy.CallAdjustCPU]
       ++ cleanupPass
  /\ Occupy.cleanupDone (Occupy.rm (fst run)) = true
  /\ Occupy.AllocatedMemory (Occupy.rm (fst run)) = []
  /\ Occupy.ActiveCPULoad (Occupy.rm (fst run)) = false
  /\ Occupy.removeErr disk0 (Occupy.fname padding) = false
  /\ Occupy.files (fst run) = [padding]
  /\ Occupy.files (fst (Occupy.Start schedule0 world0)) = [].
Proof. vm_compute. repeat split; reflexivity. Qed.

(** A call of [Stop] that runs alone never panics, and a call after it finds
    the channel closed and returns at once, leaving the monitor as it is. *)
Lemma Stop_alone (m : Occupy.ResourceMonitor) :
  fst (Occupy.Stop m) <> Occupy.StopPanicked
  /\ Occupy.stop (snd (Occupy.Stop m)) = true
  /\ Occupy.Stop (snd (Occupy.Stop m)) = (Occupy.StopReturned, snd (Occupy.Stop m)).
Proof.
  destruct m as [c s d a t cur mem]. unfold Occupy.Stop, Occupy.StopStep.
  destruct s, d; simpl; repeat split; first [discriminate|reflexivity].
Qed.

(** C3: two goroutines call [Stop] on a fresh monitor; both run the first
    [select] before either closes the channel, so both take the default
    branch, and the second [close(rm.stop)] finds the channel closed: that
    caller panics instead of returning. *)
Example C3_concurrent_Stop_closes_twice :
  let m := Occupy.NewResourceMonitor config0 in
  Occupy.StopConcurrently [(0, false); (1, false); (0, false); (1, false)]%nat
    [Occupy.AtCheck; Occupy.AtCheck] m
  = ([Occupy.AtWait; Occupy.StopPanicked], Occupy.set_stop true m).
Proof. vm_compute. reflexivity. Qed.

(** The same two calls one after the other: the second is a no-op. *)
Example sequential_Stop_twice :
  let m := Occupy.NewResourceMonitor config0 in
  Occupy.StopConcurrently [(0, false); (0, false); (1, false)]%nat
    [Occupy.AtCheck; Occupy.AtCheck] m
  = ([Occupy.AtWait; Occupy.StopReturned], Occupy.set_stop true m).
Proof. vm_compute. reflexivity. Qed.

(** * Further properties of the package *)

(** ** Growing and shrinking the memory pool *)

Lemma releaseLoop_suffix (target : Z) (pre : list Z) :
  target < 2 ^ 64 ->
  forall (suf : list Z) (released : Z),
    Forall (fun c => 0 < c) suf ->
    0 <= released ->
    released + sumZ suf = target ->
    Occupy.releaseLoop (length (pre ++ suf)) target released (pre ++ suf) = (target, pre).
Proof.
  intros Ht suf. induction suf as [|c suf0 IH] using rev_ind; intros released Hpos Hr Hsum.
  - change (sumZ []) with 0 in Hsum. rewrite app_nil_r.
    replace released with target by lia. apply releaseLoop_exit.
  - apply Forall_app in Hpos as [Hpos0 Hc]. inversion Hc as [|? ? Hc0 _]; subst.
    pose proof (sumZ_nonneg suf0 Hpos0) as Hs0.
    rewrite sumZ_app, sumZ_cons in *. change (sumZ []) with 0 in *.
    rewrite app_assoc. rewrite releaseLoop_snoc by lia.
    destruct (Z.ltb_spec released (released + (sumZ suf0 + (c + 0)))); [|lia].
    destruct (Z.leb_spec (released + c) (released + (sumZ suf0 + (c + 0)))); [|lia].
    apply IH; [exact Hpos0|lia|lia].
Qed.

Lemma releaseMemory_drops_suffix (currentPercent : F64) (memInfo : VirtualMemoryStat)
  (m : Occupy.ResourceMonitor) (pre suf : list Z) :
  Occupy.AllocatedMemory m = pre ++ suf ->
  poolOK (pre ++ suf) ->
  uint64_of_float
    ((currentPercent - Occupy.MemoryPercent (Occupy.Config m)) / Finite 100
     * float64 (mem_Total memInfo))%F = sumZ suf ->
  Occupy.AllocatedMemory (Occupy.releaseMemory currentPercent memInfo m) = pre
  /\ Occupy.getTotalAllocatedMemory
       (Occupy.AllocatedMemory (Occupy.releaseMemory currentPercent memInfo m))
     = Occupy.getTotalAllocatedMemory (Occupy.AllocatedMemory m) - sumZ suf.
Proof.
  intros Hm Hok Hreq. pose proof Hok as [Hpos Hb].
  apply Forall_app in Hpos as [Hpre Hsuf].
  pose proof (sumZ_nonneg pre Hpre) as Hp. pose proof (sumZ_nonneg suf Hsuf) as Hs.
  rewrite sumZ_app in Hb.
  assert (Hmem : Occupy.AllocatedMemory (Occupy.releaseMemory currentPercent memInfo m)
                 = pre).
  { rewrite releaseMemory_mem, Hreq, Hm. unfold Occupy.releaseBytes.
    rewrite (getTotal_sum _ Hok), sumZ_app.
    destruct (Z.ltb_spec (sumZ pre + sumZ suf) (sumZ suf)); [lia|].
    rewrite (releaseLoop_suffix (sumZ suf) pre ltac:(lia) suf 0 Hsuf ltac:(lia) ltac:(lia)).
    reflexivity. }
  split; [exact Hmem|].
  rewrite Hmem, Hm, (getTotal_sum _ Hok), sumZ_app.
  rewrite getTotal_sum by (split; [exact Hpre|lia]). lia.
Qed.

(** X1: when the amount [releaseMemory] computes is exactly the size of the
    most recently allocated chunks, exactly those chunks are dropped, the
    older ones are left as they are, and the allocated total drops by that
    amount. *)
Theorem X1_releaseMemory_whole_chunks (currentPercent : F64) (memInfo : VirtualMemoryStat)
  (m : Occupy.ResourceMonitor) (pre suf : list Z) :
  Occupy.AllocatedMemory m = pre ++ suf ->
  poolOK (pre ++ suf) ->
  uint64_of_float
    ((currentPercent - Occupy.MemoryPercent (Occupy.Config m)) / Finite 100
     * float64 (mem_Total memInfo))%F = sumZ suf ->
  Occupy.AllocatedMemory (Occupy.releaseMemory currentPercent memInfo m) = pre
  /\ Occupy.getTotalAllocatedMemory
       (Occupy.AllocatedMemory (Occupy.releaseMemory currentPercent memInfo m))
     = Occupy.getTotalAllocatedMemory (Occupy.AllocatedMemory m) - sumZ suf.
Proof. apply releaseMemory_drops_suffix. Qed.

Lemma X1_releaseMemory_whole_chunks_witness :
  poolOK ([100] ++ [100; 200])
  /\ Occupy.AllocatedMemory
       (Occupy.releaseMemory (Finite 80) (mkMemInfo 1000 (Finite 80))
          (Occupy.set_AllocatedMemory [100; 100; 200] (Occupy.NewResourceMonitor config0)))
     = [100].
Proof.
  assert (H : poolOK ([100] ++ [100; 200])).
  { split; [repeat constructor; lia|vm_compute; reflexivity]. }
  split; [exact H|].
  apply (X1_releaseMemory_whole_chunks (Finite 80) (mkMemInfo 1000 (Finite 80))
           (Occupy.set_AllocatedMemory [100; 100; 200] (Occupy.NewResourceMonitor config0))
           [100] [100; 200]); [reflexivity|exact H|vm_compute; reflexivity].
Defined.

(** X2: growing the pool by [bytes] and then releasing [bytes] gives back
    the pool as it was. *)
Theorem X2_allocate_then_release (bytes : Z) (currentPercent : F64)
  (memInfo : VirtualMemoryStat) (m : Occupy.ResourceMonitor) :
  poolOK (Occupy.AllocatedMemory m) ->
  0 <= bytes ->
  sumZ (Occupy.AllocatedMemory m) + bytes < 2 ^ 64 ->
  uint64_of_float
    ((currentPercent - Occupy.MemoryPercent (Occupy.Config m)) / Finite 100
     * float64 (mem_Total memInfo))%F = bytes ->
  Occupy.AllocatedMemory
    (Occupy.releaseMemory currentPercent memInfo (Occupy.allocateMemory bytes m))
  = Occupy.AllocatedMemory m.
Proof.
  intros Hok Hb Hsum Hreq. pose proof Hok as [Hpos Hlt]. pose proof chunkSize_pos as Hc.
  pose proof (sumZ_nonneg _ Hpos) as Hn.
  assert (Hgrown : Occupy.AllocatedMemory (Occupy.allocateMemory bytes m)
                   = Occupy.AllocatedMemory m ++ piecesOf Occupy.chunkSize bytes).
  { change (Occupy.AllocatedMemory (Occupy.allocateMemory bytes m))
      with (snd (Occupy.allocateLoop (Occupy.allocateFuel bytes) bytes
                   (Occupy.AllocatedMemory m))).
    rewrite allocateLoop_spec; [reflexivity|lia|unfold Occupy.allocateFuel; lia]. }
  apply (releaseMemory_drops_suffix currentPercent memInfo
           (Occupy.allocateMemory bytes m) (Occupy.AllocatedMemory m)
           (piecesOf Occupy.chunkSize bytes)).
  - exact Hgrown.
  - split.
    + apply Forall_app. split; [exact Hpos|].
      eapply Forall_impl; [apply piecesOf_sizes; lia|]. simpl. intros; lia.
    + rewrite sumZ_app, piecesOf_sum by lia. lia.
  - rewrite piecesOf_sum by lia. exact Hreq.
Qed.

Lemma X2_allocate_then_release_witness :
  poolOK [100; 200]
  /\ Occupy.AllocatedMemory
       (Occupy.releaseMemory (Finite 75) (mkMemInfo 1000 (Finite 75))
          (Occupy.allocateMemory 250
             (Occupy.set_AllocatedMemory [100; 200] (Occupy.NewResourceMonitor config0))))
     = [100; 200].
Proof.
  assert (H : poolOK [100; 200]).
  { split; [repeat constructor; lia|vm_compute; reflexivity]. }
  split; [exact H|].
  apply (X2_allocate_then_release 250 (Finite 75) (mkMemInfo 1000 (Finite 75))
           (Occupy.set_AllocatedMemory [100; 200] (Occupy.NewResourceMonitor config0)));
    [exact H|lia|vm_compute; reflexivity|vm_compute; reflexivity].
Defined.

(** ** The spinner pool, continued *)

Lemma adjustCPUWorkers_same (m : Occupy.ResourceMonitor) :
  Occupy.adjustCPUWorkers (Occupy.targetCPUWorkers m) m = m.
Proof. unfold Occupy.adjustCPUWorkers. rewrite Z.eqb_refl. reflexivity. Qed.

Lemma adjustCPUWorkers_spec (n : Z) (m : Occupy.ResourceMonitor) :
  cpuConsistent m ->
  let m' := Occupy.adjustCPUWorkers n m in
  cpuConsistent m'
  /\ Occupy.targetCPUWorkers m' = n
  /\ (n <> Occupy.targetCPUWorkers m ->
      Occupy.ActiveCPULoad m' = negb (n =? 0) /\ Occupy.currentCPUWorkers m' = n)
  /\ Occupy.AllocatedMemory m' = Occupy.AllocatedMemory m
  /\ Occupy.stop m' = Occupy.stop m
  /\ Occupy.cleanupDone m' = Occupy.cleanupDone m.
Proof.
  destruct m as [c s d a t cur mem]. unfold cpuConsistent. simpl. intros H.
  unfold Occupy.adjustCPUWorkers, Occupy.startCPULoadInternal,
    Occupy.stopCPULoadInternal, Occupy.set_cpu. simpl.
  destruct (Z.eqb_spec t n) as [E|E].
  - subst. simpl. repeat split; try assumption; try reflexivity; intros; contradiction.
  - destruct (Z.eqb_spec n 0) as [E0|E0], a; simpl.
    + repeat split; try reflexivity; symmetry; exact E0.
    + repeat split; try reflexivity; lia.
    + destruct (Z.eqb_spec cur n) as [En|En]; [lia|]. simpl.
      repeat split; try reflexivity; assumption.
    + repeat split; try reflexivity; assumption.
Qed.

(** X3: on a consistent spinner pool, [adjustCPUWorkers(n)] with [n] other
    than the recorded target leaves the pool running exactly [n] workers
    (idle when [n] is 0), and with [n] equal to the recorded target it
    changes nothing; consistency is kept and memory and channels are not
    touched. *)
Theorem X3_adjustCPUWorkers_reaches_target (n : Z) (m : Occupy.ResourceMonitor) :
  cpuConsistent m ->
  let m' := Occupy.adjustCPUWorkers n m in
  cpuConsistent m'
  /\ Occupy.targetCPUWorkers m' = n
  /\ (n <> Occupy.targetCPUWorkers m ->
      Occupy.ActiveCPULoad m' = negb (n =? 0) /\ Occupy.currentCPUWorkers m' = n)
  /\ (n = Occupy.targetCPUWorkers m -> m' = m)
  /\ Occupy.AllocatedMemory m' = Occupy.AllocatedMemory m
  /\ Occupy.stop m' = Occupy.stop m
  /\ Occupy.cleanupDone m' = Occupy.cleanupDone m.
Proof.
  intros H m'. destruct (adjustCPUWorkers_spec n m H) as (H1 & H2 & H3 & H4 & H5 & H6).
  repeat split; try assumption; try (apply H3; assumption).
  intros ->. apply adjustCPUWorkers_same.
Qed.

Lemma X3_adjustCPUWorkers_reaches_target_witness :
  cpuConsistent (Occupy.NewResourceMonitor config0)
  /\ Occupy.currentCPUWorkers
       (Occupy.adjustCPUWorkers 3 (Occupy.NewResourceMonitor config0)) = 3.
Proof.
  assert (H : cpuConsistent (Occupy.NewResourceMonitor config0)) by reflexivity.
  split; [exact H|].
  pose proof (X3_adjustCPUWorkers_reaches_target 3 (Occupy.NewResourceMonitor config0) H)
    as (_ & _ & Hn & _).
  apply Hn. discriminate.
Defined.

(** X4: [stopCPULoad] stops an active pool but keeps the recorded target, so
    asking again for that same number of workers does not restart the
    load: the pool stays idle until a different number is asked for. *)
Theorem X4_same_target_after_stop_stays_idle (m : Occupy.ResourceMonitor) :
  Occupy.ActiveCPULoad m = true ->
  let stopped := Occupy.stopCPULoad m in
  Occupy.ActiveCPULoad stopped = false
  /\ Occupy.currentCPUWorkers stopped = 0
  /\ Occupy.targetCPUWorkers stopped = Occupy.targetCPUWorkers m
  /\ Occupy.adjustCPUWorkers (Occupy.targetCPUWorkers m) stopped = stopped
  /\ (forall n : Z,
        n <> Occupy.targetCPUWorkers m -> n <> 0 ->
        Occupy.ActiveCPULoad (Occupy.adjustCPUWorkers n stopped) = true
        /\ Occupy.currentCPUWorkers (Occupy.adjustCPUWorkers n stopped) = n).
Proof.
  destruct m as [c s d a t cur mem]. simpl. intros ->.
  unfold Occupy.stopCPULoad, Occupy.stopCPULoadInternal, Occupy.set_cpu. simpl.
  repeat split.
  - unfold Occupy.adjustCPUWorkers. simpl. rewrite Z.eqb_refl. reflexivity.
  - unfold Occupy.adjustCPUWorkers, Occupy.startCPULoadInternal. simpl.
    destruct (Z.eqb_spec t n); [congruence|]. destruct (Z.eqb_spec n 0); [lia|]. reflexivity.
  - unfold Occupy.adjustCPUWorkers, Occupy.startCPULoadInternal. simpl.
    destruct (Z.eqb_spec t n); [congruence|]. destruct (Z.eqb_spec n 0); [lia|]. reflexivity.
Qed.

Lemma X4_same_target_after_stop_stays_idle_witness :
  Occupy.ActiveCPULoad (Occupy.adjustCPUWorkers 3 (Occupy.NewResourceMonitor config0)) = true
  /\ Occupy.ActiveCPULoad
       (Occupy.adjustCPUWorkers 3
          (Occupy.stopCPULoad
             (Occupy.adjustCPUWorkers 3 (Occupy.NewResourceMonitor config0)))) = false.
Proof.
  assert (H : Occupy.ActiveCPULoad
                (Occupy.adjustCPUWorkers 3 (Occupy.NewResourceMonitor config0)) = true)
    by reflexivity.
  split; [exact H|].
  pose proof (X4_same_target_after_stop_stays_idle
                (Occupy.adjustCPUWorkers 3 (Occupy.NewResourceMonitor config0)) H)
    as (Hidle & _ & _ & Hsame & _).
  change (Occupy.targetCPUWorkers
            (Occupy.adjustCPUWorkers 3 (Occupy.NewResourceMonitor config0))) with 3 in Hsame.
  rewrite Hsame. exact Hidle.
Defined.

(** ** The padding files, continued *)

Lemma filter_filter_and {A : Type} (p q : A -> bool) (l : list A) :
  List.filter p (List.filter q l) = List.filter (fun x => q x && p x) l.
Proof.
  induction l as [|x l IH]; [reflexivity|]. simpl.
  destruct (q x); simpl; [destruct (p x)|]; rewrite IH; reflexivity.
Qed.

Lemma removeAll_filter (env : Occupy.DiskEnv) (matches : list string) :
  forall fs : list Occupy.File,
    fst (Occupy.removeAll env matches fs) =
    List.filter
      (fun f =>
         negb (existsb
                 (fun name =>
                    String.eqb (Occupy.fname f) name && negb (Occupy.removeErr env name))
                 matches)) fs.
Proof.
  unfold Occupy.removeAll. generalize 0.
  induction matches as [|a matches IH]; intros count fs.
  - simpl. rewrite List.filter_true. reflexivity.
  - simpl. unfold Occupy.osRemove at 2.
    destruct (Occupy.removeErr env a) eqn:Ea.
    + rewrite IH. apply List.filter_ext. intros f.
      rewrite Bool.andb_false_r. reflexivity.
    + rewrite IH, filter_filter_and. apply List.filter_ext. intros f.
      rewrite Bool.andb_true_r, Bool.negb_orb. reflexivity.
Qed.

Lemma glob_existsb (env : Occupy.DiskEnv) (fs : list Occupy.File) (f : Occupy.File) :
  In f fs ->
  existsb
    (fun name => String.eqb (Occupy.fname f) name && negb (Occupy.removeErr env name))
    (map Occupy.fname (List.filter (fun f => Occupy.globMatch (Occupy.fname f)) fs))
  = Occupy.globMatch (Occupy.fname f) && negb (Occupy.removeErr env (Occupy.fname f)).
Proof.
  intros Hf. apply Bool.eq_true_iff_eq. rewrite existsb_exists, Bool.andb_true_iff. split.
  - intros (name & Hin & H). apply Bool.andb_true_iff in H as [E Hr].
    apply String.eqb_eq in E. subst name. split; [|exact Hr].
    apply in_map_iff in Hin as (g & Hg & Hin).
    apply filter_In in Hin as [_ Hm]. rewrite <- Hg. exact Hm.
  - intros [Hm Hr]. exists (Occupy.fname f). split.
    + apply in_map, filter_In. split; assumption.
    + rewrite String.eqb_refl. exact Hr.
Qed.

(** Where the pattern finds the directory, the cleanup leaves the files
    that survive it. *)
Lemma cleanup_filter (dir : Occupy.TempDir) (env : Occupy.DiskEnv)
  (fs : list Occupy.File) :
  globFinds dir env = true ->
  Occupy.cleanupAllTempFiles dir env fs = List.filter (survives env) fs.
Proof.
  intros Hdir. unfold Occupy.cleanupAllTempFiles. rewrite (Glob_found dir env fs Hdir).
  rewrite removeAll_filter. apply List.filter_ext_in. intros f Hf.
  rewrite (glob_existsb env fs f Hf). unfold survives, unrelated.
  destruct (Occupy.globMatch (Occupy.fname f)), (Occupy.removeErr env (Occupy.fname f));
    reflexivity.
Qed.

(** X5: where [filepath.Glob] finds the temporary directory, both cleanups
    delete exactly the files whose names match [go_occupy_temp_*.dat] and
    whose removal succeeds; where it does not (the directory cannot be
    read, or its path holds metacharacters that do not match it or that
    form a bad pattern), they delete nothing; in both cases every other
    file of the directory stays, in its place. *)
Theorem X5_cleanup_deletes_only_padding_files (dir : Occupy.TempDir)
  (env : Occupy.DiskEnv) (fs : list Occupy.File) :
  Occupy.cleanupAllTempFiles dir env fs
    = (if globFinds dir env
       then List.filter
              (fun f => negb (Occupy.globMatch (Occupy.fname f))
                        || Occupy.removeErr env (Occupy.fname f)) fs
       else fs)
  /\ Occupy.cleanupTempFiles dir env fs = Occupy.cleanupAllTempFiles dir env fs
  /\ (forall f : Occupy.File,
        In f fs -> Occupy.globMatch (Occupy.fname f) = false ->
        In f (Occupy.cleanupAllTempFiles dir env fs)).
Proof.
  destruct (globFinds dir env) eqn:Hdir.
  - assert (H : Occupy.cleanupAllTempFiles dir env fs = List.filter (survives env) fs)
      by (apply cleanup_filter; exact Hdir).
    repeat split; [exact H|].
    intros f Hf Hm. rewrite H. apply filter_In. split; [exact Hf|].
    unfold survives, unrelated. rewrite Hm. reflexivity.
  - rewrite (cleanupAllTempFiles_missed dir env fs Hdir).
    repeat split; [apply cleanupAllTempFiles_missed; exact Hdir|].
    intros f Hf _. exact Hf.
Qed.

Lemma filter_idem {A : Type} (p : A -> bool) (l : list A) :
  List.filter p (List.filter p l) = List.filter p l.
Proof.
  rewrite filter_filter_and. apply List.filter_ext. intros x. destruct (p x); reflexivity.
Qed.

(** X6: a cleanup of an empty directory does nothing; a second cleanup that
    meets the same failures changes nothing more; and after a cleanup in
    which neither the reading of the directory nor a removal failed, any
    later cleanup changes nothing. *)
Theorem X6_cleanup_idempotent (dir : Occupy.TempDir) (env later : Occupy.DiskEnv)
  (fs : list Occupy.File) :
  Occupy.cleanupAllTempFiles dir env [] = []
  /\ Occupy.cleanupAllTempFiles dir env (Occupy.cleanupAllTempFiles dir env fs)
     = Occupy.cleanupAllTempFiles dir env fs
  /\ (Occupy.readDirErr env = false ->
      (forall name : string, Occupy.removeErr env name = false) ->
      Occupy.cleanupAllTempFiles dir later (Occupy.cleanupAllTempFiles dir env fs)
      = Occupy.cleanupAllTempFiles dir env fs).
Proof.
  destruct (globFinds dir env) eqn:Hdir.
  - rewrite !(cleanup_filter dir env) by exact Hdir.
    split; [reflexivity|]. split; [apply filter_idem|].
    intros Hread Hok.
    assert (Hclean : List.filter (survives env) fs = List.filter unrelated fs).
    { apply List.filter_ext. intros f. unfold survives. rewrite Hok.
      apply Bool.orb_false_r. }
    rewrite Hclean.
    destruct (globFinds dir later) eqn:Hl.
    + rewrite (cleanup_filter dir later) by exact Hl.
      rewrite filter_filter_and. apply List.filter_ext. intros f.
      unfold survives. destruct (unrelated f); reflexivity.
    + apply cleanupAllTempFiles_missed. exact Hl.
  - rewrite !(cleanupAllTempFiles_missed dir env) by exact Hdir.
    split; [reflexivity|]. split; [reflexivity|].
    intros Hread _. apply cleanupAllTempFiles_missed.
    unfold globFinds in *. rewrite Hread in Hdir. cbn [negb andb] in Hdir.
    rewrite Hdir. apply Bool.andb_false_r.
Qed.

Lemma X6_cleanup_idempotent_witness :
  Occupy.readDirErr disk0 = false
  /\ (forall name : string, Occupy.removeErr disk0 name = false)
  /\ Occupy.cleanupAllTempFiles dir0 disk0
       (Occupy.cleanupAllTempFiles dir0 disk0
          [Occupy.mkFile "notes.txt" 7; Occupy.mkFile "go_occupy_temp_1_0.dat" 9])
     = [Occupy.mkFile "notes.txt" 7].
Proof.
  assert (H : forall name : string, Occupy.removeErr disk0 name = false)
    by (intros name; reflexivity).
  split; [reflexivity|]. split; [exact H|].
  pose proof (X6_cleanup_idempotent dir0 disk0 disk0
    [Occupy.mkFile "notes.txt" 7; Occupy.mkFile "go_occupy_temp_1_0.dat" 9])
    as (_ & _ & Hl).
  rewrite (Hl eq_refl H). vm_compute. reflexivity.
Defined.

Lemma unrelated_replace (name : string) (n : Z) (fs : list Occupy.File) :
  Occupy.globMatch name = true ->
  List.filter unrelated
    (map (fun f => if String.eqb (Occupy.fname f) name then Occupy.mkFile name n else f) fs)
  = List.filter unrelated fs.
Proof.
  intros Hm. induction fs as [|f fs IH]; [reflexivity|]. simpl.
  destruct (String.eqb_spec (Occupy.fname f) name) as [E|E].
  - assert (H1 : unrelated (Occupy.mkFile name n) = false)
      by (unfold unrelated; simpl; rewrite Hm; reflexivity).
    assert (H2 : unrelated f = false) by (unfold unrelated; rewrite E, Hm; reflexivity).
    rewrite H1, H2. exact IH.
  - destruct (unrelated f); rewrite IH; reflexivity.
Qed.

Lemma unrelated_osCreate (name : string) (fs : list Occupy.File) :
  Occupy.globMatch name = true ->
  List.filter unrelated (Occupy.osCreate name fs) = List.filter unrelated fs.
Proof.
  intros Hm. unfold Occupy.osCreate.
  destruct (existsb (fun f => String.eqb (Occupy.fname f) name) fs).
  - apply unrelated_replace. exact Hm.
  - rewrite List.filter_app. simpl. unfold unrelated at 2. simpl. rewrite Hm. simpl.
    apply app_nil_r.
Qed.

Lemma unrelated_osRemove (env : Occupy.DiskEnv) (name : string)
  (fs fs' : list Occupy.File) :
  Occupy.globMatch name = true ->
  Occupy.osRemove env name fs = Ok fs' ->
  List.filter unrelated fs' = List.filter unrelated fs.
Proof.
  intros Hm. unfold Occupy.osRemove. destruct (Occupy.removeErr env name); [discriminate|].
  intros H. injection H as <-. rewrite filter_filter_and. apply List.filter_ext.
  intros f. destruct (String.eqb_spec (Occupy.fname f) name) as [E|E]; [|reflexivity].
  simpl. unfold unrelated. rewrite E, Hm. reflexivity.
Qed.

Lemma unrelated_createLoop (env : Occupy.DiskEnv) (fuel : nat) :
  forall (r fileIndex : Z) (fs : list Occupy.File),
    List.filter unrelated (snd (Occupy.createLoop env fuel r fileIndex fs))
    = List.filter unrelated fs.
Proof.
  induction fuel as [|fuel IH]; intros r fileIndex fs; [reflexivity|].
  simpl. destruct (0 <? r); [|reflexivity].
  destruct (Occupy.createErr env fileIndex); [reflexivity|].
  pose proof (tempFileName_globMatch (Occupy.now env fileIndex) fileIndex) as Hm.
  destruct (Occupy.writeErr env fileIndex) as [written|].
  - destruct (Occupy.osRemove env _ _) as [fs'|] eqn:Hr; simpl.
    + rewrite (unrelated_osRemove _ _ _ _ Hm Hr).
      unfold Occupy.osWrite. rewrite unrelated_replace by exact Hm.
      apply unrelated_osCreate. exact Hm.
    + unfold Occupy.osWrite. rewrite unrelated_replace by exact Hm.
      apply unrelated_osCreate. exact Hm.
  - rewrite IH. unfold Occupy.osWrite. rewrite unrelated_replace by exact Hm.
    apply unrelated_osCreate. exact Hm.
Qed.

Lemma unrelated_createTempFiles (env : Occupy.DiskEnv) (targetBytes : Z)
  (fs : list Occupy.File) :
  List.filter unrelated (Occupy.createTempFiles env targetBytes fs)
  = List.filter unrelated fs.
Proof.
  unfold Occupy.createTempFiles. destruct (Occupy.mkdirErr env); [reflexivity|].
  apply unrelated_createLoop.
Qed.

(** X7: whatever fails while it runs, [createTempFiles] leaves every file
    that is not a padding file as it is: same files, same sizes, same
    order. *)
Theorem X7_createTempFiles_keeps_unrelated_files (env : Occupy.DiskEnv)
  (targetBytes : Z) (fs : list Occupy.File) :
  List.filter (fun f => negb (Occupy.globMatch (Occupy.fname f)))
    (Occupy.createTempFiles env targetBytes fs)
  = List.filter (fun f => negb (Occupy.globMatch (Occupy.fname f))) fs.
Proof. apply unrelated_createTempFiles. Qed.

(** X8: growing the disk padding and then cleaning up, with no removal
    failing in the cleanup. Where [filepath.Glob] finds the temporary
    directory, this leaves exactly the files of the directory that are not
    padding files, whatever the grow did or failed to do, and a directory
    that held no padding file is back as it was. Where it does not, the
    cleanup leaves everything the grow has written. *)
Theorem X8_grow_then_cleanup (dir : Occupy.TempDir) (grow clean : Occupy.DiskEnv)
  (targetBytes : Z) (fs : list Occupy.File) :
  (forall name : string, Occupy.removeErr clean name = false) ->
  let grown := Occupy.createTempFiles grow targetBytes fs in
  Occupy.cleanupAllTempFiles dir clean grown
    = (if globFinds dir clean
       then List.filter (fun f => negb (Occupy.globMatch (Occupy.fname f))) fs
       else grown)
  /\ (globFinds dir clean = true ->
      (forall f : Occupy.File, In f fs -> Occupy.globMatch (Occupy.fname f) = false) ->
      Occupy.cleanupAllTempFiles dir clean grown = fs).
Proof.
  intros Hok grown.
  assert (H : globFinds dir clean = true ->
              Occupy.cleanupAllTempFiles dir clean grown = List.filter unrelated fs).
  { intros Hdir. rewrite cleanup_filter by exact Hdir.
    rewrite <- (unrelated_createTempFiles grow targetBytes fs).
    apply List.filter_ext. intros f. unfold survives. rewrite Hok. apply Bool.orb_false_r. }
  split.
  - destruct (globFinds dir clean) eqn:Hdir; [apply H; reflexivity|].
    apply cleanupAllTempFiles_missed. exact Hdir.
  - intros Hdir Hnone. rewrite (H Hdir). apply List.forallb_filter_id.
    apply forallb_forall.
    intros f Hf. unfold unrelated. rewrite (Hnone f Hf). reflexivity.
Qed.

Lemma X8_grow_then_cleanup_witness :
  (forall name : string, Occupy.removeErr disk0 name = false)
  /\ Occupy.cleanupAllTempFiles dir0 disk0
       (Occupy.createTempFiles disk0 (12 * GB) [Occupy.mkFile "notes.txt" 7])
     = [Occupy.mkFile "notes.txt" 7]
  /\ Occupy.cleanupAllTempFiles dirMeta disk0
       (Occupy.createTempFiles disk0 (12 * GB) [Occupy.mkFile "notes.txt" 7])
     = Occupy.createTempFiles disk0 (12 * GB) [Occupy.mkFile "notes.txt" 7].
Proof.
  assert (H : forall name : string, Occupy.removeErr disk0 name = false)
    by (intros name; reflexivity).
  split; [exact H|]. split.
  - pose proof (X8_grow_then_cleanup dir0 disk0 disk0 (12 * GB)
                  [Occupy.mkFile "notes.txt" 7] H) as [Hf _].
    rewrite Hf. vm_compute. reflexivity.
  - pose proof (X8_grow_then_cleanup dirMeta disk0 disk0 (12 * GB)
                  [Occupy.mkFile "notes.txt" 7] H) as [Hf _].
    rewrite Hf. reflexivity.
Defined.

(** ** The loop and its channels *)

Lemma adjustCPUWorkers_channels (n : Z) (m : Occupy.ResourceMonitor) :
  Occupy.stop (Occupy.adjustCPUWorkers n m) = Occupy.stop m
  /\ Occupy.cleanupDone (Occupy.adjustCPUWorkers n m) = Occupy.cleanupDone m.
Proof.
  destruct m as [c s d a t cur mem].
  unfold Occupy.adjustCPUWorkers, Occupy.startCPULoadInternal,
    Occupy.stopCPULoadInternal, Occupy.set_cpu. simpl.
  destruct (t =? n); [split; reflexivity|].
  destruct (n =? 0), a; simpl; try (split; reflexivity).
  destruct (cur =? n); simpl; split; reflexivity.
Qed.

Lemma adjustCPUUsage_stop (NumCPU : positive) (current : F64) (w : Occupy.World) :
  Occupy.stop (Occupy.rm (Occupy.adjustCPUUsage NumCPU current w))
  = Occupy.stop (Occupy.rm w).
Proof.
  unfold Occupy.adjustCPUUsage. case_ifs; try reflexivity;
    apply adjustCPUWorkers_channels.
Qed.

Lemma adjustCPUUsage_cleanupDone (NumCPU : positive) (current : F64) (w : Occupy.World) :
  Occupy.cleanupDone (Occupy.rm (Occupy.adjustCPUUsage NumCPU current w))
  = Occupy.cleanupDone (Occupy.rm w).
Proof.
  unfold Occupy.adjustCPUUsage. case_ifs; try reflexivity;
    apply adjustCPUWorkers_channels.
Qed.

Lemma adjustMemoryUsage_cleanupDone (current : F64) (memInfo : VirtualMemoryStat)
  (w : Occupy.World) :
  Occupy.cleanupDone (Occupy.rm (Occupy.adjustMemoryUsage current memInfo w))
  = Occupy.cleanupDone (Occupy.rm w).
Proof.
  unfold Occupy.adjustMemoryUsage. case_ifs; try reflexivity.
  cbn [Occupy.rm Occupy.with_rm Occupy.record]. unfold Occupy.releaseMemory.
  destruct (Occupy.AllocatedMemory (Occupy.rm w)); reflexivity.
Qed.

Lemma arrive_cleanupDone (env : Occupy.TickEnv) (k : nat) (w : Occupy.World) :
  Occupy.cleanupDone (Occupy.rm (Occupy.arrive env k w)) = Occupy.cleanupDone (Occupy.rm w).
Proof. destruct (arrive_rm env k w) as [->| ->]; reflexivity. Qed.

Lemma monitorAndAdjust_cleanupDone (env : Occupy.TickEnv) (w : Occupy.World) :
  Occupy.cleanupDone (Occupy.rm (Occupy.monitorAndAdjust env w))
  = Occupy.cleanupDone (Occupy.rm w).
Proof.
  unfold Occupy.monitorAndAdjust.
  repeat first
    [ apply (checkStop_ind
               (fun w' => Occupy.cleanupDone (Occupy.rm w') = Occupy.cleanupDone (Occupy.rm w)));
      [|intros _]
    | match goal with
      | |- context [match ?r with Ok _ => _ | Err => _ end] => destruct r
      end
    | match goal with
      | |- context [match ?l with [] => _ | _ :: _ => _ end] => destruct l
      end ];
    rewrite ?adjustCPUUsage_cleanupDone, ?adjustMemoryUsage_cleanupDone,
      ?arrive_cleanupDone, ?adjustDiskUsage_rm, ?arrive_cleanupDone, ?panic_rm;
    repeat (rewrite ?adjustCPUUsage_cleanupDone, ?adjustMemoryUsage_cleanupDone,
              ?arrive_cleanupDone, ?adjustDiskUsage_rm, ?panic_rm);
    reflexivity.
Qed.

(** The loop panics for two reasons only: a second close of [cleanupDone],
    and a tick whose CPU sample succeeds with an empty slice. *)
Lemma startLoop_panics (schedule : list Occupy.Select) :
  forall w : Occupy.World,
    snd (Occupy.startLoop schedule w) = Occupy.Panicked ->
    Occupy.panicked w = true
    \/ Occupy.cleanupDone (Occupy.rm w) = true
    \/ exists env : Occupy.TickEnv,
         In (Occupy.TickerFires env) schedule /\ Occupy.Percent env = Ok [].
Proof.
  induction schedule as [|[env|env|] rest IH]; intros w H;
    cbn [Occupy.startLoop] in H;
    destruct (Occupy.panicked w) eqn:Hp; auto.
  - discriminate H.
  - destruct (IH _ H) as [Hp'|[Hd|(e & Hin & He)]].
    + destruct (monitorAndAdjust_panicked env w Hp') as [Hw|He]; [congruence|].
      right. right. exists env. split; [left; reflexivity|exact He].
    + right. left. rewrite <- Hd. symmetry. apply monitorAndAdjust_cleanupDone.
    + right. right. exists e. split; [right; exact Hin|exact He].
  - destruct (Occupy.stop (Occupy.rm w)).
    + rewrite cleanupAllResources_rm, cleanup_monitor_cleanupDone in H.
      destruct (Occupy.cleanupDone (Occupy.rm w)); [auto|discriminate H].
    + destruct (IH _ H) as [Hp'|[Hd|(e & Hin & He)]]; [congruence|auto|].
      right. right. exists e. split; [right; exact Hin|exact He].
  - destruct (IH _ H) as [Hp'|[Hd|(e & Hin & He)]].
    + cbn [Occupy.panicked Occupy.with_rm] in Hp'. congruence.
    + right. left. destruct w as [m d fs cs p]. destruct m. exact Hd.
    + right. right. exists e. split; [right; exact Hin|exact He].
Qed.

(** [Start] panics for three reasons only: an interval that is not
    positive, a second close of [cleanupDone], and a tick whose CPU sample
    succeeds with an empty slice. *)
Lemma Start_panics (schedule : list Occupy.Select) (w : Occupy.World) :
  Occupy.panicked w = false ->
  snd (Occupy.Start schedule w) = Occupy.Panicked ->
  Occupy.Interval (Occupy.Config (Occupy.rm w)) <= 0
  \/ Occupy.cleanupDone (Occupy.rm w) = true
  \/ exists env : Occupy.TickEnv,
       In (Occupy.TickerFires env) schedule /\ Occupy.Percent env = Ok [].
Proof.
  intros Hp H. unfold Occupy.Start in H.
  destruct (Z.leb_spec (Occupy.Interval (Occupy.Config (Occupy.rm w))) 0) as [Hi|Hi];
    [left; exact Hi|right].
  destruct (startLoop_panics schedule w H) as [Hp'|[Hd|He]]; [congruence|auto|auto].
Qed.

Lemma set_stop_closed (w : Occupy.World) :
  Occupy.stop (Occupy.rm w) = true -> Occupy.with_rm (Occupy.set_stop true) w = w.
Proof.
  destruct w as [m d fs cs p]. destruct m. simpl. intros ->. reflexivity.
Qed.

Lemma startLoop_looping (schedule : list Occupy.Select) :
  forall w w' : Occupy.World,
    Occupy.startLoop schedule w = (w', Occupy.Looping) ->
    Occupy.cleanupDone (Occupy.rm w') = Occupy.cleanupDone (Occupy.rm w)
    /\ List.filter isCleanup (Occupy.calls w') = List.filter isCleanup (Occupy.calls w).
Proof.
  induction schedule as [|[env|env|] rest IH]; intros w w' H;
    cbn [Occupy.startLoop] in H;
    destruct (Occupy.panicked w); try discriminate H.
  - injection H as <-. split; reflexivity.
  - apply IH in H as [H1 H2]. rewrite H1, H2, monitorAndAdjust_cleanupDone.
    split; [reflexivity|].
    destruct (monitorAndAdjust_calls env w) as (l & -> & Hl).
    rewrite List.filter_app, (tickCalls_no_cleanup l Hl), app_nil_r. reflexivity.
  - destruct (Occupy.stop (Occupy.rm w)).
    + destruct (Occupy.cleanupDone _); discriminate H.
    + apply IH. exact H.
  - apply IH in H as [H1 H2]. rewrite H1, H2. split; reflexivity.
Qed.

(** X9: as long as [Start] has not returned, [cleanupDone] is as it was and
    no step of the cleanup pass has been logged: only the [stop] case of
    the loop runs the cleanup and closes the channel. *)
Theorem X9_looping_never_cleans_up (schedule : list Occupy.Select)
  (w w' : Occupy.World) :
  Occupy.Start schedule w = (w', Occupy.Looping) ->
  Occupy.cleanupDone (Occupy.rm w') = Occupy.cleanupDone (Occupy.rm w)
  /\ List.filter isCleanup (Occupy.calls w') = List.filter isCleanup (Occupy.calls w).
Proof.
  intros H. rewrite (Start_interval _ _ _ _ H) in H by discriminate.
  exact (startLoop_looping schedule w w' H).
Qed.

Lemma X9_looping_never_cleans_up_witness :
  Occupy.Start [Occupy.TickerFires tick0; Occupy.StopCalled] world0
  = (fst (Occupy.Start [Occupy.TickerFires tick0; Occupy.StopCalled] world0),
     Occupy.Looping)
  /\ Occupy.cleanupDone
       (Occupy.rm (fst (Occupy.Start [Occupy.TickerFires tick0; Occupy.StopCalled] world0)))
     = false.
Proof.
  assert (H : Occupy.Start [Occupy.TickerFires tick0; Occupy.StopCalled] world0
              = (fst (Occupy.Start [Occupy.TickerFires tick0; Occupy.StopCalled] world0),
                 Occupy.Looping)) by (vm_compute; reflexivity).
  split; [exact H|].
  apply (X9_looping_never_cleans_up _ _ _ H).
Defined.

(** X10: [stop] is closed, the ticker could be made and nothing has
    panicked. Whatever else the loop meets before it, the first [stop] case
    it takes ends [Start]: [Start] returns when [cleanupDone] is still
    open, and panics on the second close of [cleanupDone] when it is not.
    Until then the loop changes nothing: ticks return at their first
    check. *)
Theorem X10_closed_stop_ends_the_loop (schedule : list Occupy.Select)
  (w : Occupy.World) :
  Occupy.stop (Occupy.rm w) = true ->
  0 < Occupy.Interval (Occupy.Config (Occupy.rm w)) ->
  Occupy.panicked w = false ->
  ((exists env : Occupy.DiskEnv, In (Occupy.StopCase env) schedule) ->
   snd (Occupy.Start schedule w)
   = if Occupy.cleanupDone (Occupy.rm w) then Occupy.Panicked else Occupy.Returned)
  /\ (snd (Occupy.Start schedule w) = Occupy.Looping ->
      fst (Occupy.Start schedule w) = w)
  /\ (forall (env : Occupy.DiskEnv) (before rest : list Occupy.Select),
        schedule = before ++ Occupy.StopCase env :: rest ->
        (forall e : Occupy.DiskEnv, ~ In (Occupy.StopCase e) before) ->
        Occupy.cleanupDone (Occupy.rm w) = false ->
        fst (Occupy.Start schedule w)
        = Occupy.with_rm (Occupy.set_cleanupDone true)
            (Occupy.record Occupy.CloseCleanupDone (Occupy.cleanupAllResources env w))).
Proof.
  intros Hs Hi Hp. rewrite (Start_startLoop schedule w Hi).
  assert (Hstep : forall s : Occupy.Select,
             (forall e, s <> Occupy.StopCase e) ->
             forall rest, Occupy.startLoop (s :: rest) w = Occupy.startLoop rest w).
  { intros [env|env|] Hne rest; cbn [Occupy.startLoop]; rewrite Hp.
    - rewrite monitorAndAdjust_stopped by exact Hs. reflexivity.
    - exfalso. exact (Hne env eq_refl).
    - rewrite set_stop_closed by exact Hs. reflexivity. }
  assert (Hcase : forall env rest,
             Occupy.startLoop (Occupy.StopCase env :: rest) w
             = if Occupy.cleanupDone (Occupy.rm w)
               then (Occupy.panic (Occupy.cleanupAllResources env w), Occupy.Panicked)
               else (Occupy.with_rm (Occupy.set_cleanupDone true)
                       (Occupy.record Occupy.CloseCleanupDone
                          (Occupy.cleanupAllResources env w)), Occupy.Returned)).
  { intros env rest. cbn [Occupy.startLoop].
    rewrite Hp, Hs, cleanupAllResources_rm, cleanup_monitor_cleanupDone. reflexivity. }
  split; [|split].
  - intros [env Hin]. induction schedule as [|s rest IH]; [destruct Hin|].
    destruct s as [e|e|]; try (rewrite Hstep by discriminate;
      destruct Hin as [Hin|Hin]; [discriminate Hin|exact (IH Hin)]).
    rewrite Hcase. destruct (Occupy.cleanupDone (Occupy.rm w)); reflexivity.
  - induction schedule as [|s rest IH];
      [cbn [Occupy.startLoop]; rewrite Hp; reflexivity|].
    destruct s as [e|e|]; try (rewrite Hstep by discriminate; exact IH).
    rewrite Hcase. destruct (Occupy.cleanupDone (Occupy.rm w)); discriminate.
  - intros env before rest -> Hnone Hd.
    induction before as [|s before IH].
    + cbn [app]. rewrite Hcase, Hd. reflexivity.
    + rewrite <- app_comm_cons. rewrite Hstep.
      * apply IH. intros e Hin. apply (Hnone e). right. exact Hin.
      * intros e ->. apply (Hnone e). left. reflexivity.
Qed.

Lemma X10_closed_stop_ends_the_loop_witness :
  Occupy.stop (Occupy.rm (Occupy.with_rm (Occupy.set_stop true) world0)) = true
  /\ 0 < Occupy.Interval
           (Occupy.Config (Occupy.rm (Occupy.with_rm (Occupy.set_stop true) world0)))
  /\ Occupy.panicked (Occupy.with_rm (Occupy.set_stop true) world0) = false
  /\ snd (Occupy.Start [Occupy.TickerFires tick0; Occupy.StopCase disk0]
            (Occupy.with_rm (Occupy.set_stop true) world0)) = Occupy.Returned.
Proof.
  assert (H : Occupy.stop (Occupy.rm (Occupy.with_rm (Occupy.set_stop true) world0)) = true)
    by reflexivity.
  assert (Hi : 0 < Occupy.Interval
                     (Occupy.Config
                        (Occupy.rm (Occupy.with_rm (Occupy.set_stop true) world0))))
    by reflexivity.
  assert (Hp : Occupy.panicked (Occupy.with_rm (Occupy.set_stop true) world0) = false)
    by reflexivity.
  split; [exact H|]. split; [exact Hi|]. split; [exact Hp|].
  apply (X10_closed_stop_ends_the_loop
           [Occupy.TickerFires tick0; Occupy.StopCase disk0] _ H Hi Hp).
  exists disk0. right. left. reflexivity.
Defined.

(** ** Callers of [Stop] *)

Lemma StopStep_closed (timedOut : bool) (pc : Occupy.StopPC) (m : Occupy.ResourceMonitor) :
  Occupy.stop m = true -> stopSafe pc ->
  snd (Occupy.StopStep timedOut pc m) = m
  /\ stopSafe (fst (Occupy.StopStep timedOut pc m)).
Proof.
  intros Hs [->|[->| ->]]; simpl; rewrite ?Hs; simpl.
  - split; [reflexivity|right; right; reflexivity].
  - destruct (Occupy.cleanupDone m || timedOut); simpl; split; try reflexivity;
      [right; right; reflexivity|right; left; reflexivity].
  - split; [reflexivity|right; right; reflexivity].
Qed.

(** X11: when [stop] is already closed, any number of callers of [Stop],
    stepped in any order, leave the monitor untouched and none of them
    closes the channel again or panics. *)
Theorem X11_Stop_on_closed_channel (schedule : list (nat * bool))
  (pcs : list Occupy.StopPC) (m : Occupy.ResourceMonitor) :
  Occupy.stop m = true ->
  Forall stopSafe pcs ->
  snd (Occupy.StopConcurrently schedule pcs m) = m
  /\ Forall stopSafe (fst (Occupy.StopConcurrently schedule pcs m))
  /\ ~ In Occupy.StopPanicked (fst (Occupy.StopConcurrently schedule pcs m)).
Proof.
  intros Hs. revert pcs.
  assert (Hmain : forall pcs, Forall stopSafe pcs ->
            snd (Occupy.StopConcurrently schedule pcs m) = m
            /\ Forall stopSafe (fst (Occupy.StopConcurrently schedule pcs m))).
  { induction schedule as [|[caller timedOut] rest IH]; intros pcs Hsafe.
    - split; [reflexivity|exact Hsafe].
    - simpl. destruct (pcs !! caller) as [pc|] eqn:Hpc; [|apply IH; exact Hsafe].
      assert (Hpcsafe : stopSafe pc)
        by (eapply Forall_lookup_1; eassumption).
      destruct (StopStep_closed timedOut pc m Hs Hpcsafe) as [Hm Hsafe'].
      destruct (Occupy.StopStep timedOut pc m) as [pc' m'] eqn:Hstep. simpl in *. subst m'.
      apply IH. apply Forall_insert; assumption. }
  intros pcs Hsafe. destruct (Hmain pcs Hsafe) as [H1 H2].
  repeat split; [exact H1|exact H2|].
  intros Hin. rewrite Forall_forall in H2. apply list_elem_of_In in Hin.
  destruct (H2 _ Hin) as [H|[H|H]]; discriminate H.
Qed.

Lemma X11_Stop_on_closed_channel_witness :
  Occupy.stop (Occupy.set_stop true (Occupy.NewResourceMonitor config0)) = true
  /\ Forall stopSafe [Occupy.AtCheck; Occupy.AtCheck]
  /\ snd (Occupy.StopConcurrently [(0, false); (1, false); (0, false); (1, false)]%nat
            [Occupy.AtCheck; Occupy.AtCheck]
            (Occupy.set_stop true (Occupy.NewResourceMonitor config0)))
     = Occupy.set_stop true (Occupy.NewResourceMonitor config0).
Proof.
  assert (H1 : Occupy.stop (Occupy.set_stop true (Occupy.NewResourceMonitor config0)) = true)
    by reflexivity.
  assert (H2 : Forall stopSafe [Occupy.AtCheck; Occupy.AtCheck])
    by (repeat constructor; left; reflexivity).
  split; [exact H1|]. split; [exact H2|].
  apply (X11_Stop_on_closed_channel _ _ _ H1 H2).
Defined.

(** X12: a single caller of [Stop], however its steps are spread in time,
    never panics; on an open channel it is the one that closes it. *)
Theorem X12_single_Stop_never_panics (schedule : list (nat * bool))
  (m : Occupy.ResourceMonitor) :
  let pcs' := fst (Occupy.StopConcurrently schedule [Occupy.AtCheck] m) in
  let m' := snd (Occupy.StopConcurrently schedule [Occupy.AtCheck] m) in
  pcs' <> [Occupy.StopPanicked]
  /\ (m' = m \/ m' = Occupy.set_stop true m)
  /\ (pcs' = [Occupy.AtWait] \/ pcs' = [Occupy.StopReturned] ->
      Occupy.stop m' = true).
Proof.
  assert (Hinv : forall (pc : Occupy.StopPC) (m0 : Occupy.ResourceMonitor),
            (m0 = m \/ m0 = Occupy.set_stop true m) ->
            (pc = Occupy.AtCheck
             \/ (pc = Occupy.AtClose /\ Occupy.stop m0 = false)
             \/ ((pc = Occupy.AtWait \/ pc = Occupy.StopReturned)
                 /\ Occupy.stop m0 = true)) ->
            let r := Occupy.StopConcurrently schedule [pc] m0 in
            fst r <> [Occupy.StopPanicked]
            /\ (snd r = m \/ snd r = Occupy.set_stop true m)
            /\ (fst r = [Occupy.AtWait] \/ fst r = [Occupy.StopReturned] ->
                Occupy.stop (snd r) = true)).
  { induction schedule as [|[caller timedOut] rest IH]; intros pc m0 Hm Hpc.
    - simpl. split; [|split; [exact Hm|]].
      + destruct Hpc as [->|[[-> _]|[[->| ->] _]]]; discriminate.
      + intros [E|E]; injection E as ->;
          destruct Hpc as [H|[[H _]|[_ H]]]; try discriminate H; exact H.
    - simpl. destruct caller as [|caller]; simpl; [|apply IH; assumption].
      destruct Hpc as [->|[[-> Hs]|[[->| ->] Hs]]]; simpl.
      + destruct (Occupy.stop m0) eqn:Hs; simpl; apply IH; auto.
      + rewrite Hs. simpl. apply IH.
        * right. destruct Hm as [->| ->]; [reflexivity|destruct m; reflexivity].
        * right. right. split; [left; reflexivity|destruct m0; reflexivity].
      + destruct (Occupy.cleanupDone m0 || timedOut); simpl; apply IH; auto.
      + apply IH; auto. }
  apply Hinv; [left; reflexivity|left; reflexivity].
Qed.

(** ** A tick that is interrupted *)

Lemma checkStop_pass (env : Occupy.TickEnv) (j k : nat) (w : Occupy.World)
  (continue : Occupy.World -> Occupy.World) :
  Occupy.stopAt env = Some j -> Nat.eqb j k = false ->
  Occupy.stop (Occupy.rm w) = false ->
  Occupy.checkStop env k w continue = continue w.
Proof.
  intros Hj Hne Hs. unfold Occupy.checkStop, Occupy.arrive. rewrite Hj, Hne, Hs.
  reflexivity.
Qed.

Lemma checkStop_hit (env : Occupy.TickEnv) (k : nat) (w : Occupy.World)
  (continue : Occupy.World -> Occupy.World) :
  Occupy.stopAt env = Some k ->
  Occupy.checkStop env k w continue = Occupy.with_rm (Occupy.set_stop true) w.
Proof.
  intros Hk. unfold Occupy.checkStop, Occupy.arrive. rewrite Hk, Nat.eqb_refl.
  reflexivity.
Qed.

Ltac pass_checks Hk :=
  repeat (rewrite (checkStop_pass _ _ _ _ _ Hk);
          [|reflexivity
           |rewrite ?adjustMemoryUsage_stop, ?adjustDiskUsage_rm; assumption]).

(** X13: a tick in which every sample succeeds and [stop] is seen closed at
    one of its eight checks stops there: up to the fourth check nothing
    has been adjusted, from the fifth to the seventh only the disk, at the
    eighth the disk and the memory but never the CPU; in every case the
    monitor carries the closed [stop]. The CPU sample holds a value
    whenever the tick gets past the fourth check. *)
Theorem X13_tick_interrupted (env : Occupy.TickEnv) (w : Occupy.World) (k : nat)
  (memInfo memInfoAfterDisk : VirtualMemoryStat) (cpuPercent : list F64)
  (diskInfo : UsageStat) :
  Occupy.stopAt env = Some k -> (k <= 7)%nat ->
  Occupy.stop (Occupy.rm w) = false ->
  Occupy.VirtualMemory env = Ok memInfo ->
  Occupy.Percent env = Ok cpuPercent ->
  ((3 < k)%nat -> cpuPercent <> []) ->
  Occupy.Usage env = Ok diskInfo ->
  Occupy.VirtualMemoryAfterDisk env = Ok memInfoAfterDisk ->
  Occupy.monitorAndAdjust env w = interruptedAt env k diskInfo memInfoAfterDisk w
  /\ Occupy.stop (Occupy.rm (Occupy.monitorAndAdjust env w)) = true
  /\ (~ In Occupy.CallAdjustCPU (Occupy.calls w) ->
      ~ In Occupy.CallAdjustCPU (Occupy.calls (Occupy.monitorAndAdjust env w))).
Proof.
  intros Hk Hle Hs Hm Hc Hne Hd Hm2.
  assert (Heq : Occupy.monitorAndAdjust env w
                = interruptedAt env k diskInfo memInfoAfterDisk w).
  { unfold Occupy.monitorAndAdjust, interruptedAt. rewrite Hm, Hc, Hd, Hm2.
    destruct cpuPercent as [|currentCPUPercent others].
    - do 4 (destruct k as [|k]; [pass_checks Hk; rewrite (checkStop_hit _ _ _ _ Hk);
                                 reflexivity|]).
      exfalso. apply Hne; [lia|reflexivity].
    - do 8 (destruct k as [|k]; [pass_checks Hk; rewrite (checkStop_hit _ _ _ _ Hk);
                                 reflexivity|]).
      lia. }
  rewrite Heq. split; [reflexivity|]. split; [reflexivity|].
  unfold interruptedAt. cbn [Occupy.calls Occupy.with_rm].
  case_ifs; autorewrite with tick; rewrite ?in_app_iff; simpl; intuition discriminate.
Qed.

Lemma X13_tick_interrupted_witness :
  Occupy.stopAt
    (Occupy.mkTickEnv (Some 5%nat) (Ok (mkMemInfo 1000 (Finite 20))) (Ok [Finite 10])
       (Ok (mkDiskInfo 1000 (Finite 20))) (Ok (mkMemInfo 1000 (Finite 20))) 4 disk0)
  = Some 5%nat
  /\ Occupy.calls
       (Occupy.monitorAndAdjust
          (Occupy.mkTickEnv (Some 5%nat) (Ok (mkMemInfo 1000 (Finite 20)))
             (Ok [Finite 10]) (Ok (mkDiskInfo 1000 (Finite 20)))
             (Ok (mkMemInfo 1000 (Finite 20))) 4 disk0) world0)
     = [Occupy.CallAdjustDisk].
Proof.
  split; [reflexivity|].
  pose proof (X13_tick_interrupted
    (Occupy.mkTickEnv (Some 5%nat) (Ok (mkMemInfo 1000 (Finite 20))) (Ok [Finite 10])
       (Ok (mkDiskInfo 1000 (Finite 20))) (Ok (mkMemInfo 1000 (Finite 20))) 4 disk0)
    world0 5 (mkMemInfo 1000 (Finite 20)) (mkMemInfo 1000 (Finite 20)) [Finite 10]
    (mkDiskInfo 1000 (Finite 20))
    eq_refl ltac:(lia) eq_refl eq_refl eq_refl ltac:(discriminate) eq_refl eq_refl)
    as (H & _).
  rewrite H. vm_compute. reflexivity.
Defined.

(** ** A tick that grows everything *)

Lemma piecesOf_nonempty (size bytes : Z) :
  0 < size -> 1 <= bytes -> piecesOf size bytes <> [].
Proof.
  intros Hs Hb E. pose proof (piecesOf_sum size Hs bytes ltac:(lia)) as Hsum.
  rewrite E in Hsum. change (sumZ []) with 0 in Hsum. lia.
Qed.

Lemma createTempFiles_fresh (env : Occupy.DiskEnv) (targetBytes : Z)
  (fs : list Occupy.File) :
  diskHealthy env -> 0 <= targetBytes < 2 ^ 64 ->
  (forall f, In f fs -> Occupy.globMatch (Occupy.fname f) = false) ->
  Occupy.createTempFiles env targetBytes fs
  = fs ++ planFrom env 0 (piecesOf Occupy.fileSize targetBytes).
Proof.
  intros Hh Hb Hnone. pose proof fileSize_pos as Hc.
  unfold Occupy.createTempFiles. pose proof Hh as (-> & _).
  rewrite createLoop_spec; [|exact Hh|exact Hb|unfold Occupy.createFuel; lia].
  simpl. apply writeAll_fresh; [apply planFrom_NoDup|].
  intros f Hf Hin. apply in_map_iff in Hin as (g & Hg & Hin).
  apply planFrom_names in Hf as (j & _ & Hn).
  apply Hnone in Hin. rewrite Hg, Hn, tempFileName_globMatch in Hin. discriminate Hin.
Qed.

Lemma adjustCPUWorkers_grow (g : Z) (m : Occupy.ResourceMonitor) :
  g <> 0 -> cpuConsistent m ->
  (Occupy.ActiveCPULoad m = false -> Occupy.targetCPUWorkers m = 0) ->
  Occupy.ActiveCPULoad (Occupy.adjustCPUWorkers g m) = true
  /\ Occupy.currentCPUWorkers (Occupy.adjustCPUWorkers g m) = g.
Proof.
  intros Hg Hc Hidle.
  destruct (adjustCPUWorkers_spec g m Hc) as (_ & _ & Hn & _).
  destruct (Z.eq_dec g (Occupy.targetCPUWorkers m)) as [E|E].
  - rewrite E, adjustCPUWorkers_same. unfold cpuConsistent in Hc.
    destruct (Occupy.ActiveCPULoad m) eqn:Ha.
    + split; [reflexivity|apply Hc].
    + rewrite (Hidle eq_refl) in E. contradiction.
  - destruct (Hn E) as [H1 H2]. split; [|exact H2].
    rewrite H1. destruct (Z.eqb_spec g 0); [contradiction|reflexivity].
Qed.

(** X14: a tick without interruption in which memory and disk are measured
    below their targets by at least one byte's worth and the CPU more than
    5 points below its target (comparisons and amounts in float64), on a
    disk that works, a directory without padding files, and a spinner pool
    that is consistent and, when idle, has a recorded target of 0 (as in a
    new monitor, and unlike the pool that [stopCPULoad] leaves), grows all
    three: the chunks of the memory request are appended to the pool, the
    spinner pool runs the chosen number of workers, which is the integral
    part of target / 100 * cores brought into the range from 1 to the
    number of CPUs, and the padding files of the disk request are added to
    the directory. *)
Theorem X14_tick_grows_everything (env : Occupy.TickEnv) (w : Occupy.World)
  (memInfo memInfoAfterDisk : VirtualMemoryStat) (currentCPUPercent : F64)
  (others : list F64) (diskInfo : UsageStat) :
  let config := Occupy.Config (Occupy.rm w) in
  let memBytes :=
    uint64_of_float
      ((Occupy.MemoryPercent config - mem_UsedPercent memInfoAfterDisk) / Finite 100
       * float64 (mem_Total memInfoAfterDisk))%F in
  let diskBytes :=
    uint64_of_float
      ((Occupy.DiskPercent config - disk_UsedPercent diskInfo) / Finite 100
       * float64 (disk_Total diskInfo))%F in
  let cores :=
    int_of_float
      (Occupy.CPUPercent config / Finite 100 * float64 (Z.pos (Occupy.NumCPU env)))%F in
  let w' := Occupy.monitorAndAdjust env w in
  Occupy.stopAt env = None -> Occupy.stop (Occupy.rm w) = false ->
  Occupy.VirtualMemory env = Ok memInfo ->
  Occupy.Percent env = Ok (currentCPUPercent :: others) ->
  Occupy.Usage env = Ok diskInfo ->
  Occupy.VirtualMemoryAfterDisk env = Ok memInfoAfterDisk ->
  (mem_UsedPercent memInfoAfterDisk <? Occupy.MemoryPercent config)%F = true ->
  1 <= memBytes ->
  (currentCPUPercent <? Occupy.CPUPercent config - Finite 5)%F = true ->
  cpuConsistent (Occupy.rm w) ->
  (Occupy.ActiveCPULoad (Occupy.rm w) = false -> Occupy.targetCPUWorkers (Occupy.rm w) = 0) ->
  (disk_UsedPercent diskInfo <? Occupy.DiskPercent config)%F = true ->
  1 <= diskBytes ->
  diskHealthy (Occupy.disk env) ->
  (forall f, In f (Occupy.files w) -> Occupy.globMatch (Occupy.fname f) = false) ->
  Occupy.AllocatedMemory (Occupy.rm w')
    = Occupy.AllocatedMemory (Occupy.rm w) ++ piecesOf Occupy.chunkSize memBytes
  /\ piecesOf Occupy.chunkSize memBytes <> []
  /\ Occupy.ActiveCPULoad (Occupy.rm w') = true
  /\ Occupy.currentCPUWorkers (Occupy.rm w')
     = Z.min (Z.pos (Occupy.NumCPU env)) (Z.max 1 cores)
  /\ 1 <= Occupy.currentCPUWorkers (Occupy.rm w') <= Z.pos (Occupy.NumCPU env)
  /\ Occupy.files w'
     = Occupy.files w ++ planFrom (Occupy.disk env) 0 (piecesOf Occupy.fileSize diskBytes)
  /\ piecesOf Occupy.fileSize diskBytes <> [].
Proof.
  intros config memBytes diskBytes cores w' Hn Hs Hm Hc Hd Hm2
    Hmem Hmem1 Hcpu Hcons Hidle Hdisk Hdisk1 Hh Hnone.
  pose proof chunkSize_pos as Hcs. pose proof fileSize_pos as Hfs.
  pose proof (growWorkers_range config (Occupy.NumCPU env)) as Hg.
  pose proof (growWorkers_clamp config (Occupy.NumCPU env)) as Hclamp. fold cores in Hclamp.
  set (wd := Occupy.adjustDiskUsage (Occupy.disk env) (disk_UsedPercent diskInfo) diskInfo w).
  set (wm := Occupy.adjustMemoryUsage (mem_UsedPercent memInfoAfterDisk)
               memInfoAfterDisk wd).
  assert (Hw' : w' = Occupy.adjustCPUUsage (Occupy.NumCPU env) currentCPUPercent wm).
  { unfold w'.
    apply monitorAndAdjust_full with (memInfo := memInfo) (others := others); assumption. }
  assert (Hrd : Occupy.rm wd = Occupy.rm w) by apply adjustDiskUsage_rm.
  assert (Hfd : Occupy.files wd
                = Occupy.files w
                  ++ planFrom (Occupy.disk env) 0 (piecesOf Occupy.fileSize diskBytes)).
  { unfold wd, Occupy.adjustDiskUsage. cbn [Occupy.rm Occupy.record]. fold config.
    rewrite Hdisk. cbn [Occupy.files Occupy.with_files Occupy.record].
    apply createTempFiles_fresh; [exact Hh|apply uint64_of_float_range|exact Hnone]. }
  assert (Hrm : Occupy.rm wm = Occupy.allocateMemory memBytes (Occupy.rm w)).
  { unfold wm, Occupy.adjustMemoryUsage. cbn [Occupy.rm Occupy.record]. rewrite Hrd.
    fold config. rewrite Hmem.
    cbn [Occupy.rm Occupy.with_rm Occupy.record]. rewrite Hrd. reflexivity. }
  assert (Hfm : Occupy.files wm = Occupy.files wd) by apply adjustMemoryUsage_files.
  assert (Hrc : Occupy.rm w'
                = Occupy.adjustCPUWorkers (Occupy.growWorkers config (Occupy.NumCPU env))
                    (Occupy.rm wm)).
  { rewrite Hw'. unfold Occupy.adjustCPUUsage, Occupy.tolerance.
    cbn [Occupy.rm Occupy.record]. rewrite Hrm.
    change (Occupy.Config (Occupy.allocateMemory memBytes (Occupy.rm w))) with config.
    rewrite Hcpu. cbn [Occupy.rm Occupy.with_rm Occupy.record].
    rewrite Hrm. reflexivity. }
  assert (Hgrown : Occupy.AllocatedMemory (Occupy.rm wm)
                   = Occupy.AllocatedMemory (Occupy.rm w)
                     ++ piecesOf Occupy.chunkSize memBytes).
  { rewrite Hrm.
    change (Occupy.AllocatedMemory (Occupy.allocateMemory memBytes (Occupy.rm w)))
      with (snd (Occupy.allocateLoop (Occupy.allocateFuel memBytes) memBytes
                   (Occupy.AllocatedMemory (Occupy.rm w)))).
    rewrite allocateLoop_spec;
      [reflexivity|apply uint64_of_float_range|unfold Occupy.allocateFuel; lia]. }
  assert (Hcm : cpuConsistent (Occupy.rm wm)
                /\ (Occupy.ActiveCPULoad (Occupy.rm wm) = false ->
                    Occupy.targetCPUWorkers (Occupy.rm wm) = 0)).
  { rewrite Hrm. split; [exact Hcons|exact Hidle]. }
  destruct Hcm as [Hcm1 Hcm2].
  destruct (adjustCPUWorkers_grow (Occupy.growWorkers config (Occupy.NumCPU env))
              (Occupy.rm wm) ltac:(lia) Hcm1 Hcm2) as [Hact Hcur].
  destruct (adjustCPUWorkers_spec (Occupy.growWorkers config (Occupy.NumCPU env))
              (Occupy.rm wm) Hcm1) as (_ & _ & _ & Hkeep & _).
  repeat split.
  - rewrite Hrc, Hkeep. exact Hgrown.
  - apply piecesOf_nonempty; lia.
  - rewrite Hrc. exact Hact.
  - rewrite Hrc, Hcur. exact Hclamp.
  - rewrite Hrc, Hcur. lia.
  - rewrite Hrc, Hcur. lia.
  - rewrite Hw', adjustCPUUsage_files, Hfm. exact Hfd.
  - apply piecesOf_nonempty; lia.
Qed.

Lemma tick0_grows_hypotheses :
  diskHealthy (Occupy.disk tick0)
  /\ cpuConsistent (Occupy.rm world0)
  /\ (forall f, In f (Occupy.files world0) -> Occupy.globMatch (Occupy.fname f) = false).
Proof. split; [exact disk0_healthy|]. split; [reflexivity|]. intros f []. Qed.

Lemma X14_tick_grows_everything_witness :
  Occupy.stopAt tick0 = None
  /\ Occupy.AllocatedMemory (Occupy.rm (Occupy.monitorAndAdjust tick0 world0)) = [300]
  /\ Occupy.currentCPUWorkers (Occupy.rm (Occupy.monitorAndAdjust tick0 world0)) = 1.
Proof.
  destruct tick0_grows_hypotheses as (Hh & Hc & Hf).
  split; [reflexivity|].
  pose proof (X14_tick_grows_everything tick0 world0 (mkMemInfo 1000 (Finite 20))
    (mkMemInfo 1000 (Finite 20)) (Finite 10) [] (mkDiskInfo 1000 (Finite 20))
    eq_refl eq_refl eq_refl eq_refl eq_refl eq_refl
    ltac:(vm_compute; reflexivity) ltac:(vm_compute; discriminate)
    ltac:(vm_compute; reflexivity) Hc ltac:(reflexivity)
    ltac:(vm_compute; reflexivity) ltac:(vm_compute; discriminate) Hh Hf)
    as (Hmem & _ & _ & Hcur & _).
  split; [rewrite Hmem; vm_compute; reflexivity|rewrite Hcur; vm_compute; reflexivity].
Defined.

(** ** Disk grow that fails on the way *)

Lemma piecesOf_cons (size r : Z) :
  0 < size -> 0 < r ->
  piecesOf size r = Z.min r size :: piecesOf size (r - Z.min r size).
Proof.
  intros Hs Hr. destruct (Z.lt_ge_cases r size) as [Hlt|Hge].
  - rewrite Z.min_l by lia. rewrite Z.sub_diag, piecesOf_zero by lia.
    apply piecesOf_small; lia.
  - rewrite Z.min_r by lia. apply piecesOf_step; lia.
Qed.

Lemma piecesOf_length (size r : Z) :
  0 < size -> 0 <= r -> (length (piecesOf size r) <= S (Z.to_nat (r / size)))%nat.
Proof.
  intros Hs Hr. unfold piecesOf. rewrite length_app, repeat_length.
  destruct (r mod size =? 0); simpl; lia.
Qed.

Lemma createLoop_step (env : Occupy.DiskEnv) (fuel : nat) (r fileIndex : Z)
  (fs : list Occupy.File) :
  0 < r < 2 ^ 64 ->
  Occupy.createErr env fileIndex = false -> Occupy.writeErr env fileIndex = None ->
  Occupy.createLoop env (S fuel) r fileIndex fs =
  Occupy.createLoop env fuel (r - Z.min r Occupy.fileSize) (fileIndex + 1)
    (writeAll
       [Occupy.mkFile (Occupy.tempFileName (Occupy.now env fileIndex) fileIndex)
          (Z.min r Occupy.fileSize)] fs).
Proof.
  intros Hr Hc Hw. pose proof fileSize_pos as Hfs. cbn [Occupy.createLoop]. rewrite Hc, Hw.
  unfold writeAll. cbn [fold_left Occupy.fname Occupy.fsize].
  destruct (Z.ltb_spec 0 r); [|lia].
  destruct (Z.ltb_spec r Occupy.fileSize).
  - rewrite Z.min_l by lia. rewrite Z.sub_diag. reflexivity.
  - rewrite Z.min_r by lia. rewrite u64_small by lia. reflexivity.
Qed.

Lemma writeAll_app (p1 p2 : list Occupy.File) (fs : list Occupy.File) :
  writeAll (p1 ++ p2) fs = writeAll p2 (writeAll p1 fs).
Proof. unfold writeAll. apply fold_left_app. Qed.

(** The loop as far as nothing fails: the first [k] files are written. *)
Lemma createLoop_prefix (env : Occupy.DiskEnv) (k : nat) :
  forall (fuel : nat) (r fileIndex : Z) (fs : list Occupy.File),
    0 <= r < 2 ^ 64 ->
    (k <= length (piecesOf Occupy.fileSize r))%nat ->
    (k <= fuel)%nat ->
    (forall i, fileIndex <= i < fileIndex + Z.of_nat k ->
               Occupy.createErr env i = false /\ Occupy.writeErr env i = None) ->
    Occupy.createLoop env fuel r fileIndex fs =
    Occupy.createLoop env (fuel - k)
      (r - sumZ (take k (piecesOf Occupy.fileSize r))) (fileIndex + Z.of_nat k)
      (writeAll (planFrom env fileIndex (take k (piecesOf Occupy.fileSize r))) fs).
Proof.
  pose proof fileSize_pos as Hfs.
  induction k as [|k IH]; intros fuel r fileIndex fs Hr Hlen Hfuel Hok.
  - rewrite take_0. change (sumZ []) with 0.
    rewrite Nat.sub_0_r, Z.sub_0_r, Z.add_0_r. reflexivity.
  - assert (Hpos : 0 < r).
    { destruct (Z.eq_dec r 0) as [->|]; [|lia].
      rewrite piecesOf_zero in Hlen by lia. simpl in Hlen. lia. }
    rewrite (piecesOf_cons Occupy.fileSize r) in * by lia.
    destruct fuel as [|fuel]; [lia|].
    destruct (Hok fileIndex ltac:(lia)) as [Hc Hw].
    rewrite createLoop_step by (try assumption; lia).
    rewrite IH; [|lia|simpl in Hlen; lia|lia|intros i Hi; apply Hok; lia].
    rewrite firstn_cons, sumZ_cons. cbn [planFrom].
    change (Occupy.mkFile ?n ?s :: ?l) with ([Occupy.mkFile n s] ++ l).
    rewrite writeAll_app. f_equal; [lia|lia].
Qed.

Lemma planFrom_app (env : Occupy.DiskEnv) (s1 s2 : list Z) :
  forall fileIndex : Z,
    planFrom env fileIndex (s1 ++ s2)
    = planFrom env fileIndex s1 ++ planFrom env (fileIndex + Z.of_nat (length s1)) s2.
Proof.
  induction s1 as [|s s1 IH]; intros fileIndex.
  - simpl. rewrite Z.add_0_r. reflexivity.
  - cbn [app planFrom length]. rewrite IH, Nat2Z.inj_succ.
    replace (fileIndex + 1 + Z.of_nat (length s1))
      with (fileIndex + Z.succ (Z.of_nat (length s1))) by lia.
    reflexivity.
Qed.

Lemma planFrom_length (env : Occupy.DiskEnv) (sizes : list Z) (fileIndex : Z) :
  length (planFrom env fileIndex sizes) = length sizes.
Proof.
  rewrite <- (planFrom_sizes env sizes fileIndex) at 2. rewrite length_map. reflexivity.
Qed.

Lemma planFrom_names_bound (env : Occupy.DiskEnv) (sizes : list Z) :
  forall (fileIndex : Z) (f : Occupy.File),
    In f (planFrom env fileIndex sizes) ->
    exists j : Z,
      fileIndex <= j < fileIndex + Z.of_nat (length sizes)
      /\ Occupy.fname f = Occupy.tempFileName (Occupy.now env j) j.
Proof.
  induction sizes as [|s sizes IH]; intros fileIndex f Hin; [destruct Hin|].
  destruct Hin as [<-|Hin].
  - exists fileIndex. split; [simpl; lia|reflexivity].
  - apply IH in Hin as (j & Hj & Hn). exists j. split; [simpl; lia|exact Hn].
Qed.

(** What is left to write after [k] pieces is not nothing. *)
Lemma piecesOf_rest (size r : Z) (k : nat) :
  0 < size -> 0 <= r -> (k < length (piecesOf size r))%nat ->
  0 < r - sumZ (take k (piecesOf size r)) <= r.
Proof.
  intros Hs Hr Hk.
  pose proof (piecesOf_sum size Hs r Hr) as Hsum.
  pose proof (piecesOf_sizes size Hs r Hr) as Hsizes.
  rewrite <- (take_drop k (piecesOf size r)) in Hsum, Hsizes.
  rewrite sumZ_app in Hsum. apply Forall_app in Hsizes as [H1 H2].
  assert (0 <= sumZ (take k (piecesOf size r))).
  { apply sumZ_nonneg. eapply Forall_impl; [exact H1|]. simpl. intros; lia. }
  assert (0 < sumZ (drop k (piecesOf size r))).
  { destruct (drop k (piecesOf size r)) as [|c l] eqn:E.
    - apply (f_equal (@length Z)) in E. rewrite length_drop in E. simpl in E. lia.
    - inversion H2 as [|? ? Hc Hl]; subst. rewrite sumZ_cons.
      assert (0 <= sumZ l)
        by (apply sumZ_nonneg; eapply Forall_impl; [exact Hl|]; simpl; intros; lia).
      lia. }
  lia.
Qed.

(** The directory when the loop reaches the file of index [k]. *)
Lemma createTempFiles_reaches (env : Occupy.DiskEnv) (targetBytes : Z)
  (fs : list Occupy.File) (k : nat) :
  Occupy.mkdirErr env = false ->
  0 <= targetBytes < 2 ^ 64 ->
  (k < length (piecesOf Occupy.fileSize targetBytes))%nat ->
  (forall i, 0 <= i < Z.of_nat k ->
             Occupy.createErr env i = false /\ Occupy.writeErr env i = None) ->
  exists (fuel : nat) (r : Z),
    0 < r /\
    Occupy.createTempFiles env targetBytes fs =
    snd (Occupy.createLoop env (S fuel) r (Z.of_nat k)
           (writeAll (planFrom env 0 (take k (piecesOf Occupy.fileSize targetBytes))) fs)).
Proof.
  intros Hmk Hb Hk Hok. pose proof fileSize_pos as Hfs.
  pose proof (piecesOf_length Occupy.fileSize targetBytes ltac:(lia) ltac:(lia)) as Hlen.
  pose proof (piecesOf_rest Occupy.fileSize targetBytes k ltac:(lia) ltac:(lia) Hk) as Hrest.
  unfold Occupy.createTempFiles. rewrite Hmk.
  rewrite (createLoop_prefix env k);
    [|exact Hb|lia|unfold Occupy.createFuel; lia|intros i Hi; apply Hok; lia].
  exists (Occupy.createFuel targetBytes - k - 1)%nat.
  exists (targetBytes - sumZ (take k (piecesOf Occupy.fileSize targetBytes))).
  split; [lia|].
  replace (S (Occupy.createFuel targetBytes - k - 1))
    with (Occupy.createFuel targetBytes - k)%nat
    by (unfold Occupy.createFuel in *; lia).
  reflexivity.
Qed.

(** X15: when [os.MkdirAll] fails nothing is written; when [os.Create]
    fails on the file of index [k] after [k] files went well, the grow
    stops there: the first [k] files are in the directory, in full, and
    nothing else was written. *)
Theorem X15_createTempFiles_create_fails (env : Occupy.DiskEnv) (targetBytes : Z)
  (fs : list Occupy.File) (k : nat) :
  (Occupy.mkdirErr env = true -> Occupy.createTempFiles env targetBytes fs = fs)
  /\ (Occupy.mkdirErr env = false ->
      0 <= targetBytes < 2 ^ 64 ->
      (k < length (piecesOf Occupy.fileSize targetBytes))%nat ->
      (forall i, 0 <= i < Z.of_nat k ->
                 Occupy.createErr env i = false /\ Occupy.writeErr env i = None) ->
      Occupy.createErr env (Z.of_nat k) = true ->
      Occupy.createTempFiles env targetBytes fs
        = writeAll (planFrom env 0 (take k (piecesOf Occupy.fileSize targetBytes))) fs
      /\ ((forall f, In f fs -> Occupy.globMatch (Occupy.fname f) = false) ->
          Occupy.createTempFiles env targetBytes fs
          = fs ++ take k (planFrom env 0 (piecesOf Occupy.fileSize targetBytes)))).
Proof.
  split.
  - intros H. unfold Occupy.createTempFiles. rewrite H. reflexivity.
  - intros Hmk Hb Hk Hok Hfail.
    destruct (createTempFiles_reaches env targetBytes fs k Hmk Hb Hk Hok)
      as (fuel & r & Hr & Heq).
    assert (Hres : Occupy.createTempFiles env targetBytes fs
                   = writeAll
                       (planFrom env 0 (take k (piecesOf Occupy.fileSize targetBytes))) fs).
    { rewrite Heq. simpl. destruct (Z.ltb_spec 0 r); [|lia]. rewrite Hfail. reflexivity. }
    split; [exact Hres|].
    intros Hnone. rewrite Hres.
    rewrite <- (take_drop k (piecesOf Occupy.fileSize targetBytes)) at 2.
    rewrite planFrom_app, take_app_length'.
    2:{ rewrite planFrom_length, length_take. lia. }
    apply writeAll_fresh; [apply planFrom_NoDup|].
    intros f Hf Hin. apply in_map_iff in Hin as (g & Hg & Hin).
    apply planFrom_names in Hf as (j & _ & Hn).
    apply Hnone in Hin. rewrite Hg, Hn, tempFileName_globMatch in Hin. discriminate Hin.
Qed.

Lemma X15_createTempFiles_create_fails_witness :
  Occupy.createErr diskCreateFails (Z.of_nat 1) = true
  /\ Occupy.createTempFiles diskCreateFails (12 * GB) []
     = [Occupy.mkFile "go_occupy_temp_1700000000_0.dat" (5 * GB)].
Proof.
  split; [reflexivity|].
  pose proof (X15_createTempFiles_create_fails diskCreateFails (12 * GB) [] 1) as [_ H].
  destruct H as [H _].
  - reflexivity.
  - unfold GB. lia.
  - vm_compute. lia.
  - intros i Hi. assert (i = 0) by lia. subst i. split; reflexivity.
  - reflexivity.
  - rewrite H. vm_compute. reflexivity.
Defined.

Lemma filter_none_named (name : string) (fs : list Occupy.File) :
  ~ In name (map Occupy.fname fs) ->
  List.filter (fun f => negb (String.eqb (Occupy.fname f) name)) fs = fs.
Proof.
  intros Hfresh. apply List.forallb_filter_id, forallb_forall. intros f Hf.
  destruct (String.eqb_spec (Occupy.fname f) name) as [E|E]; [|reflexivity].
  exfalso. apply Hfresh. rewrite <- E. apply in_map. exact Hf.
Qed.

(** X16: in a directory without padding files, when [file.Write] fails on
    the file of index [k] after [k] files went well, the grow stops there;
    if the removal of the unfinished file succeeds, the directory holds
    the old files and the first [k] padding files and no unfinished file;
    if the removal fails too, the unfinished file stays behind them with
    the bytes that were written. *)
Theorem X16_createTempFiles_write_fails (env : Occupy.DiskEnv) (targetBytes : Z)
  (fs : list Occupy.File) (k : nat) (written : Z) :
  Occupy.mkdirErr env = false ->
  0 <= targetBytes < 2 ^ 64 ->
  (k < length (piecesOf Occupy.fileSize targetBytes))%nat ->
  (forall i, 0 <= i < Z.of_nat k ->
             Occupy.createErr env i = false /\ Occupy.writeErr env i = None) ->
  Occupy.createErr env (Z.of_nat k) = false ->
  Occupy.writeErr env (Z.of_nat k) = Some written ->
  (forall f, In f fs -> Occupy.globMatch (Occupy.fname f) = false) ->
  let name := Occupy.tempFileName (Occupy.now env (Z.of_nat k)) (Z.of_nat k) in
  let done := take k (planFrom env 0 (piecesOf Occupy.fileSize targetBytes)) in
  (Occupy.removeErr env name = false ->
   Occupy.createTempFiles env targetBytes fs = fs ++ done)
  /\ (Occupy.removeErr env name = true ->
      Occupy.createTempFiles env targetBytes fs
      = fs ++ done ++ [Occupy.mkFile name written]).
Proof.
  intros Hmk Hb Hk Hok Hcreate Hwrite Hnone name done.
  destruct (createTempFiles_reaches env targetBytes fs k Hmk Hb Hk Hok)
    as (fuel & r & Hr & Heq).
  assert (Hdone : planFrom env 0 (take k (piecesOf Occupy.fileSize targetBytes)) = done).
  { unfold done.
    rewrite <- (take_drop k (piecesOf Occupy.fileSize targetBytes)) at 2.
    rewrite planFrom_app, take_app_length'; [reflexivity|].
    rewrite planFrom_length, length_take. lia. }
  assert (Hfresh : forall f, In f done -> ~ In (Occupy.fname f) (map Occupy.fname fs)).
  { intros f Hf Hin. apply in_map_iff in Hin as (g & Hg & Hin).
    rewrite <- Hdone in Hf. apply planFrom_names in Hf as (j & _ & Hn).
    apply Hnone in Hin. rewrite Hg, Hn, tempFileName_globMatch in Hin. discriminate Hin. }
  assert (Hwritten : writeAll (planFrom env 0 (take k (piecesOf Occupy.fileSize targetBytes)))
                       fs = fs ++ done).
  { rewrite Hdone. apply writeAll_fresh; [|exact Hfresh].
    rewrite <- Hdone. apply planFrom_NoDup. }
  assert (Hname : ~ In name (map Occupy.fname (fs ++ done))).
  { rewrite map_app, in_app_iff. intros [Hin|Hin].
    - apply in_map_iff in Hin as (g & Hg & Hin). apply Hnone in Hin.
      rewrite Hg in Hin. unfold name in Hin. rewrite tempFileName_globMatch in Hin.
      discriminate Hin.
    - apply in_map_iff in Hin as (g & Hg & Hin). rewrite <- Hdone in Hin.
      apply planFrom_names_bound in Hin as (j & Hj & Hn).
      rewrite length_take in Hj. rewrite Hn in Hg. unfold name in Hg.
      apply tempFileName_inj in Hg. lia. }
  rewrite Heq, Hwritten. cbn [Occupy.createLoop]. fold name.
  destruct (Z.ltb_spec 0 r); [|lia]. rewrite Hcreate, Hwrite.
  rewrite (osCreate_fresh name (fs ++ done) Hname written).
  unfold Occupy.osRemove. split; intros ->; cbn [snd].
  - rewrite List.filter_app. cbn [List.filter Occupy.fname].
    rewrite String.eqb_refl. cbn [negb]. rewrite app_nil_r.
    apply filter_none_named. exact Hname.
  - rewrite <- app_assoc. reflexivity.
Qed.

Lemma X16_createTempFiles_write_fails_witness :
  Occupy.writeErr diskWriteFails (Z.of_nat 1) = Some 10
  /\ Occupy.createTempFiles diskWriteFails (12 * GB) [Occupy.mkFile "notes.txt" 7]
     = [Occupy.mkFile "notes.txt" 7;
        Occupy.mkFile "go_occupy_temp_1700000000_0.dat" (5 * GB)].
Proof.
  split; [reflexivity|].
  pose proof (X16_createTempFiles_write_fails diskWriteFails (12 * GB)
                [Occupy.mkFile "notes.txt" 7] 1 10) as H.
  destruct H as [H _].
  - reflexivity.
  - unfold GB. lia.
  - vm_compute. lia.
  - intros i Hi. assert (i = 0) by lia. subst i. split; reflexivity.
  - reflexivity.
  - reflexivity.
  - intros f [<-|[]]. reflexivity.
  - rewrite H; [|reflexivity]. vm_compute. reflexivity.
Defined.

(** ** Invariants of a tick *)

Lemma arrive_mem (env : Occupy.TickEnv) (k : nat) (w : Occupy.World) :
  Occupy.AllocatedMemory (Occupy.rm (Occupy.arrive env k w))
  = Occupy.AllocatedMemory (Occupy.rm w)
  /\ Occupy.Config (Occupy.rm (Occupy.arrive env k w)) = Occupy.Config (Occupy.rm w).
Proof. destruct (arrive_rm env k w) as [->| ->]; split; reflexivity. Qed.

Lemma adjustMemoryUsage_poolOK (current : F64) (memInfo : VirtualMemoryStat)
  (w : Occupy.World) :
  poolOK (Occupy.AllocatedMemory (Occupy.rm w)) ->
  ((current <? Occupy.MemoryPercent (Occupy.Config (Occupy.rm w)))%F = true ->
   sumZ (Occupy.AllocatedMemory (Occupy.rm w))
   + uint64_of_float
       ((Occupy.MemoryPercent (Occupy.Config (Occupy.rm w)) - current) / Finite 100
        * float64 (mem_Total memInfo))%F < 2 ^ 64) ->
  poolOK (Occupy.AllocatedMemory (Occupy.rm (Occupy.adjustMemoryUsage current memInfo w))).
Proof.
  intros Hok Hfit. pose proof chunkSize_pos as Hc. pose proof Hok as [Hpos Hlt].
  unfold Occupy.adjustMemoryUsage. cbn [Occupy.rm Occupy.record].
  set (bytes := uint64_of_float
                  ((Occupy.MemoryPercent (Occupy.Config (Occupy.rm w)) - current) / Finite 100
                   * float64 (mem_Total memInfo))%F) in *.
  assert (Hb : 0 <= bytes < 2 ^ 64) by apply uint64_of_float_range.
  destruct (fltb current _).
  - specialize (Hfit eq_refl). cbn [Occupy.rm Occupy.with_rm Occupy.record].
    change (Occupy.AllocatedMemory (Occupy.allocateMemory bytes (Occupy.rm w)))
      with (snd (Occupy.allocateLoop (Occupy.allocateFuel bytes) bytes
                   (Occupy.AllocatedMemory (Occupy.rm w)))).
    rewrite allocateLoop_spec; [|exact Hb|unfold Occupy.allocateFuel; lia].
    cbn [snd]. split.
    + apply Forall_app. split; [exact Hpos|].
      eapply Forall_impl; [apply piecesOf_sizes; lia|]. simpl. intros; lia.
    + rewrite sumZ_app, piecesOf_sum by lia. exact Hfit.
  - destruct (fltb _ current); [|exact Hok].
    cbn [Occupy.rm Occupy.with_rm Occupy.record]. rewrite releaseMemory_mem.
    apply releaseBytes_spec; [exact Hok|apply uint64_of_float_range].
Qed.

Lemma adjustCPUUsage_mem (NumCPU : positive) (current : F64) (w : Occupy.World) :
  Occupy.AllocatedMemory (Occupy.rm (Occupy.adjustCPUUsage NumCPU current w))
  = Occupy.AllocatedMemory (Occupy.rm w).
Proof.
  assert (H : forall n m, Occupy.AllocatedMemory (Occupy.adjustCPUWorkers n m)
                          = Occupy.AllocatedMemory m).
  { intros n m. destruct m as [c s d a t cur mem].
    unfold Occupy.adjustCPUWorkers, Occupy.startCPULoadInternal,
      Occupy.stopCPULoadInternal, Occupy.set_cpu. simpl.
    destruct (t =? n); [reflexivity|].
    destruct (n =? 0), a; simpl; try reflexivity.
    destruct (cur =? n); reflexivity. }
  unfold Occupy.adjustCPUUsage. case_ifs; try reflexivity; apply H.
Qed.

(** X17: a tick keeps the memory pool well formed (no empty chunk, lengths
    that fit a [uint64] together), whatever it samples and wherever it
    stops, panic included, provided that, when the second memory sample
    lies below the target, the amount to grow by still fits beside what is
    held. Ticks that release, and ticks inside the band, need no
    condition. *)
Theorem X17_tick_keeps_pool_well_formed (env : Occupy.TickEnv) (w : Occupy.World) :
  poolOK (Occupy.AllocatedMemory (Occupy.rm w)) ->
  (forall memInfo : VirtualMemoryStat,
      Occupy.VirtualMemoryAfterDisk env = Ok memInfo ->
      (mem_UsedPercent memInfo <? Occupy.MemoryPercent (Occupy.Config (Occupy.rm w)))%F
      = true ->
      sumZ (Occupy.AllocatedMemory (Occupy.rm w))
      + uint64_of_float
          ((Occupy.MemoryPercent (Occupy.Config (Occupy.rm w)) - mem_UsedPercent memInfo)
           / Finite 100 * float64 (mem_Total memInfo))%F < 2 ^ 64) ->
  poolOK (Occupy.AllocatedMemory (Occupy.rm (Occupy.monitorAndAdjust env w))).
Proof.
  intros Hok Hfit. unfold Occupy.monitorAndAdjust.
  set (P := fun w' : Occupy.World => poolOK (Occupy.AllocatedMemory (Occupy.rm w'))).
  assert (Hsame : forall w1,
             Occupy.AllocatedMemory (Occupy.rm w1) = Occupy.AllocatedMemory (Occupy.rm w) ->
             P w1) by (intros w1 E; unfold P; rewrite E; exact Hok).
  assert (Ha : forall k w1,
             Occupy.AllocatedMemory (Occupy.rm w1) = Occupy.AllocatedMemory (Occupy.rm w)
             /\ Occupy.Config (Occupy.rm w1) = Occupy.Config (Occupy.rm w) ->
             Occupy.AllocatedMemory (Occupy.rm (Occupy.arrive env k w1))
             = Occupy.AllocatedMemory (Occupy.rm w)
             /\ Occupy.Config (Occupy.rm (Occupy.arrive env k w1))
                = Occupy.Config (Occupy.rm w)).
  { intros k w1 [E1 E2]. destruct (arrive_mem env k w1) as [-> ->]. split; assumption. }
  assert (Hd : forall e c d w1,
             Occupy.AllocatedMemory (Occupy.rm w1) = Occupy.AllocatedMemory (Occupy.rm w)
             /\ Occupy.Config (Occupy.rm w1) = Occupy.Config (Occupy.rm w) ->
             Occupy.AllocatedMemory (Occupy.rm (Occupy.adjustDiskUsage e c d w1))
             = Occupy.AllocatedMemory (Occupy.rm w)
             /\ Occupy.Config (Occupy.rm (Occupy.adjustDiskUsage e c d w1))
                = Occupy.Config (Occupy.rm w)).
  { intros e c d w1 H. rewrite adjustDiskUsage_rm. exact H. }
  assert (H0 : Occupy.AllocatedMemory (Occupy.rm w) = Occupy.AllocatedMemory (Occupy.rm w)
               /\ Occupy.Config (Occupy.rm w) = Occupy.Config (Occupy.rm w))
    by (split; reflexivity).
  apply (checkStop_ind P); [apply Hsame, Ha, H0|intros _].
  destruct (Occupy.VirtualMemory env); [|apply Hsame, Ha, H0].
  apply (checkStop_ind P); [apply Hsame; repeat apply Ha; exact H0|intros _].
  destruct (Occupy.Percent env); [|apply Hsame; repeat apply Ha; exact H0].
  apply (checkStop_ind P); [apply Hsame; repeat apply Ha; exact H0|intros _].
  destruct (Occupy.Usage env); [|apply Hsame; repeat apply Ha; exact H0].
  apply (checkStop_ind P); [apply Hsame; repeat apply Ha; exact H0|intros _].
  destruct a0 as [|currentCPUPercent others];
    [apply Hsame; rewrite panic_rm; repeat apply Ha; exact H0|].
  apply (checkStop_ind P);
    [apply Hsame, Ha, Hd; repeat apply Ha; exact H0|intros _].
  apply (checkStop_ind P);
    [apply Hsame, Ha, Ha, Hd; repeat apply Ha; exact H0|intros _].
  destruct (Occupy.VirtualMemoryAfterDisk env) as [memInfo|] eqn:Hm2;
    [|apply Hsame, Ha, Ha, Hd; repeat apply Ha; exact H0].
  match goal with
  | |- P (Occupy.checkStop _ _ ?w1 _) =>
      assert (Hw1 : Occupy.AllocatedMemory (Occupy.rm w1)
                    = Occupy.AllocatedMemory (Occupy.rm w)
                    /\ Occupy.Config (Occupy.rm w1) = Occupy.Config (Occupy.rm w))
        by (apply Ha, Ha, Hd; repeat apply Ha; exact H0)
  end.
  apply (checkStop_ind P); [apply Hsame, Ha, Hw1|intros _].
  match goal with
  | |- P (Occupy.checkStop _ _ (Occupy.adjustMemoryUsage ?c ?i ?w2) _) =>
      assert (Hw2 : Occupy.AllocatedMemory (Occupy.rm w2)
                    = Occupy.AllocatedMemory (Occupy.rm w)
                    /\ Occupy.Config (Occupy.rm w2) = Occupy.Config (Occupy.rm w))
        by (apply Ha, Hw1);
      assert (Hadj : P (Occupy.adjustMemoryUsage c i w2))
  end.
  { destruct Hw2 as [E1 E2]. apply adjustMemoryUsage_poolOK; rewrite ?E1, ?E2; [exact Hok|].
    apply Hfit. reflexivity. }
  assert (HPa : forall k w1, P w1 -> P (Occupy.arrive env k w1)).
  { intros k w1 H. unfold P. destruct (arrive_mem env k w1) as [-> _]. exact H. }
  apply (checkStop_ind P); [apply HPa, Hadj|intros _].
  unfold P. rewrite adjustCPUUsage_mem. apply HPa, Hadj.
Qed.

Lemma X17_tick_keeps_pool_well_formed_witness :
  poolOK (Occupy.AllocatedMemory (Occupy.rm world0))
  /\ poolOK (Occupy.AllocatedMemory (Occupy.rm (Occupy.monitorAndAdjust tick0 world0))).
Proof.
  assert (H : poolOK (Occupy.AllocatedMemory (Occupy.rm world0))).
  { split; [constructor|vm_compute; reflexivity]. }
  split; [exact H|].
  apply (X17_tick_keeps_pool_well_formed tick0 world0 H).
  intros memInfo E _. injection E as <-. vm_compute. reflexivity.
Defined.

Lemma adjustMemoryUsage_cpuConsistent (current : F64) (memInfo : VirtualMemoryStat)
  (w : Occupy.World) :
  cpuConsistent (Occupy.rm w) ->
  cpuConsistent (Occupy.rm (Occupy.adjustMemoryUsage current memInfo w)).
Proof.
  unfold Occupy.adjustMemoryUsage. case_ifs; try (intros H; exact H).
  cbn [Occupy.rm Occupy.with_rm Occupy.record]. unfold Occupy.releaseMemory.
  destruct (Occupy.AllocatedMemory (Occupy.rm w)); intros H; exact H.
Qed.

Lemma adjustCPUUsage_cpuConsistent (NumCPU : positive) (current : F64) (w : Occupy.World) :
  cpuConsistent (Occupy.rm w) ->
  cpuConsistent (Occupy.rm (Occupy.adjustCPUUsage NumCPU current w)).
Proof.
  unfold Occupy.adjustCPUUsage. case_ifs; intros H; try exact H;
    apply adjustCPUWorkers_spec; exact H.
Qed.

Lemma arrive_cpuConsistent (env : Occupy.TickEnv) (k : nat) (w : Occupy.World) :
  cpuConsistent (Occupy.rm w) -> cpuConsistent (Occupy.rm (Occupy.arrive env k w)).
Proof. destruct (arrive_rm env k w) as [->| ->]; intros H; exact H. Qed.

(** X18: every tick keeps the spinner pool consistent: an active pool
    counts exactly the workers of its target, which is not zero, and an
    idle pool counts none. *)
Theorem X18_tick_keeps_spinner_pool_consistent (env : Occupy.TickEnv) (w : Occupy.World) :
  cpuConsistent (Occupy.rm w) ->
  cpuConsistent (Occupy.rm (Occupy.monitorAndAdjust env w)).
Proof.
  intros H. unfold Occupy.monitorAndAdjust.
  assert (Hd : forall e c d w1, cpuConsistent (Occupy.rm w1) ->
                 cpuConsistent (Occupy.rm (Occupy.adjustDiskUsage e c d w1)))
    by (intros; rewrite adjustDiskUsage_rm; assumption).
  assert (Hp : forall w1, cpuConsistent (Occupy.rm w1) ->
                 cpuConsistent (Occupy.rm (Occupy.panic w1)))
    by (intros w1 H1; exact H1).
  pose proof arrive_cpuConsistent as Ha. pose proof adjustMemoryUsage_cpuConsistent as Hm.
  pose proof adjustCPUUsage_cpuConsistent as Hc.
  repeat first
    [ apply (checkStop_ind (fun w' => cpuConsistent (Occupy.rm w'))); [auto 12|intros _]
    | match goal with |- context [match ?r with Ok _ => _ | Err => _ end] => destruct r end
    | match goal with
      | |- context [match ?l with [] => _ | _ :: _ => _ end] => destruct l
      end ];
    auto 12.
Qed.

Lemma X18_tick_keeps_spinner_pool_consistent_witness :
  cpuConsistent (Occupy.rm world0)
  /\ cpuConsistent (Occupy.rm (Occupy.monitorAndAdjust tick0 world0)).
Proof.
  assert (H : cpuConsistent (Occupy.rm world0)) by reflexivity.
  split; [exact H|]. apply (X18_tick_keeps_spinner_pool_consistent tick0 world0 H).
Defined.

(** * Further properties of the older program *)

(** ** Releasing blocks *)

(** X19: [Legacy.releaseMemory] on a pool of two or more blocks, and fewer
    than [2^49], keeps the oldest blocks, at least three tenths of them and
    at least one, and drops at least one; a pool of a single block is
    emptied. *)
Theorem X19_legacy_release_keeps_oldest_blocks (currentPercent : F64)
  (memInfo : VirtualMemoryStat) (m : Legacy.ResourceMonitor) :
  let mem := Legacy.allocatedMemory m in
  let after := Legacy.allocatedMemory (Legacy.releaseMemory currentPercent memInfo m) in
  Z.of_nat (length mem) < 2 ^ 49 ->
  ((2 <= length mem)%nat ->
   (1 <= length after < length mem)%nat
   /\ (3 * length mem <= 10 * length after)%nat
   /\ after = take (length after) mem)
  /\ (length mem = 1%nat -> after = []).
Proof.
  intros mem after Hbound.
  set (e := (currentPercent - Legacy.MemoryPercent (Legacy.config m))%F).
  set (t := (if (e <=? Finite 5)%F then 3
             else if (e <=? Finite 10)%F then 5 else 7)%positive).
  assert (Hcases : t = 3%positive \/ t = 5%positive \/ t = 7%positive)
    by apply legacy_tenths_cases.
  assert (Ht : 3 <= Z.pos t <= 7) by (destruct Hcases as [->|[->| ->]]; lia).
  set (blocks := Legacy.blocksToRelease (length mem) (round64 (Z.pos t # 10))).
  assert (Hafter : after = take (length mem - Z.to_nat blocks) mem).
  { unfold after. rewrite legacy_releaseMemory_mem. fold mem.
    rewrite legacy_releaseRatio_cases. reflexivity. }
  pose proof (legacy_blocks_bounds (length mem) t Hbound Hcases) as Hb. fold blocks in Hb.
  assert (Hdiv : 0 <= Z.of_nat (length mem) * Z.pos t / 10
                 /\ 10 * (Z.of_nat (length mem) * Z.pos t / 10)
                    <= 7 * Z.of_nat (length mem)).
  { split; [apply Z.div_pos; lia|].
    pose proof (Z.mul_div_le (Z.of_nat (length mem) * Z.pos t) 10 ltac:(lia)). nia. }
  split.
  - intros Hn.
    assert (Hlen : length after = (length mem - Z.to_nat blocks)%nat)
      by (rewrite Hafter, length_take; lia).
    repeat split; try lia.
    rewrite Hlen. exact Hafter.
  - intros H1. rewrite Hafter. rewrite H1 in *.
    replace (1 - Z.to_nat blocks)%nat with 0%nat by lia.
    apply take_0.
Qed.

Lemma X19_legacy_release_keeps_oldest_blocks_witness :
  Z.of_nat (length [700; 100; 100; 100]) < 2 ^ 49
  /\ (2 <= length [700; 100; 100; 100])%nat
  /\ Legacy.allocatedMemory
       (Legacy.releaseMemory (Finite 53) (mkMemInfo 1000 (Finite 53))
          (Legacy.set_allocatedMemory [700; 100; 100; 100] legacyMonitor0))
     = [700; 100; 100].
Proof.
  assert (Hb : Z.of_nat (length [700; 100; 100; 100]) < 2 ^ 49) by (simpl; lia).
  assert (H : (2 <= length [700; 100; 100; 100])%nat) by (simpl; lia).
  split; [exact Hb|]. split; [exact H|].
  pose proof (X19_legacy_release_keeps_oldest_blocks (Finite 53) (mkMemInfo 1000 (Finite 53))
    (Legacy.set_allocatedMemory [700; 100; 100; 100] legacyMonitor0) Hb) as [Hk _].
  destruct (Hk H) as (_ & _ & Ht). rewrite Ht. vm_compute. reflexivity.
Defined.

(** The bound on the pool is needed: in float64 the block count of a pool
    of 8143349758966227 blocks at the ratio [0.7] is 5700344831276359,
    more than seven tenths of the pool. *)
Example legacy_blocks_beyond_bound :
  let n := 8143349758966227 in
  Legacy.blocksToRelease (Z.to_nat n) (round64 (7 # 10)) = 5700344831276359
  /\ 7 * n < 10 * 5700344831276359.
Proof.
  cbv zeta. split; [|lia].
  unfold Legacy.blocksToRelease. rewrite Z2Nat.id by lia. vm_compute. reflexivity.
Qed.

(** ** Padding files of the older program *)

Lemma osWrite_twice (name : string) (a b : Z) (fs : list Occupy.File) :
  Occupy.osWrite name b (Occupy.osWrite name a fs) = Occupy.osWrite name b fs.
Proof.
  unfold Occupy.osWrite. rewrite map_map. apply map_ext. intros f.
  destruct (String.eqb_spec (Occupy.fname f) name) as [E|E].
  - simpl. rewrite String.eqb_refl. reflexivity.
  - destruct (String.eqb_spec (Occupy.fname f) name); [contradiction|reflexivity].
Qed.

Lemma legacy_sizes : 0 < Legacy.chunkSize0 /\ Legacy.fileSize = 512 * Legacy.chunkSize0
  /\ Legacy.fileSize < 2 ^ 64.
Proof. unfold Legacy.chunkSize0, Legacy.fileSize. lia. Qed.

Lemma legacy_stopSeen_never (env : Legacy.DiskEnv) (m : Legacy.ResourceMonitor)
  (count : nat) :
  legacyHealthy env m -> Legacy.stopSeen env m count = false.
Proof. intros (Hs & Ha & _). unfold Legacy.stopSeen. rewrite Hs, Ha. reflexivity. Qed.

(** The write loop on a healthy disk fills the file. *)
Lemma legacy_writeLoop_fills (env : Legacy.DiskEnv) (m : Legacy.ResourceMonitor)
  (i : Z) (name : string) :
  legacyHealthy env m ->
  forall (fuel : nat) (left : nat) (count : nat) (fs : list Occupy.File),
    (left <= 512)%nat -> (left < fuel)%nat ->
    exists count' : nat,
      Legacy.writeLoop env m fuel i name
        (Legacy.fileSize - Z.of_nat left * Legacy.chunkSize0) Legacy.chunkSize0 count fs
      = Legacy.LoopDone
          (if (0 <? left)%nat then Occupy.osWrite name Legacy.fileSize fs else fs) count'.
Proof.
  intros Hh. pose proof Hh as (_ & _ & _ & Hw).
  destruct legacy_sizes as (Hc & Hf & Hlt).
  induction fuel as [|fuel IH]; intros left count fs Hleft Hfuel; [lia|].
  cbn [Legacy.writeLoop]. destruct left as [|left].
  - rewrite Z.mul_0_l, Z.sub_0_r, Z.ltb_irrefl. exists count. reflexivity.
  - destruct (Z.ltb_spec (Legacy.fileSize - Z.of_nat (S left) * Legacy.chunkSize0)
                Legacy.fileSize); [|lia].
    rewrite !(legacy_stopSeen_never env m _ Hh), Hw.
    replace (Legacy.fileSize - (Legacy.fileSize - Z.of_nat (S left) * Legacy.chunkSize0))
      with (Z.of_nat (S left) * Legacy.chunkSize0) by lia.
    rewrite (u64_small (Z.of_nat (S left) * Legacy.chunkSize0)) by nia.
    destruct (Z.ltb_spec (Z.of_nat (S left) * Legacy.chunkSize0) Legacy.chunkSize0);
      [nia|].
    replace (Legacy.fileSize - Z.of_nat (S left) * Legacy.chunkSize0 + Legacy.chunkSize0)
      with (Legacy.fileSize - Z.of_nat left * Legacy.chunkSize0) by lia.
    rewrite u64_small by nia.
    destruct (IH left (S (S count))
                (Occupy.osWrite name
                   (Legacy.fileSize - Z.of_nat left * Legacy.chunkSize0) fs)
                ltac:(lia) ltac:(lia)) as (count' & ->).
    exists count'. f_equal. destruct left as [|left].
    + simpl. rewrite Z.sub_0_r. reflexivity.
    + cbn [Nat.ltb Nat.leb]. apply osWrite_twice.
Qed.

Lemma legacy_fileLoop_healthy (env : Legacy.DiskEnv) (m : Legacy.ResourceMonitor) :
  legacyHealthy env m ->
  forall (n : nat) (i : Z) (count : nat) (fs : list Occupy.File),
    Legacy.fileLoop env m n i count fs = writeAll (legacyPlan env n i) fs.
Proof.
  intros Hh. pose proof Hh as (_ & _ & Hc & _).
  destruct legacy_sizes as (Hcs & Hf & Hlt).
  induction n as [|n IH]; intros i count fs; [reflexivity|].
  cbn [Legacy.fileLoop legacyPlan]. rewrite (legacy_stopSeen_never env m _ Hh), Hc.
  destruct (legacy_writeLoop_fills env m i (Legacy.tempFileName (Legacy.now env i) i) Hh
              Legacy.writeFuel 512 (S count)
              (Occupy.osCreate (Legacy.tempFileName (Legacy.now env i) i) fs)
              ltac:(lia) ltac:(unfold Legacy.writeFuel; rewrite Hf, Z.div_mul by lia; lia))
    as (count' & Hloop).
  replace (Legacy.fileSize - Z.of_nat 512 * Legacy.chunkSize0) with 0 in Hloop by lia.
  rewrite Hloop, (legacy_stopSeen_never env m _ Hh), IH. reflexivity.
Qed.

(** The name of a padding file of the older program tells its index. *)
Lemma legacy_tempFileName_inj (now now' i i' : Z) :
  Legacy.tempFileName now i = Legacy.tempFileName now' i' -> i = i'.
Proof.
  unfold Legacy.tempFileName. intros H. cbn [String.append] in H.
  repeat match type of H with
         | String _ _ = String _ _ => injection H as H
         end.
  apply (split_at_char "_") in H as [_ H];
    [|apply lacks_decimal; reflexivity|apply lacks_decimal; reflexivity].
  apply (split_at_char ".") in H as [H _];
    [|apply lacks_decimal; reflexivity|apply lacks_decimal; reflexivity].
  apply decimal_inj. exact H.
Qed.

Lemma legacyPlan_names (env : Legacy.DiskEnv) (n : nat) :
  forall (i : Z) (f : Occupy.File),
    In f (legacyPlan env n i) ->
    Occupy.fsize f = Legacy.fileSize
    /\ exists j : Z, i <= j /\ Occupy.fname f = Legacy.tempFileName (Legacy.now env j) j.
Proof.
  induction n as [|n IH]; intros i f Hin; [destruct Hin|].
  destruct Hin as [<-|Hin].
  - split; [reflexivity|]. exists i. split; [lia|reflexivity].
  - apply IH in Hin as (Hs & j & Hj & Hn). split; [exact Hs|].
    exists j. split; [lia|exact Hn].
Qed.

Lemma legacyPlan_NoDup (env : Legacy.DiskEnv) (n : nat) :
  forall i : Z, NoDup (map Occupy.fname (legacyPlan env n i)).
Proof.
  induction n as [|n IH]; intros i; [constructor|].
  cbn [legacyPlan map]. apply NoDup_cons_2; [|apply IH].
  rewrite list_elem_of_In. intros Hin. apply in_map_iff in Hin as (f & Hf & Hin).
  apply legacyPlan_names in Hin as (_ & j & Hj & Hn). cbn [Occupy.fname] in Hf.
  rewrite Hn in Hf. apply legacy_tempFileName_inj in Hf. lia.
Qed.

Lemma legacyPlan_total (env : Legacy.DiskEnv) (n : nat) :
  forall i : Z,
    length (legacyPlan env n i) = n
    /\ sumZ (map Occupy.fsize (legacyPlan env n i)) = Z.of_nat n * Legacy.fileSize.
Proof.
  induction n as [|n IH]; intros i; [split; reflexivity|].
  destruct (IH (i + 1)) as [Hl Hs].
  cbn [legacyPlan map length sumZ Occupy.fsize]. rewrite Hl. split; [reflexivity|].
  change (sumZ (Legacy.fileSize :: map Occupy.fsize (legacyPlan env n (i + 1))))
    with (Legacy.fileSize + sumZ (map Occupy.fsize (legacyPlan env n (i + 1)))).
  rewrite Hs. lia.
Qed.

(** X20: on a healthy disk the older [createTempFiles] writes
    [targetBytes / 5GB + 1] files, distinctly named, of a full 5GB each,
    whatever the request: more than the bytes asked for, by up to 5GB. *)
Theorem X20_legacy_createTempFiles_full_files (env : Legacy.DiskEnv)
  (m : Legacy.ResourceMonitor) (targetBytes : Z) (fs : list Occupy.File) :
  legacyHealthy env m ->
  0 <= targetBytes < 2 ^ 64 ->
  let plan := legacyPlan env (Z.to_nat (targetBytes / Legacy.fileSize + 1)) 0 in
  Legacy.createTempFiles env targetBytes m fs = writeAll plan fs
  /\ Z.of_nat (length plan) = targetBytes / Legacy.fileSize + 1
  /\ Forall (fun f => Occupy.fsize f = Legacy.fileSize) plan
  /\ NoDup (map Occupy.fname plan)
  /\ targetBytes < sumZ (map Occupy.fsize plan) <= targetBytes + Legacy.fileSize
  /\ ((forall f, In f plan -> ~ In (Occupy.fname f) (map Occupy.fname fs)) ->
      Legacy.createTempFiles env targetBytes m fs = fs ++ plan).
Proof.
  intros Hh HB plan.
  assert (Hfs : Legacy.fileSize = 5368709120) by reflexivity.
  assert (Hq : 0 <= targetBytes / Legacy.fileSize < 2 ^ 63).
  { rewrite Hfs. split; [apply Z.div_pos; lia|].
    apply Z.div_lt_upper_bound; lia. }
  assert (Hrun : Legacy.createTempFiles env targetBytes m fs = writeAll plan fs).
  { unfold Legacy.createTempFiles. rewrite u64_small by lia.
    apply legacy_fileLoop_healthy. exact Hh. }
  destruct (legacyPlan_total env (Z.to_nat (targetBytes / Legacy.fileSize + 1)) 0)
    as [Hl Hs].
  fold plan in Hl, Hs.
  split; [exact Hrun|].
  split; [rewrite Hl; lia|].
  split.
  { apply Forall_forall. intros f Hf. apply list_elem_of_In in Hf.
    apply (proj1 (legacyPlan_names env _ 0 f Hf)). }
  split; [apply legacyPlan_NoDup|].
  split.
  { rewrite Hs, Z2Nat.id by lia.
    pose proof (Z.div_mod targetBytes Legacy.fileSize ltac:(lia)) as Hdm.
    pose proof (Z.mod_pos_bound targetBytes Legacy.fileSize ltac:(lia)) as Hmod.
    lia. }
  intros Hfresh. rewrite Hrun. apply writeAll_fresh; [apply legacyPlan_NoDup|exact Hfresh].
Qed.

Lemma X20_legacy_createTempFiles_full_files_witness :
  legacyHealthy legacyDisk0 legacyMonitor0
  /\ 0 <= 12884901888 < 2 ^ 64
  /\ Legacy.createTempFiles legacyDisk0 12884901888 legacyMonitor0 []
     = [Occupy.mkFile "/tmp/occupy_1700000000_0.tmp" 5368709120;
        Occupy.mkFile "/tmp/occupy_1700000000_1.tmp" 5368709120;
        Occupy.mkFile "/tmp/occupy_1700000000_2.tmp" 5368709120].
Proof.
  assert (Hh : legacyHealthy legacyDisk0 legacyMonitor0).
  { repeat split; reflexivity. }
  assert (HB : 0 <= 12884901888 < 2 ^ 64) by lia.
  split; [exact Hh|]. split; [exact HB|].
  destruct (X20_legacy_createTempFiles_full_files legacyDisk0 legacyMonitor0
              12884901888 [] Hh HB) as (Hrun & _).
  rewrite Hrun. vm_compute. reflexivity.
Defined.

(** ** The CPU load switch of the older program *)

Lemma cpuState_eta (c : Legacy.CPUState) :
  Legacy.cpuLoadMutex c = false ->
  {| Legacy.monitor := Legacy.monitor c; Legacy.cpuLoadMutex := false;
     Legacy.cpuLoadStop := Legacy.cpuLoadStop c; Legacy.cpuWorkers := Legacy.cpuWorkers c |}
  = c.
Proof. destruct c as [m mu st w]. simpl. intros ->. reflexivity. Qed.

(** Once the load is on, a call either blocks or changes nothing. *)
Lemma cpuCall_active (numCPU : Z) (k : CPUCall) (c : Legacy.CPUState) :
  cpuIdle c -> Legacy.activeCPULoad (Legacy.monitor c) = true ->
  cpuCall numCPU k c = Legacy.Blocks \/ cpuCall numCPU k c = Legacy.Returns c.
Proof.
  intros [Hm Hs] Ha. destruct k as [p|]; cbn [cpuCall].
  - unfold Legacy.adjustCPUUsage, Legacy.Unlock.
    rewrite Hm. cbn [Legacy.monitor Legacy.cpuLoadStop Legacy.cpuWorkers Legacy.cpuLoadMutex].
    rewrite Ha. cbn [negb].
    destruct (fltb p _); [right; f_equal; apply cpuState_eta; exact Hm|].
    destruct (fltb _ p); [left; reflexivity|right; f_equal; apply cpuState_eta; exact Hm].
  - right. unfold Legacy.stopCPULoad. rewrite Hm, Ha, Hs. reflexivity.
Qed.

Lemma cpuCall_idle (numCPU : Z) (k : CPUCall) (c c' : Legacy.CPUState) :
  cpuIdle c -> cpuCall numCPU k c = Legacy.Returns c' -> cpuIdle c'.
Proof.
  intros [Hm Hs] H.
  destruct (Legacy.activeCPULoad (Legacy.monitor c)) eqn:Ha.
  - destruct (cpuCall_active numCPU k c (conj Hm Hs) Ha) as [E|E];
      rewrite E in H; [discriminate|]. injection H as <-. split; assumption.
  - destruct k as [p|]; cbn [cpuCall] in H.
    + unfold Legacy.adjustCPUUsage, Legacy.startCPULoad, Legacy.Unlock in H.
      rewrite Hm in H.
      cbn [Legacy.monitor Legacy.cpuLoadStop Legacy.cpuWorkers Legacy.cpuLoadMutex] in H.
      rewrite Ha in H. cbn [negb] in H.
      destruct (fltb p _); [|destruct (fltb _ p)]; injection H as <-;
        split; try reflexivity; exact Hs.
    + unfold Legacy.stopCPULoad in H. rewrite Hm, Ha in H. simpl in H.
      injection H as <-. split; assumption.
Qed.

Lemma runCPU_active (numCPU : Z) (ks : list CPUCall) (c : Legacy.CPUState) :
  cpuIdle c -> Legacy.activeCPULoad (Legacy.monitor c) = true ->
  runCPU numCPU ks c = Legacy.Blocks \/ runCPU numCPU ks c = Legacy.Returns c.
Proof.
  intros Hi Ha. induction ks as [|k ks IH]; [right; reflexivity|].
  cbn [runCPU]. destruct (cpuCall_active numCPU k c Hi Ha) as [E|E]; rewrite E.
  - left. reflexivity.
  - exact IH.
Qed.

Lemma runCPU_idle (numCPU : Z) (ks : list CPUCall) :
  forall c c' : Legacy.CPUState,
    cpuIdle c -> runCPU numCPU ks c = Legacy.Returns c' -> cpuIdle c'.
Proof.
  induction ks as [|k ks IH]; intros c c' Hi H.
  - injection H as <-. exact Hi.
  - cbn [runCPU] in H. destruct (cpuCall numCPU k c) as [c1|] eqn:E; [|discriminate].
    apply (IH c1 c'); [apply (cpuCall_idle numCPU k c c1 Hi E)|exact H].
Qed.

Lemma runCPU_app (numCPU : Z) (ks ks' : list CPUCall) :
  forall c : Legacy.CPUState,
    runCPU numCPU (ks ++ ks') c
    = match runCPU numCPU ks c with
      | Legacy.Returns c' => runCPU numCPU ks' c'
      | Legacy.Blocks => Legacy.Blocks
      end.
Proof.
  induction ks as [|k ks IH]; intros c; [reflexivity|].
  cbn [app runCPU]. destruct (cpuCall numCPU k c); [apply IH|reflexivity].
Qed.

Lemma cpuCall_workers (numCPU : Z) (k : CPUCall) (c c' : Legacy.CPUState) :
  cpuIdle c -> cpuCall numCPU k c = Legacy.Returns c' ->
  Legacy.cpuWorkers c <= Legacy.cpuWorkers c'.
Proof.
  intros [Hm Hs] E. destruct k as [p|]; cbn [cpuCall] in E.
  - unfold Legacy.adjustCPUUsage, Legacy.startCPULoad, Legacy.stopCPULoad,
      Legacy.Unlock in E. rewrite Hm in E.
    cbn [Legacy.monitor Legacy.cpuLoadStop Legacy.cpuWorkers Legacy.cpuLoadMutex] in E.
    destruct (fltb p _).
    + destruct (Legacy.activeCPULoad (Legacy.monitor c)); cbn [negb] in E;
        injection E as <-; cbn [Legacy.cpuWorkers]; [lia|].
      match goal with |- context [?x <? 1] => destruct (Z.ltb_spec x 1) end; lia.
    + destruct (fltb _ p); [|injection E as <-; cbn [Legacy.cpuWorkers]; lia].
      destruct (Legacy.activeCPULoad (Legacy.monitor c)); [discriminate|].
      injection E as <-. cbn [Legacy.cpuWorkers]. lia.
  - unfold Legacy.stopCPULoad in E. rewrite Hm, Hs, Bool.andb_false_r in E.
    injection E as <-. lia.
Qed.

(** X21: in the older program [cpuLoadStop] is nil from construction and is
    only replaced inside the branch of [stopCPULoad] that requires it not to
    be nil. So after any calls of [adjustCPUUsage] and [stopCPULoad] that
    return, the channel is still nil, no worker has been told to return,
    and a load that was on is on as before: the clean-up never stops it. *)
Theorem X21_legacy_cpu_load_is_never_stopped (numCPU : Z) (ks : list CPUCall)
  (c c' : Legacy.CPUState) :
  cpuIdle c ->
  runCPU numCPU ks c = Legacy.Returns c' ->
  cpuIdle c'
  /\ Legacy.cpuWorkers c <= Legacy.cpuWorkers c'
  /\ (Legacy.activeCPULoad (Legacy.monitor c) = true -> c' = c).
Proof.
  intros Hi H. split; [apply (runCPU_idle numCPU ks c c' Hi H)|]. split.
  - revert c Hi H. induction ks as [|k ks IH]; intros c Hi H.
    + injection H as <-. lia.
    + cbn [runCPU] in H. destruct (cpuCall numCPU k c) as [c1|] eqn:E; [|discriminate].
      pose proof (cpuCall_workers numCPU k c c1 Hi E).
      pose proof (IH c1 (cpuCall_idle numCPU k c c1 Hi E) H). lia.
  - intros Ha. destruct (runCPU_active numCPU ks c Hi Ha) as [E|E];
      rewrite E in H; [discriminate|]. injection H as <-. reflexivity.
Qed.

Lemma X21_legacy_cpu_load_is_never_stopped_witness :
  cpuIdle (Legacy.NewCPUState (Legacy.config legacyMonitor0))
  /\ runCPU 4 [CallAdjust (Finite 10); CallStop; CallAdjust (Finite 30); CallStop]
       (Legacy.NewCPUState (Legacy.config legacyMonitor0))
     = Legacy.Returns
         (Legacy.mkCPU (Legacy.set_activeCPULoad true legacyMonitor0) false false 1)
  /\ cpuIdle (Legacy.mkCPU (Legacy.set_activeCPULoad true legacyMonitor0) false false 1).
Proof.
  assert (Hi : cpuIdle (Legacy.NewCPUState (Legacy.config legacyMonitor0)))
    by (split; reflexivity).
  assert (Hrun : runCPU 4 [CallAdjust (Finite 10); CallStop; CallAdjust (Finite 30); CallStop]
                   (Legacy.NewCPUState (Legacy.config legacyMonitor0))
                 = Legacy.Returns
                     (Legacy.mkCPU (Legacy.set_activeCPULoad true legacyMonitor0)
                        false false 1))
    by (vm_compute; reflexivity).
  split; [exact Hi|]. split; [exact Hrun|].
  exact (proj1 (X21_legacy_cpu_load_is_never_stopped 4 _ _ _ Hi Hrun)).
Defined.

(** X22: [adjustCPUUsage] of the older program holds [cpuLoadMutex] while it
    calls [stopCPULoad], which locks the same mutex. Once a sample below
    the band has started the load, whatever calls follow, the monitor
    goroutine is blocked for ever by the first sample above the band. *)
Theorem X22_legacy_adjustCPUUsage_blocks_itself (numCPU : Z) (config : Legacy.ResourceConfig)
  (low high : F64) (ks : list CPUCall) :
  (low <? Legacy.CPUPercent config - Finite 5)%F = true ->
  (Legacy.CPUPercent config + Finite 5 <? high)%F = true ->
  runCPU numCPU (CallAdjust low :: ks ++ [CallAdjust high]) (Legacy.NewCPUState config)
  = Legacy.Blocks.
Proof.
  intros Hlow Hhigh.
  assert (Hlt : (high <? Legacy.CPUPercent config - Finite 5)%F = false)
    by (apply (fltb_band _ _ 5); [discriminate|exact Hhigh]).
  cbn [runCPU cpuCall].
  unfold Legacy.adjustCPUUsage at 1. cbn [Legacy.NewCPUState Legacy.cpuLoadMutex
    Legacy.monitor Legacy.NewResourceMonitor Legacy.config Legacy.activeCPULoad
    Legacy.cpuLoadStop Legacy.cpuWorkers negb].
  rewrite Hlow.
  set (c1 := Legacy.Unlock _).
  assert (Hi : cpuIdle c1) by (split; reflexivity).
  assert (Ha : Legacy.activeCPULoad (Legacy.monitor c1) = true) by reflexivity.
  rewrite runCPU_app.
  destruct (runCPU_active numCPU ks c1 Hi Ha) as [E|E]; rewrite E; [reflexivity|].
  cbn [runCPU cpuCall]. unfold Legacy.adjustCPUUsage, Legacy.stopCPULoad.
  destruct Hi as [Hm Hs]. rewrite Hm.
  cbn [Legacy.monitor Legacy.cpuLoadMutex]. rewrite Ha.
  change (Legacy.config (Legacy.monitor c1)) with config.
  rewrite Hlt, Hhigh. reflexivity.
Qed.

Lemma X22_legacy_adjustCPUUsage_blocks_itself_witness :
  runCPU 4 (CallAdjust (Finite 10) :: [CallStop; CallAdjust (Finite 30)] ++ [CallAdjust (Finite 50)])
    (Legacy.NewCPUState (Legacy.config legacyMonitor0))
  = Legacy.Blocks.
Proof.
  apply (X22_legacy_adjustCPUUsage_blocks_itself 4 (Legacy.config legacyMonitor0)
           (Finite 10) (Finite 50) [CallStop; CallAdjust (Finite 30)]);
    vm_compute; reflexivity.
Defined.
